(** * The wiki parser of [update.py]

    A shallow embedding of [src/update.py]: the text-to-attribute parser
    ([Attribute.from_string], [Attribute._parse_scaling],
    [Attribute._parse_flat], [Ability._parse_leveling],
    [Ability._split_leveling], [Ability._match_and_split]), the Python
    string, regular-expression and number operations these functions call,
    the iterator helpers [grouper] and [pairwise], the reading of an
    ability's table ([Ability._parse_html_table] and the statements of
    [Ability._pull_champion_ability] behind the download), the collection of
    the champions' data table in [pull_all_champion_stats] up to its [eval],
    and [rename_keys].  The downloads and the files ([download_webpage],
    [save_json], [main], [rename_all]) are not part of it.

    Conventions of the embedding:
    - a Python [str] is a [list ascii]; a character is its code point, read
      as Latin-1 (code points below 256);
    - a raised exception is the [Raise] result of the [result] monad; Python's
      [assert] is taken with assertions enabled;
    - the calls to [print] (and the [verbose] flag that only guards them) are
      left out: they do not change what is returned or raised;
    - Python [int] is [Z] and Python [float] is the binary64 type [float];
    - a [dict] is the list of its items in insertion order; an element of a
      page is the pair of its text and its markup, both computed by the
      library that parsed the page. *)

From Stdlib Require Import String Ascii.
From Stdlib Require Import ZArith Lia Bool PeanoNat Floats.
From Stdlib Require Import List.
Import ListNotations.

(** ** Python strings *)

Definition str : Type := list ascii.

(** A string literal of the source. *)
Definition py (s : string) : str := list_ascii_of_string s.
Arguments py s%_string.

Definition str_eq_dec : forall a b : str, {a = b} + {a <> b} :=
  list_eq_dec ascii_dec.

Module PyStr.

(** [a == b] on strings. *)
Fixpoint eqb (a b : str) : bool :=
  match a, b with
  | [], [] => true
  | c :: a', d :: b' => Ascii.eqb c d && eqb a' b'
  | _, _ => false
  end.

(** [c.isspace()] for a Latin-1 code point; the same characters are [\s] for
    a [str] pattern of the [re] module. *)
Definition isspace (c : ascii) : bool :=
  let n := nat_of_ascii c in
  ((9 <=? n) && (n <=? 13)) || ((28 <=? n) && (n <=? 32))
  || (n =? 133) || (n =? 160).

(** [s.startswith(p)]. *)
Fixpoint startswith (s p : str) {struct p} : bool :=
  match p, s with
  | [], _ => true
  | c :: p', d :: s' => Ascii.eqb c d && startswith s' p'
  | _ :: _, [] => false
  end.

(** [s.endswith(p)]. *)
Definition endswith (s p : str) : bool := startswith (rev s) (rev p).

(** [sub in s]. *)
Fixpoint contains (s sub : str) : bool :=
  startswith s sub
  || match s with
     | [] => false
     | _ :: t => contains t sub
     end.

(** [s.find(sub)]: the lowest index where [sub] starts, [None] for -1. *)
Fixpoint find (s sub : str) : option nat :=
  if startswith s sub then Some 0
  else match s with
       | [] => None
       | _ :: t => option_map S (find t sub)
       end.

(** The scans below walk the string once; [skip] counts the characters still
    covered by the occurrence found last, so that occurrences do not overlap. *)
Fixpoint count_from (sub : str) (skip : nat) (s : str) : nat :=
  match s with
  | [] => 0
  | _ :: t =>
      match skip with
      | S k => count_from sub k t
      | 0 => if startswith s sub
             then S (count_from sub (length sub - 1) t)
             else count_from sub 0 t
      end
  end.

(** [s.count(sub)]. *)
Definition count (s sub : str) : nat :=
  match sub with
  | [] => S (length s)
  | _ :: _ => count_from sub 0 s
  end.

Fixpoint replace_from (old new : str) (skip : nat) (s : str) : str :=
  match s with
  | [] => []
  | c :: t =>
      match skip with
      | S k => replace_from old new k t
      | 0 => if startswith s old
             then new ++ replace_from old new (length old - 1) t
             else c :: replace_from old new 0 t
      end
  end.

(** [s.replace(old, new)]. *)
Definition replace (s old new : str) : str :=
  match old with
  | [] => new ++ flat_map (fun c => c :: new) s
  | _ :: _ => replace_from old new 0 s
  end.

Fixpoint split_from (sep : str) (skip : nat) (s : str) : list str :=
  match s with
  | [] => [[]]
  | c :: t =>
      match skip with
      | S k => split_from sep k t
      | 0 => if startswith s sep
             then [] :: split_from sep (length sep - 1) t
             else match split_from sep 0 t with
                  | p :: ps => (c :: p) :: ps
                  | [] => [[c]]
                  end
      end
  end.

(** [s.split(sep)] for a non-empty separator (the source passes only the
    literals [" + "] and [" / "]; Python raises [ValueError] on an empty one,
    where this function returns [[s]]). *)
Definition split (s sep : str) : list str :=
  match sep with
  | [] => [s]
  | _ :: _ => split_from sep 0 s
  end.

Fixpoint lstrip (s : str) : str :=
  match s with
  | [] => []
  | c :: t => if isspace c then lstrip t else s
  end.

Definition rstrip (s : str) : str := rev (lstrip (rev s)).

(** [s.strip()]. *)
Definition strip (s : str) : str := rstrip (lstrip s).

(** The slices [s[1:-1]], [s[:-1]], [s[k:]] and [s[:k]]. *)
Definition slice_1_m1 (s : str) : str := removelast (tl s).
Definition slice_to_m1 (s : str) : str := removelast s.
Definition slice_from (k : nat) (s : str) : str := skipn k s.
Definition slice_to (k : nat) (s : str) : str := firstn k s.

End PyStr.

(** ** Regular expressions

    A compiled pattern is modelled by what it matches at the start of a
    string: the text [findall] reports for the match (the pattern's single
    group) and the number of characters the whole match covers. None of the
    four patterns of the source matches the empty string.  Each pattern is
    given here as a scanner written for it, which the parser calls; module
    [Regex] below gives it as a regular expression, and [patterns_agree]
    proves that both find the same matches. *)

Module Re.

Definition pattern : Type := str -> option (str * nat).

(** The texts of the four patterns, as the source writes them. *)
Definition rattribute_text : string := "((?:[A-Za-z'\-\.0-9]+[\s\-]*)+:)".
Definition rflat_text : string := ": (.+)".
Definition rscaling_text : string := "(\(\+.+?\))".
Definition rnumber_text : string := "(\d+\.?\d*)".

(** The longest prefix whose characters all satisfy [p]: a greedy [p*]. *)
Fixpoint take_while (p : ascii -> bool) (s : str) : str :=
  match s with
  | [] => []
  | c :: t => if p c then c :: take_while p t else []
  end.

(** [re.compile(p).findall(s)]: the matches are found from left to right and
    do not overlap; after a failure at one position the next one is tried. *)
Fixpoint findall_from (re : pattern) (skip : nat) (s : str) : list str :=
  match s with
  | [] => []
  | _ :: t =>
      match skip with
      | S k => findall_from re k t
      | 0 => match re s with
             | Some (g, n) => g :: findall_from re (n - 1) t
             | None => findall_from re 0 t
             end
      end
  end.

Definition findall (re : pattern) (s : str) : list str := findall_from re 0 s.

Definition isdigit (c : ascii) : bool :=
  let n := nat_of_ascii c in (48 <=? n) && (n <=? 57).

Definition isalpha (c : ascii) : bool :=
  let n := nat_of_ascii c in
  ((65 <=? n) && (n <=? 90)) || ((97 <=? n) && (n <=? 122)).

Definition newline : ascii := ascii_of_nat 10.

(** [.] matches every character but the newline. *)
Definition dot (c : ascii) : bool := negb (Ascii.eqb c newline).

(** [rnumber], the pattern [rnumber_text]: digits, then an optional point,
    then digits;
    every quantifier is greedy and nothing after it can fail, so no
    backtracking takes place. *)
Definition rnumber : pattern := fun s =>
  match take_while isdigit s with
  | [] => None
  | ds =>
      let r := skipn (length ds) s in
      let point := match r with
                   | c :: _ => if Ascii.eqb c "."%char then [c] else []
                   | [] => []
                   end in
      let fs := take_while isdigit (skipn (length point) r) in
      let m := ds ++ point ++ fs in
      Some (m, length m)
  end.

(** The lazy [.+?] followed by [\)], after the first character of the run has
    been read: the run is extended one character at a time until a closing
    parenthesis follows; a newline or the end of the string ends the attempt. *)
Fixpoint lazy_to_paren (s : str) : option str :=
  match s with
  | [] => None
  | c :: t =>
      if Ascii.eqb c ")"%char then Some [c]
      else if dot c then option_map (cons c) (lazy_to_paren t)
      else None
  end.

(** [rscaling], the pattern [rscaling_text]. *)
Definition rscaling : pattern := fun s =>
  match s with
  | p :: q :: c :: t =>
      if Ascii.eqb p "("%char && Ascii.eqb q "+"%char && dot c then
        match lazy_to_paren t with
        | Some u => let m := p :: q :: c :: u in Some (m, length m)
        | None => None
        end
      else None
  | _ => None
  end.

(** [rflat], the pattern [rflat_text]: the group is the rest of the line. *)
Definition rflat : pattern := fun s =>
  match s with
  | p :: q :: c :: t =>
      if Ascii.eqb p ":"%char && Ascii.eqb q " "%char && dot c then
        let g := c :: take_while dot t in Some (g, 2 + length g)
      else None
  | _ => None
  end.

(** The classes [[A-Za-z'\-\.0-9]] and [[\s\-]] of [rattribute]. *)
Definition label_char (c : ascii) : bool :=
  isalpha c || isdigit c || Ascii.eqb c "'"%char || Ascii.eqb c "-"%char
  || Ascii.eqb c "."%char.

Definition label_gap (c : ascii) : bool :=
  PyStr.isspace c || Ascii.eqb c "-"%char.

(** [rattribute], the pattern [rattribute_text].  The repeated group
    matches exactly the non-empty runs of class characters that begin with a
    character of the first class; the colon is in neither class, so a match
    at a position is the longest such run there, and exists only if a colon
    follows that run (backtracking to a shorter run never finds a colon). *)
Definition rattribute : pattern := fun s =>
  match s with
  | c :: _ =>
      if label_char c then
        let run := take_while (fun c => label_char c || label_gap c) s in
        match skipn (length run) s with
        | d :: _ => if Ascii.eqb d ":"%char
                    then let m := run ++ [d] in Some (m, length m)
                    else None
        | [] => None
        end
      else None
  | [] => None
  end.

End Re.

(** ** The patterns as regular expressions

    The four patterns once more, as the regular expressions their texts
    denote, executed by a backtracking engine: the alternatives are tried in
    the order of Python's [re] (a greedy repetition tries one more iteration
    before it goes on, a lazy one goes on first), and the first way that lets
    the whole pattern match is taken.  The scanners of [Re] are proved to
    compute the same matches (see [patterns_agree]). *)

Module Regex.

(** [Chr p] is one character of a class ([\d], [.], a literal); [Rep] is a
    repetition, [+] or [*], greedy or lazy. *)
Inductive regex : Type :=
| Eps
| Chr (p : ascii -> bool)
| Cat (r1 r2 : regex)
| Opt (r : regex)
| Rep (at_least_one greedy : bool) (r : regex).

Definition orelse {A : Type} (a b : option A) : option A :=
  match a with
  | Some x => Some x
  | None => b
  end.

(** [exec fuel r s k] matches [r] at the start of [s] and hands what is left
    of [s] to [k], the rest of the pattern; when [k] fails the next
    alternative is tried.  An iteration of a repetition must consume a
    character, so [fuel] above the length of [s] is never used up. *)
Fixpoint exec {A : Type} (fuel : nat)
  : regex -> str -> (str -> option A) -> option A :=
  fix go (r : regex) (s : str) (k : str -> option A) : option A :=
    match r with
    | Eps => k s
    | Chr p =>
        match s with
        | c :: t => if p c then k t else None
        | [] => None
        end
    | Cat r1 r2 => go r1 s (fun s1 => go r2 s1 k)
    | Opt r1 => orelse (go r1 s k) (k s)
    | Rep one greedy r1 =>
        match fuel with
        | 0 => None
        | S f =>
            let again :=
              go r1 s (fun s1 =>
                         if length s1 <? length s
                         then exec f (Rep false greedy r1) s1 k
                         else None) in
            if one then again
            else if greedy then orelse again (k s)
            else orelse (k s) again
        end
    end.

Definition lit (c : ascii) : regex := Chr (fun d => Ascii.eqb d c).
Definition digit : regex := Chr Re.isdigit.
Definition any : regex := Chr Re.dot.

(** A pattern with its one group at the end: [before] is the part in front
    of the group. *)
Record source : Type := { before : regex; group : regex }.

(** The match of a pattern at the start of [s]: the text of the group and
    the length of the whole match. *)
Definition compile (src : source) : Re.pattern := fun s =>
  let fuel := S (length s) in
  match exec fuel (before src) s
             (fun s1 => exec fuel (group src) s1 (fun s2 => Some (s1, s2))) with
  | Some (s1, s2) => Some (firstn (length s1 - length s2) s1, length s - length s2)
  | None => None
  end.

(** The patterns [rnumber_text], [rscaling_text], [rflat_text] and
    [rattribute_text]. *)
Definition rnumber : source :=
  {| before := Eps;
     group := Cat (Rep true true digit)
                  (Cat (Opt (lit ".")) (Rep false true digit)) |}.
Definition rscaling : source :=
  {| before := Eps;
     group := Cat (lit "(") (Cat (lit "+") (Cat (Rep true false any) (lit ")"))) |}.
Definition rflat : source :=
  {| before := Cat (lit ":") (lit " "); group := Rep true true any |}.
Definition rattribute : source :=
  {| before := Eps;
     group := Cat (Rep true true
                     (Cat (Rep true true (Chr Re.label_char))
                          (Rep false true (Chr Re.label_gap))))
                  (lit ":") |}.

(** The texts a regular expression can match at the start of a string,
    whatever the order in which the engine tries them: [Matches r s s1] when
    [r] matches a prefix of [s] and [s1] is what is left of [s]. *)
Inductive Matches : regex -> str -> str -> Prop :=
| M_Eps (s : str) : Matches Eps s s
| M_Chr (p : ascii -> bool) (c : ascii) (t : str) :
    p c = true -> Matches (Chr p) (c :: t) t
| M_Cat (r1 r2 : regex) (s s1 s2 : str) :
    Matches r1 s s1 -> Matches r2 s1 s2 -> Matches (Cat r1 r2) s s2
| M_Opt_some (r : regex) (s s1 : str) :
    Matches r s s1 -> Matches (Opt r) s s1
| M_Opt_none (r : regex) (s : str) : Matches (Opt r) s s
| M_Rep_stop (greedy : bool) (r : regex) (s : str) :
    Matches (Rep false greedy r) s s
| M_Rep_more (one greedy : bool) (r : regex) (s s1 s2 : str) :
    Matches r s s1 -> length s1 < length s ->
    Matches (Rep false greedy r) s1 s2 -> Matches (Rep one greedy r) s s2.

Definition label_class (c : ascii) : bool := Re.label_char c || Re.label_gap c.

Definition label_group : regex :=
  Cat (Rep true true (Chr Re.label_char)) (Rep false true (Chr Re.label_gap)).

End Regex.

(** ** Exceptions *)

Inductive exn : Type :=
| AssertionError
| IndexError
| ValueError
| SyntaxError
| OverflowError
| TypeError
| RuntimeError (msg : str)
| UnparsableLeveling (text : str).

Inductive result (A : Type) : Type :=
| Ok (a : A)
| Raise (e : exn).
Arguments Ok {A} a.
Arguments Raise {A} e.

Definition bind {A B : Type} (r : result A) (k : A -> result B) : result B :=
  match r with
  | Ok a => k a
  | Raise e => Raise e
  end.

Notation "x <- r ;; k" := (bind r (fun x => k))
  (at level 61, r at next level, right associativity).
Notation "' p <- r ;; k" := (bind r (fun x => let p := x in k))
  (at level 61, p pattern, r at next level, right associativity).

(** A loop that appends one result per element and stops at the first
    exception. *)
Fixpoint mapM {A B : Type} (f : A -> result B) (l : list A) : result (list B) :=
  match l with
  | [] => Ok []
  | a :: l' => b <- f a ;; bs <- mapM f l' ;; Ok (b :: bs)
  end.

(** [assert b]. *)
Definition assert (b : bool) : result unit :=
  if b then Ok tt else Raise AssertionError.

(** ** Python numbers *)

Inductive pyval : Type :=
| PInt (z : Z)
| PFloat (f : float)
| PStr (s : str).

Module PyNum.

Definition digit_value (c : ascii) : Z := Z.of_nat (nat_of_ascii c - 48).

(** The value of a run of decimal digits. *)
Definition digits_value (ds : str) : Z :=
  fold_left (fun acc c => 10 * acc + digit_value c)%Z ds 0%Z.

(** The binary64 number nearest to [p / q] (ties to even), for [0 <= p] and
    [0 < q]: the quotient is taken with at least 55 significant bits and one
    more bit records a non-zero remainder, which decides every rounding. *)
Definition float_of_ratio (p q : Z) : float :=
  if (p =? 0)%Z then 0%float
  else
    let s := Z.max 0 (Z.log2 q - Z.log2 p + 56) in
    let n := (Z.shiftl p s / q)%Z in
    let sticky := if (Z.shiftl p s mod q =? 0)%Z then 0%Z else 1%Z in
    SF2Prim (binary_normalize prec emax (2 * n + sticky) (- s - 1) false).

(** The conversion of an [int] operand to [float]: the nearest binary64
    number, [OverflowError] when the integer is too large. *)
Definition float_of_int (z : Z) : result float :=
  let f := SF2Prim (binary_normalize prec emax z 0 false) in
  if PrimFloat.is_infinity f then Raise OverflowError else Ok f.

Definition to_float (v : pyval) : result float :=
  match v with
  | PInt z => float_of_int z
  | PFloat f => Ok f
  | PStr _ => Raise TypeError
  end.

(** [eval(v)] for the texts the source passes to it, the matches of
    [rnumber]: a decimal integer literal (no leading zero unless every digit
    is a zero) or a point-float literal; any other text is reported as a
    [SyntaxError]. *)
Definition eval (v : str) : result pyval :=
  let ds := Re.take_while Re.isdigit v in
  match ds, skipn (length ds) v with
  | [], _ => Raise SyntaxError
  | d :: _, [] =>
      if Ascii.eqb d "0"%char && negb (forallb (Ascii.eqb "0"%char) ds)
      then Raise SyntaxError
      else Ok (PInt (digits_value ds))
  | _ :: _, c :: fs =>
      if Ascii.eqb c "."%char && forallb Re.isdigit fs
      then Ok (PFloat (float_of_ratio (digits_value (ds ++ fs))
                                      (10 ^ Z.of_nat (length fs))))
      else Raise SyntaxError
  end.

(** [a - b], [a / b], [a * b] and [a + b] on numbers: two [int] operands of
    [-], [*] and [+] give an [int], every other pair of numbers is computed
    in binary64. *)
Definition sub (a b : pyval) : result pyval :=
  match a, b with
  | PInt x, PInt y => Ok (PInt (x - y))
  | _, _ => x <- to_float a ;; y <- to_float b ;; Ok (PFloat (x - y))
  end.

Definition mul (a b : pyval) : result pyval :=
  match a, b with
  | PInt x, PInt y => Ok (PInt (x * y))
  | _, _ => x <- to_float a ;; y <- to_float b ;; Ok (PFloat (x * y))
  end.

Definition add (a b : pyval) : result pyval :=
  match a, b with
  | PInt x, PInt y => Ok (PInt (x + y))
  | _, _ => x <- to_float a ;; y <- to_float b ;; Ok (PFloat (x + y))
  end.

(** [a / b] for a non-zero [float] divisor [b] (the source divides by the
    literal [17.0] only). *)
Definition truediv (a : pyval) (b : float) : result pyval :=
  x <- to_float a ;; Ok (PFloat (x / b)).

(** [a == b] on numbers and strings: an [int] equals a [float] when the
    float is that integer exactly. *)
Definition eqb (a b : pyval) : bool :=
  match a, b with
  | PInt x, PInt y => Z.eqb x y
  | PFloat x, PFloat y => PrimFloat.eqb x y
  | PInt x, PFloat y | PFloat y, PInt x =>
      match Prim2SF y with
      | S754_zero _ => Z.eqb x 0
      | S754_finite s m e =>
          let sm := ((if s then -1 else 1) * Z.pos m)%Z in
          if (0 <=? e)%Z then Z.eqb x (sm * 2 ^ e)
          else Z.eqb (x * 2 ^ (- e)) sm
      | _ => false
      end
  | PStr x, PStr y => PyStr.eqb x y
  | _, _ => false
  end.

End PyNum.

(** ** The data model: [AttributeModifier] and [Attribute]

    Both classes are dictionaries with fixed keys; the records have one field
    per key. *)

Record AttributeModifier : Type := mkAttributeModifier {
  sign : str;
  values : list pyval;
  units : list str
}.

Record Attribute : Type := mkAttribute {
  attribute : str;
  modifiers : list AttributeModifier
}.

(** ** [class Attribute] *)

(** The body of the loop of [_parse_scaling] over the sub-fragments. *)
Definition scaling_value (value : str) : result (pyval * str) :=
  match Re.findall Re.rnumber value with
  | [] =>
      _ <- assert (PyStr.eqb value (py "Siphoning Strike stacks")) ;;
      Ok (PStr value, [])
  | v :: _ =>
      _ <- assert (PyStr.startswith value v
                   || PyStr.startswith value (py "[ " ++ v)) ;;
      let unit := PyStr.slice_from (length v) value in
      v <- PyNum.eval v ;;
      Ok (v, unit)
  end.

Definition _parse_scaling (scaling : str) (num_levels : nat)
  : result AttributeModifier :=
  let scaling :=
    if PyStr.startswith scaling (py "(") && PyStr.endswith scaling (py ")")
    then PyStr.strip (PyStr.slice_1_m1 scaling)
    else scaling in
  match scaling with
  | [] => Raise IndexError
  | modifier :: _ =>
      let scaling := PyStr.strip (PyStr.slice_from 1 scaling) in
      let split :=
        if PyStr.contains scaling (py " / ")
        then PyStr.split scaling (py " / ")
        else repeat scaling num_levels in
      results <- mapM scaling_value split ;;
      Ok (mkAttributeModifier [modifier] (map fst results) (map snd results))
  end.

(** The body of the loop of [_parse_flat] over the sub-fragments. *)
Definition flat_value (value : str) : result (pyval * str) :=
  let v := Re.findall Re.rnumber value in
  _ <- assert (length v =? 1) ;;
  match v with
  | [] => Raise IndexError
  | v :: _ =>
      _ <- assert (PyStr.startswith value v) ;;
      let unit := PyStr.slice_from (length v) value in
      v <- PyNum.eval v ;;
      Ok (v, unit)
  end.

(** [minn + i*delta for i in range(18)] with
    [delta = (maxx - minn) / 17.0]. *)
Definition interpolate (minn maxx : pyval) : result (list pyval) :=
  d <- PyNum.sub maxx minn ;;
  delta <- PyNum.truediv d 17%float ;;
  mapM (fun i => p <- PyNum.mul (PInt (Z.of_nat i)) delta ;; PyNum.add minn p)
       (seq 0 18).

(** [set(units)] with [''] removed, as a duplicate-free list. *)
Definition unique_units (units : list str) : list str :=
  remove str_eq_dec [] (nodup str_eq_dec units).

Definition _parse_flat (flat : str) (num_levels : nat)
  : result AttributeModifier :=
  if PyStr.contains flat (py "(based on level)")
     || PyStr.contains flat (py "(based on casts)")
  then
    '(unit, flat) <-
      (if PyStr.contains flat (py "(based on level)")
       then Ok (py "by level",
                PyStr.strip (PyStr.replace flat (py "(based on level)") []))
       else if PyStr.contains flat (py "(based on casts)")
       then Ok (py "by cast",
                PyStr.strip (PyStr.replace flat (py "(based on casts)") []))
       else Raise (RuntimeError (py "impossible"))) ;;
    let values := Re.findall Re.rnumber flat in
    _ <- assert (length values =? 2) ;;
    match values with
    | v0 :: v1 :: _ =>
        minn <- PyNum.eval v0 ;;
        maxx <- PyNum.eval v1 ;;
        values <- interpolate minn maxx ;;
        Ok (mkAttributeModifier (py "+") values (repeat unit 18))
    | _ => Raise IndexError
    end
  else
    let flat :=
      if PyStr.startswith flat (py "(") && PyStr.endswith flat (py ")")
      then PyStr.strip (PyStr.slice_1_m1 flat)
      else flat in
    let split :=
      if PyStr.contains flat (py " / ")
      then PyStr.split flat (py " / ")
      else repeat flat num_levels in
    results <- mapM flat_value split ;;
    let values := map fst results in
    let units := map snd results in
    units <-
      match unique_units units with
      | [] => Ok units
      | unit :: others =>
          _ <- assert (length (unit :: others) =? 1) ;;
          Ok (repeat unit (length units))
      end ;;
    Ok (mkAttributeModifier (py "+") values units).

Definition from_string (name split : str) : result Attribute :=
  let scalings := Re.findall Re.rscaling split in
  let split :=
    fold_left (fun split scaling =>
                 PyStr.strip (PyStr.replace split scaling []))
              scalings split in
  let scalings := map PyStr.strip scalings in
  scaled <- mapM (fun scaling => _parse_scaling scaling 5) scalings ;;
  let flat := Re.findall Re.rflat split in
  let flat := flat_map (fun x => PyStr.split (PyStr.strip x) (py " + ")) flat in
  let flat :=
    match flat with
    | _ :: _ => flat
    | [] =>
        let numbers := Re.findall Re.rnumber split in
        if (PyStr.count split (py " / ") =? 4) && (length numbers =? 5)
        then [split]
        else if (PyStr.count split (py " / ") =? 2) && (length numbers =? 3)
        then [split]
        else if (length numbers =? 1) && PyStr.eqb (hd [] numbers) split
        then [split]
        else []
    end in
  flats <- mapM (fun f => _parse_flat f 5) flat ;;
  Ok (mkAttribute name (scaled ++ flats)).

(** ** [class Ability] *)

Definition pounce : str :=
  py "Pounce scales with  Aspect of the Cougar's rank".
Definition cougar : str :=
  py "Cougar form's abilities rank up when  Aspect of the Cougar does".

(** The spans of Heimerdinger's rocket text as the loop cuts them, and the
    spans that replace them. *)
Definition heimer_found : list str :=
  [ py "Initial Rocket Magic Damage: 135 / 180 / 225 (+ 45% AP) 2-5";
    py "Rocket Magic Damage: 32 / 45 / 58 (+ 12% AP) 6-20";
    py "0 Rocket Magic Damage: 16 / 22.5 / 29 (+ 6% AP)";
    py "Total Magic Damage: 503 / 697.5 / 892 (+ 183% AP)";
    py ") Total Minion Magic Damage: 2700 / 3600 / 4500 (+ 900% AP)" ].
Definition heimer_fixed : list str :=
  [ py "Initial Rocket Magic Damage: 135 / 180 / 225 (+ 45% AP)";
    py "2-5 Rocket Magic Damage: 32 / 45 / 58 (+ 12% AP)";
    py "6-20 Rocket Magic Damage: 16 / 22.5 / 29 (+ 6% AP)";
    py "Total Magic Damage: 503 / 697.5 / 892 (+ 183% AP)";
    py "Total Minion Magic Damage: 2700 / 3600 / 4500 (+ 900% AP)" ].

(** The loop [for i, m in enumerate(matches[1:], start=1)] of
    [_match_and_split]: [prev] is [matches[i-1]], [ms] the matches still to
    come, [string] and [splits] the loop's two variables. *)
Fixpoint split_loop (prev : str) (ms : list str) (string : str)
  (splits : list str) : result (str * list str) :=
  match ms with
  | [] => Ok (string, splits)
  | m :: ms' =>
      match PyStr.find (PyStr.slice_from (length prev) string) m with
      | None => Raise ValueError
      | Some start =>
          let split := PyStr.strip (PyStr.slice_to (length prev + start) string) in
          split_loop m ms' (PyStr.slice_from (length prev + start) string)
                     (splits ++ [split])
      end
  end.

Definition _match_and_split (string : str) (regex : Re.pattern)
  : result (list str * list str) :=
  if PyStr.eqb string pounce then Raise (UnparsableLeveling string)
  else if PyStr.eqb string cougar then Raise (UnparsableLeveling string)
  else
    let matches := Re.findall regex string in
    let matches := map PyStr.slice_to_m1 matches in
    '(string, splits) <-
      match matches with
      | [] => Ok (string, [])
      | m0 :: ms => split_loop m0 ms string []
      end ;;
    let splits := splits ++ [string] in
    let splits :=
      if list_eq_dec str_eq_dec splits heimer_found then heimer_fixed
      else splits in
    Ok (matches, splits).

Definition leveling_removals : list str :=
  [ py "(increased by 3% per 1% of health lost in the past 4 seconds)" ].

(** [zip(matches, splits)]. *)
Definition zip {A B : Type} (l : list A) (l' : list B) : list (A * B) :=
  combine l l'.

(** The loop [for removal in leveling_removals] of [_split_leveling]. *)
Definition remove_extras (leveling : str) : str :=
  fold_left (fun leveling removal =>
               if PyStr.contains leveling removal
               then PyStr.strip (PyStr.replace leveling removal [])
               else leveling)
            leveling_removals leveling.

Definition _split_leveling (leveling : str) : result (list Attribute) :=
  let leveling := remove_extras leveling in
  '(matches, splits) <- _match_and_split leveling Re.rattribute ;;
  mapM (fun '(attribute_name, split) => from_string attribute_name split)
       (zip matches splits).

(** The sampling of ranks 1, 3 and 5 that [_parse_leveling] applies to a
    list of length 5. *)
Definition ranks_135 {A : Type} (l : list A) : list A :=
  match l with
  | [x0; _; x2; _; x4] => [x0; x2; x4]
  | _ => l
  end.

(** The body of the inner loop of [_parse_leveling] on one modifier. *)
Definition reduce_modifier (modifier : AttributeModifier) : AttributeModifier :=
  let mvalues := values modifier in
  let values' := if length mvalues =? 5 then ranks_135 mvalues else mvalues in
  let munits := units modifier in
  let units' := if length munits =? 5 then ranks_135 munits else munits in
  mkAttributeModifier (sign modifier) values' units'.

Definition reduce_attribute (a : Attribute) : Attribute :=
  mkAttribute (attribute a) (map reduce_modifier (modifiers a)).

Section Pipeline.

(** [BeautifulSoup(leveling, 'html5lib').text]: the text of a piece of
    markup, computed by a library outside the repository. *)
Variable html_text : str -> str.

Definition nbsp : ascii := ascii_of_nat 160.

Definition _preparse_format (leveling : str) : str :=
  let leveling := PyStr.replace leveling (py "</dt>") (py " </dt>") in
  let leveling := PyStr.replace leveling (py "</dd>") (py " </dd>") in
  let parsed := PyStr.strip (html_text leveling) in
  PyStr.replace parsed [nbsp] (py " ").

Definition _parse_leveling (leveling skill : str) : result (list Attribute) :=
  let parsed := _preparse_format leveling in
  results <- _split_leveling parsed ;;
  Ok (if PyStr.eqb skill (py "R") then map reduce_attribute results
      else results).

End Pipeline.

(** ** Iterator helpers: [grouper] and [pairwise] *)

Section Iterators.

Context {A : Type}.

(** One round of [itertools.zip_longest] over references to one list
    iterator, as the library documents its loop.  [it] holds the items the
    shared iterator has still to give; [iterators] tells for every position of
    the tuple whether it still refers to that iterator ([true]) or has been
    replaced by [repeat(fillvalue)]; [num_active] counts the positions not yet
    replaced.  A position whose [next] raises [StopIteration] lowers
    [num_active]; the generator returns (here [None]) when it reaches 0,
    and otherwise the position is replaced and filled. *)
Fixpoint zip_longest_round (fillvalue : A) (iterators : list bool)
  (num_active : nat) (it : list A)
  : option (list A * list bool * nat * list A) :=
  match iterators with
  | [] => Some ([], [], num_active, it)
  | shared :: rest =>
      let '(value, shared, num_active, it, stop) :=
        if shared then
          match it with
          | x :: it' => (x, true, num_active, it', false)
          | [] => (fillvalue, false, num_active - 1, [],
                   num_active - 1 =? 0)
          end
        else (fillvalue, false, num_active, it, false) in
      if stop then None
      else
        match zip_longest_round fillvalue rest num_active it with
        | Some (values, iterators, num_active, it) =>
            Some (value :: values, shared :: iterators, num_active, it)
        | None => None
        end
  end.

(** The loop [while True] of [zip_longest]: the tuples it yields.  Every
    round but the last takes an item from the iterator, so [fuel] rounds are
    enough when [fuel] exceeds the number of items. *)
Fixpoint zip_longest_loop (fuel : nat) (fillvalue : A) (iterators : list bool)
  (num_active : nat) (it : list A) : list (list A) :=
  match fuel with
  | 0 => []
  | S fuel' =>
      match zip_longest_round fillvalue iterators num_active it with
      | None => []
      | Some (values, iterators, num_active, it) =>
          values :: zip_longest_loop fuel' fillvalue iterators num_active it
      end
  end.

(** [grouper(iterable, n, fillvalue)]: [zip_longest] over [n] references to
    the one iterator [iter(iterable)]; without any iterator [zip_longest]
    yields nothing. *)
Definition grouper (iterable : list A) (n : nat) (fillvalue : A)
  : list (list A) :=
  if n =? 0 then []
  else zip_longest_loop (S (length iterable)) fillvalue (repeat true n) n
                        iterable.

(** [pairwise(iterable)]: [tee] gives two iterators over the items, [next]
    takes the first item off the second one (if there is one), and [zip]
    pairs what both still give. *)
Definition pairwise (iterable : list A) : list (A * A) :=
  let '(a, b) := (iterable, iterable) in
  let b := tl b in
  zip a b.

End Iterators.

(** ** Exceptions outside the parser

    The functions that read a table or rename keys raise two exceptions more
    than the parser: [KeyError] and [AttributeError]; [Exn] holds an
    exception of the parser's type. *)

Inductive error : Type :=
| KeyError (key : str)
| AttributeError
| Exn (e : exn).

Inductive outcome (A : Type) : Type :=
| Return (a : A)
| Throw (e : error).
Arguments Return {A} a.
Arguments Throw {A} e.

Definition obind {A B : Type} (r : outcome A) (k : A -> outcome B)
  : outcome B :=
  match r with
  | Return a => k a
  | Throw e => Throw e
  end.

Notation "x <~ r ;; k" := (obind r (fun x => k))
  (at level 61, r at next level, right associativity).

(** A call whose exceptions are passed on. *)
Definition lift {A : Type} (r : result A) : outcome A :=
  match r with
  | Ok a => Return a
  | Raise e => Throw (Exn e)
  end.

Fixpoint omapM {A B : Type} (f : A -> outcome B) (l : list A)
  : outcome (list B) :=
  match l with
  | [] => Return []
  | a :: l' => b <~ f a ;; bs <~ omapM f l' ;; Return (b :: bs)
  end.

(** ** Dictionaries

    A [dict] with string keys keeps its items in the order in which the keys
    were first set. *)

Definition dict (V : Type) : Type := list (str * V).

(** [d[k] = v]. *)
Fixpoint dict_set {V : Type} (d : dict V) (k : str) (v : V) : dict V :=
  match d with
  | [] => [(k, v)]
  | (k', v') :: d' =>
      if PyStr.eqb k' k then (k, v) :: d' else (k', v') :: dict_set d' k v
  end.

(** [d[k]], [None] for a [KeyError]. *)
Fixpoint dict_get {V : Type} (d : dict V) (k : str) : option V :=
  match d with
  | [] => None
  | (k', v') :: d' => if PyStr.eqb k' k then Some v' else dict_get d' k
  end.

(** ** The table of an ability *)

(** An element of a page as the library gives it: its [.text] and its
    markup, [str(element)]. *)
Record Tag : Type := mkTag {
  tag_text : str;
  tag_markup : str
}.

(** The values of the dictionary that [_parse_html_table] returns: a text,
    an [Attribute] or the list of attributes of a leveling. *)
Inductive field : Type :=
| FStr (s : str)
| FAttribute (a : Attribute)
| FLeveling (l : list Attribute).

(** The first loop of [_parse_html_table], over
    [enumerate(grouper(table, 3))]: [rows] are the tuples still to come, [i]
    the index of the first of them.  A tuple is unpacked into three names;
    the cells of an incomplete last tuple are [None]. *)
Fixpoint table_rows (rows : list (list (option Tag))) (i : nat)
  (exclude_parameters : list str) (data : dict Tag) : outcome (dict Tag) :=
  match rows with
  | [] => Return data
  | [parameter; value; desc] :: rows' =>
      match value with
      | None => table_rows rows' (S i) exclude_parameters data
      | Some value =>
          parameter <~
            (if i =? 0 then Return (py "name")
             else match parameter with
                  | Some parameter => Return (PyStr.strip (tag_text parameter))
                  | None => Throw AttributeError
                  end) ;;
          let text := PyStr.strip (tag_text value) in
          let data :=
            if negb (PyStr.eqb text [])
               && negb (existsb (PyStr.eqb parameter) exclude_parameters)
            then dict_set data parameter value
            else data in
          table_rows rows' (S i) exclude_parameters data
      end
  | _ :: _ => Throw (Exn ValueError)
  end.

Section Table.

Variable html_text : str -> str.

(** [Attribute.from_string(parameter, parsed)] as a value of the table. *)
Definition attribute_field (parameter parsed : str) : outcome field :=
  a <~ lift (from_string parameter parsed) ;; Return (FAttribute a).

(** The body of the second loop of [_parse_html_table]: the value that
    replaces the cell [value] of the key [parameter]. *)
Definition table_value (skill parameter : str) (value : Tag) : outcome field :=
  if PyStr.startswith parameter (py "leveling")
     && existsb (PyStr.eqb skill) [py "Q"; py "W"; py "E"; py "R"]
  then
    match _parse_leveling html_text (tag_markup value) skill with
    | Ok leveling => Return (FLeveling leveling)
    | Raise (UnparsableLeveling _) => Return (FStr (PyStr.strip (tag_text value)))
    | Raise e => Throw (Exn e)
    end
  else if PyStr.eqb parameter (py "cooldown") then
    let parsed := _preparse_format html_text (tag_markup value) in
    if PyStr.contains parsed (py "(based on level)")
       && PyStr.contains parsed (py " / ")
    then attribute_field parameter
           (PyStr.strip (PyStr.replace parsed (py "(based on level)") []))
    else if PyStr.contains parsed (py "(based on  Phenomenal Evil stacks)")
    then Return (FStr parsed)
    else attribute_field parameter parsed
  else if PyStr.eqb parameter (py "cost") then
    let parsed := _preparse_format html_text (tag_markup value) in
    if PyStr.contains parsed (py "10 Moonlight + 60")
    then Return (FStr parsed)
    else attribute_field parameter parsed
  else Return (FStr (PyStr.strip (tag_text value))).

(** [_parse_html_table(table, exclude_parameters)].  The second loop assigns
    [data[parameter]] in every iteration, so it replaces the value of every
    key and keeps the keys and their order. *)
Definition _parse_html_table (table : list Tag)
  (exclude_parameters : list str) : outcome (dict field) :=
  data <~ table_rows (grouper (map Some table) 3 None) 0
                     exclude_parameters [] ;;
  match dict_get data (py "skill") with
  | None => Throw (KeyError (py "skill"))
  | Some cell =>
      let skill := PyStr.strip (tag_text cell) in
      omapM (fun '(parameter, value) =>
               value <~ table_value skill parameter value ;;
               Return (parameter, value))
            data
  end.

(** The fields that [_pull_champion_ability] leaves out. *)
Definition exclude_parameters : list str :=
  [ py "callforhelp"; py "flavorsound"; py "video"; py "video2"; py "yvideo";
    py "yvideo2"; py "flavor sound"; py "video 2"; py "YouTube video";
    py "YouTube video 2"; py "Not applicable to be stolen."; py "Stealable";
    py "All maps"; py "15"; py "30"; py "45"; py "55"; py "60"; py "75";
    py "90"; py "100"; py "145"; py "190"; py "235"; py "280"; py "325";
    py "Chimes"; py "3:20"; py "Meep limit increased to 2."; py "9:10";
    py "Slow increased to 35%."; py "15:50";
    py "Recharge time reduced to 6 seconds."; py "21:40";
    py "Recharge time reduced to 5 seconds."; py "28:20";
    py "Recharge time reduced to 4 seconds."; py "34:10";
    py "Slow increased to 75%."; py "40:50"; py "Meep limit increased to 9.";
    py "Displays additional information with effect table to the right.";
    py "25"; py "80"; py "400"; py "650"; py "800"; py "900"; py "950";
    py "1000"; py "1200"; py "2100"; py "2500"; py "2600"; py "2750";
    py "3000"; py "3733"; py "Abyssal Mask Abyssal Mask"; py "All maps";
    py "Black Cleaver Black Cleaver"; py "32.1";
    py "Catalyst of Aeons Catalyst of Aeons"; py "21.4";
    py "Dead Man's Plate Dead Man's Plate"; py "13.7";
    py "Doran's Shield Doran's Shield"; py "Summoner's Rift"; py "78.2";
    py "Frostfang Frostfang"; py "Guardian's Hammer Guardian's Hammer";
    py "Howling Abyss"; py "10.7"; py "Harrowing Crescent Harrowing Crescent";
    py "14.3"; py "Infernal Mask Infernal Mask"; py "29.3";
    py "Knight's Vow Knight's Vow"; py "Oblivion Orb Oblivion Orb"; py "99.3";
    py "Phage Phage"; py "28.6"; py "Relic Shield Relic Shield";
    py "Rod of Ages (Quick Charge) Rod of Ages (Quick Charge)";
    py "Rylai's Crystal Scepter Rylai's Crystal Scepter";
    py "Shurelya's Reverie Shurelya's Reverie"; py "5.7";
    py "Spellthief's Edge Spellthief's Edge";
    py "Sterak's Gage Sterak's Gage"; py "30.4"; py "Thornmail Thornmail";
    py "72.1"; py "Trinity Fusion Trinity Fusion"; py "57.1";
    py "Mercurial Scimitar"; py "Randuin's Omen"; py "Hextech Protobelt-01";
    py "Youmuu's Ghostblade"; py "Black Mist Scythe";
    py "Runesteel Spaulders"; py "Edge of Night"; py "Targon's Buckler";
    py "Pauldrons of Whiterock" ].

(** [strip_table.index(x)], [None] for a [ValueError]. *)
Fixpoint list_index (l : list str) (x : str) : option nat :=
  match l with
  | [] => None
  | y :: l' => if PyStr.eqb y x then Some 0 else option_map S (list_index l' x)
  end.

(** The statements of [_pull_champion_ability] that follow the download:
    [table] holds the [th] and [td] elements of the page. *)
Definition _pull_champion_ability (table : list Tag) : outcome (dict field) :=
  let strip_table := map (fun item => PyStr.strip (tag_text item)) table in
  match list_index strip_table (py "Parameter") with
  | None => Throw (Exn ValueError)
  | Some i =>
      let start := i + 3 in
      _parse_html_table (skipn start table) exclude_parameters
  end.

End Table.

(** ** The data table of the champions *)

(** The double quote. *)
Definition dquote : ascii := ascii_of_nat 34.

(** The markup of the keyword [return] in the highlighted source of the
    module, as [pull_all_champion_stats] writes it. *)
Definition return_span : str :=
  py "<span class=" ++ dquote :: py "kw1" ++ dquote :: py ">return</span>".

(** The loop that sets [start]: the index of the last span that is the
    keyword [return], [None] when there is none. *)
Fixpoint find_start (spans : list Tag) (i : nat) (start : option nat)
  : option nat :=
  match spans with
  | [] => start
  | span :: spans' =>
      find_start spans' (S i)
                 (if PyStr.eqb (tag_markup span) return_span then Some i
                  else start)
  end.

(** [spans[start:]]; the slice from [None] is the whole list. *)
Definition slice_from_start (spans : list Tag) (start : option nat)
  : list Tag :=
  match start with
  | Some i => skipn i spans
  | None => spans
  end.

(** The loop that collects the text of the table: [opened] and [closed] are
    the counts [brackets["{"]] and [brackets["}"]]. *)
Fixpoint collect_braces (spans : list Tag) (opened closed : nat) (data : str)
  : str :=
  match spans with
  | [] => data
  | span :: spans' =>
      let text := tag_text span in
      let opened := if PyStr.eqb text (py "{") then S opened else opened in
      let closed := if PyStr.eqb text (py "}") then S closed else closed in
      let data := if negb (opened =? 0) then data ++ text else data in
      if (opened =? closed) && (0 <? opened) then data
      else collect_braces spans' opened closed data
  end.

(** The replacements that turn the Lua table into a Python expression. *)
Definition reformat (data : str) : str :=
  let data := PyStr.replace data (py "=") (py ":") in
  let data := PyStr.replace data (py "[" ++ [dquote]) [dquote] in
  let data := PyStr.replace data (dquote :: py "]") [dquote] in
  let data := PyStr.replace data (py "[1]") (py "1") in
  let data := PyStr.replace data (py "[2]") (py "2") in
  let data := PyStr.replace data (py "[3]") (py "3") in
  let data := PyStr.replace data (py "[4]") (py "4") in
  let data := PyStr.replace data (py "[5]") (py "5") in
  let data := PyStr.replace data (py "[6]") (py "6") in
  data.

(** The statements of [pull_all_champion_stats] between the download and
    [eval]: the text handed to [eval], from the [span] elements of the
    page. *)
Definition champion_data_source (spans : list Tag) : str :=
  let start := find_start spans 0 None in
  let spans := slice_from_start spans start in
  reformat (collect_braces spans 0 0 []).

(** ** Renaming the keys of the saved files *)

(** What [json.load] returns. *)
#[local] Unset Elimination Schemes.
Inductive json : Type :=
| JNull
| JBool (b : bool)
| JInt (z : Z)
| JFloat (f : float)
| JStr (s : str)
| JList (l : list json)
| JDict (d : list (str * json)).
#[local] Set Elimination Schemes.

(** The items of the dictionary literal [map] of [rename_keys], in the order
    of the source. *)
Definition key_map_items : list (str * str) :=
  [ (py "id", py "id"); (py "champion", py "champion");
    (py "skill", py "skill"); (py "name", py "name");
    (py "apiname", py "apiName"); (py "fullname", py "fullName");
    (py "nickname", py "nickname"); (py "title", py "title");
    (py "attack", py "attack"); (py "defense", py "defense");
    (py "magic", py "magic"); (py "difficulty", py "difficulty");
    (py "herotype", py "heroType"); (py "alttype", py "altType");
    (py "resource", py "resource"); (py "stats", py "stats");
    (py "hp_base", py "hpBase"); (py "hp_lvl", py "hpPerLevel");
    (py "mp_base", py "manaBase"); (py "mp_lvl", py "manaPerLevel");
    (py "arm_base", py "armorBase"); (py "arm_lvl", py "armorPerLevel");
    (py "mr_base", py "magicResistBase");
    (py "mr_lvl", py "magicResistPerLevel"); (py "hp5_base", py "hpPer5Base");
    (py "hp5_lvl", py "hpPer5PerLevel"); (py "mp5_base", py "manaPer5Base");
    (py "mp5_lvl", py "manaPer5PerLevel"); (py "dam_base", py "damageBase");
    (py "dam_lvl", py "damagePerLevel"); (py "as_base", py "attackSpeedBase");
    (py "as_lvl", py "attackSpeedPerLevel"); (py "crit_base", py "critBase");
    (py "crit_mod", py "critModifier");
    (py "missile_speed", py "missileSpeed");
    (py "attack_cast_time", py "attackCastTime");
    (py "attack_total_time", py "attackTotalTime");
    (py "windup_modifier", py "windupModifier");
    (py "urf_dmg_dealt", py "urfDmgDealt");
    (py "urf_dmg_taken", py "urfDmgTaken");
    (py "urf_healing", py "urfHealing");
    (py "urf_shielding", py "urfShielding");
    (py "aram_dmg_dealt", py "aramDmgDealt");
    (py "aram_dmg_taken", py "aramDmgTaken");
    (py "aram_healing", py "aramHealing");
    (py "aram_shielding", py "aramShielding"); (py "static", py "static");
    (py "icon", py "icon"); (py "gameplay_radius", py "gameplayRadius");
    (py "description", py "description");
    (py "description2", py "description2");
    (py "description3", py "description3"); (py "targeting", py "targeting");
    (py "affects", py "affects"); (py "damagetype", py "damageType");
    (py "spelleffects", py "spellEffects");
    (py "spellshield", py "spellshield"); (py "notes", py "notes");
    (py "range", py "range"); (py "range_lvl", py "rangePerLevel");
    (py "ms", py "movespeed");
    (py "acquisition_radius", py "acquisitionRadius");
    (py "selection_radius", py "selectionRadius");
    (py "pathing_radius", py "pathingRadius");
    (py "as_ratio", py "attackSpeedRatio");
    (py "attack_delay_offset", py "attackDelayOffset");
    (py "aram_dmg_taken", py "aramDamageTaken");
    (py "rangetype", py "rangeType"); (py "date", py "date");
    (py "patch", py "patch"); (py "changes", py "changes");
    (py "role", py "role"); (py "damage", py "damage");
    (py "toughness", py "toughness"); (py "control", py "control");
    (py "mobility", py "mobility"); (py "utility", py "utility");
    (py "style", py "style"); (py "adaptivetype", py "adaptiveType");
    (py "be", py "blueEssense"); (py "rp", py "rp");
    (py "skill_i", py "skillP"); (py "skill_q", py "skillQ");
    (py "skill_w", py "skillW"); (py "skill_e", py "skillE");
    (py "skill_r", py "skillR");
    (py "secondary attributes", py "secondaryAttributes") ].

(** The dictionary the literal builds: a key written twice keeps its place
    and takes the later value. *)
Definition key_map : dict str :=
  fold_left (fun d '(key, value) => dict_set d key value) key_map_items [].

(** [value == s] for a string [s]. *)
Definition json_is_str (value : json) (s : str) : bool :=
  match value with
  | JStr s' => PyStr.eqb s' s
  | _ => false
  end.

Section RenameLoop.

(** The recursive call. *)
Variable rename_keys : json -> outcome (dict json).

(** The value that [rename_keys] stores for an item: the statements of the
    loop's body before the key is looked up.  A value that one of the first
    two branches has replaced is a list or a string, so that the test
    [isinstance(value, dict)] can only succeed for a value left as it
    was. *)
Definition rename_value (key : str) (value : json) : outcome json :=
  if PyStr.startswith key (py "skill_") then
    match value with
    | JDict d => Return (JList (map snd d))
    | _ => Throw AttributeError
    end
  else if PyStr.eqb key (py "skill") && json_is_str value (py "I") then
    Return (JStr (py "P"))
  else
    match value with
    | JDict _ => d <~ rename_keys value ;; Return (JDict d)
    | _ => Return value
    end.

(** The loop [for key, value in j.items()]. *)
Fixpoint rename_loop (items : list (str * json)) (new : dict json)
  : outcome (dict json) :=
  match items with
  | [] => Return new
  | (key, value) :: items' =>
      value <~ rename_value key value ;;
      match dict_get key_map key with
      | Some new_key => rename_loop items' (dict_set new new_key value)
      | None => Throw (KeyError key)
      end
  end.

End RenameLoop.

Fixpoint rename_keys (j : json) : outcome (dict json) :=
  match j with
  | JDict items => rename_loop rename_keys items []
  | _ => Throw AttributeError
  end.

(** ** Notions used in the statements *)




(** The sub-fragments of the literal-list sub-case: the statements of
    [_parse_flat] from the removal of enclosing parentheses to the choice of
    [split]. *)
Definition flat_sub_fragments (flat : str) (num_levels : nat) : list str :=
  let flat :=
    if PyStr.startswith flat (py "(") && PyStr.endswith flat (py ")")
    then PyStr.strip (PyStr.slice_1_m1 flat)
    else flat in
  if PyStr.contains flat (py " / ")
  then PyStr.split flat (py " / ")
  else repeat flat num_levels.

(** The texts [ms] occur in [s] one after the other, without overlap. *)
Fixpoint occur_in_order (ms : list str) (s : str) : Prop :=
  match ms with
  | [] => True
  | m :: ms' => exists a b : str, s = a ++ m ++ b /\ occur_in_order ms' b
  end.

(** A pattern whose reported text is the whole match, which is not empty. *)
Definition whole_match (re : Re.pattern) : Prop :=
  forall (s g : str) (n : nat),
    re s = Some (g, n) -> n = length g /\ 1 <= n /\ exists t, s = g ++ t.

(** [values] and [units] of a modifier are parallel lists. *)
Definition parallel (m : AttributeModifier) : Prop :=
  length (values m) = length (units m).

(** The fragment a construction path splits: the text inside enclosing
    parentheses, stripped, or the text itself. *)
Definition unwrap (fragment : str) : str :=
  if PyStr.startswith fragment (py "(") && PyStr.endswith fragment (py ")")
  then PyStr.strip (PyStr.slice_1_m1 fragment)
  else fragment.

(** The number of positions of a fragment: one more than the separators
    [" / "] in it, or [num_levels] when there is none. *)
Definition positions (fragment : str) (num_levels : nat) : nat :=
  if PyStr.contains fragment (py " / ")
  then S (PyStr.count fragment (py " / "))
  else num_levels.

(** The statements of [_match_and_split] from [findall] to
    [splits.append(string)]: the spans as the loop cuts them. *)
Definition cut_spans (string : str) (regex : Re.pattern) : result (list str) :=
  let matches := map PyStr.slice_to_m1 (Re.findall regex string) in
  '(string, splits) <-
    match matches with
    | [] => Ok (string, [])
    | m0 :: ms => split_loop m0 ms string []
    end ;;
  Ok (splits ++ [string]).

(** The exceptions that a fragment can make the parser raise. *)
Definition fragment_error (e : exn) : Prop :=
  e = AssertionError \/ e = SyntaxError \/ e = OverflowError.

(** A value is a number when it is not a string. *)
Definition is_number (v : pyval) : Prop :=
  match v with
  | PStr _ => False
  | _ => True
  end.


(** The key that the first loop of [_parse_html_table] gives the row of
    index [i]: ["name"] for the first row, the stripped text of the row's
    first cell for another row. *)
Definition row_key (table : list Tag) (i : nat) : str :=
  if i =? 0 then py "name"
  else PyStr.strip (tag_text (nth (3 * i) table (mkTag [] []))).

(** The row of index [i] has the second cell [value], and the loop keeps
    it: the cell has text and the key of the row is not excluded. *)
Definition row_kept (table : list Tag) (exclude_parameters : list str)
  (i : nat) (value : Tag) : Prop :=
  nth_error table (3 * i + 1) = Some value
  /\ PyStr.strip (tag_text value) <> []
  /\ ~ In (row_key table i) exclude_parameters.

(** The entries of a dictionary filled from the rows below index [n]: one
    entry for every key of a kept row, holding the cell of the last kept row
    with that key. *)
Definition rows_entries (table : list Tag) (exclude_parameters : list str)
  (n : nat) (data : dict Tag) : Prop :=
  NoDup (map fst data)
  /\ (forall k v,
         In (k, v) data
         <-> exists i,
               i < n /\ row_kept table exclude_parameters i v
               /\ k = row_key table i
               /\ forall j v', i < j < n ->
                               row_kept table exclude_parameters j v' ->
                               row_key table j <> k)
  /\ (forall i v, i < n -> row_kept table exclude_parameters i v ->
                  In (row_key table i) (map fst data)).

(** A small table: the name row, the skill, an excluded row, a row without
    text and the cooldown; the last row is incomplete. *)
Definition example_table : list Tag :=
  [ mkTag (py "1") (py "<td>1</td>");
    mkTag (py " Disintegrate ") (py "<td> Disintegrate </td>");
    mkTag (py "name of the ability") (py "<td>name of the ability</td>");
    mkTag (py "skill") (py "<td>skill</td>");
    mkTag (py "Q") (py "<td>Q</td>");
    mkTag [] (py "<td></td>");
    mkTag (py "video") (py "<td>video</td>");
    mkTag (py "Annie Q") (py "<td>Annie Q</td>");
    mkTag [] (py "<td></td>");
    mkTag (py "description2") (py "<td>description2</td>");
    mkTag (py " ") (py "<td> </td>");
    mkTag [] (py "<td></td>");
    mkTag (py "cooldown") (py "<td>cooldown</td>");
    mkTag (py "4") (py "4") ].

(** The dictionary that [_parse_html_table] reads from [example_table]. *)
Definition example_data : dict field :=
  [ (py "name", FStr (py "Disintegrate"));
    (py "skill", FStr (py "Q"));
    (py "cooldown",
     FAttribute (mkAttribute (py "cooldown")
                   [mkAttributeModifier (py "+") (repeat (PInt 4) 5)
                                        (repeat [] 5)])) ].

(** A span that is an opening or a closing brace. *)
Definition is_brace (span : Tag) : bool :=
  PyStr.eqb (tag_text span) (py "{") || PyStr.eqb (tag_text span) (py "}").

(** [closes depth block]: read at nesting depth [depth], the spans of
    [block] stay inside the braces up to the last one, which closes the
    outermost brace. *)
Fixpoint closes (depth : nat) (block : list Tag) : bool :=
  match block with
  | [] => false
  | span :: block' =>
      if PyStr.eqb (tag_text span) (py "{") then closes (S depth) block'
      else if PyStr.eqb (tag_text span) (py "}") then
        match depth with
        | 0 => false
        | 1 => match block' with [] => true | _ :: _ => false end
        | S depth' => closes depth' block'
        end
      else match depth with
           | 0 => false
           | _ => closes depth block'
           end
  end.

(** The spans of a small module source: [return { ["Aatrox"] = { ["id"] =
    266 } }], with a comment behind it. *)
Definition example_group : list Tag :=
  [ mkTag (py "[" ++ dquote :: py "Aatrox" ++ dquote :: py "]")
          (py "<span>Aatrox</span>");
    mkTag (py "=") (py "<span>=</span>");
    mkTag (py "{") (py "<span>{</span>");
    mkTag (py "[" ++ dquote :: py "id" ++ dquote :: py "]")
          (py "<span>id</span>");
    mkTag (py "=") (py "<span>=</span>");
    mkTag (py "266") (py "<span>266</span>");
    mkTag (py "}") (py "<span>}</span>");
    mkTag (py "}") (py "<span>}</span>") ].

(** [isinstance(value, dict)]. *)
Definition is_dict (value : json) : bool :=
  match value with
  | JDict _ => true
  | _ => false
  end.

(** A champion file in small: a number, the abilities of one skill and the
    statistics. *)
Definition example_champion : list (str * json) :=
  [ (py "id", JInt 1);
    (py "skill_q",
     JDict [(py "Disintegrate",
             JDict [(py "damagetype", JStr (py "Magic"));
                    (py "unknown key", JNull)])]);
    (py "stats", JDict [(py "hp_base", JInt 524)]) ].

(** [example_champion] with its keys renamed. *)
Definition example_renamed : dict json :=
  [ (py "id", JInt 1);
    (py "skillQ",
     JList [JDict [(py "damagetype", JStr (py "Magic"));
                   (py "unknown key", JNull)]]);
    (py "stats", JDict [(py "hpBase", JInt 524)]) ].

(** * Properties *)

(** ** The operations on examples *)

Example findall_rnumber_example :
  Re.findall Re.rnumber (py "4 / 5.5 / 7 / 8.5 / 10% (max 3.)")
  = [py "4"; py "5.5"; py "7"; py "8.5"; py "10"; py "3."].
Proof. reflexivity. Qed.

Example findall_rscaling_example :
  Re.findall Re.rscaling (py "Damage: 10 (+ 60% AP) (- 5% AD) (+ 1) x (+)) y")
  = [py "(+ 60% AP)"; py "(+ 1)"; py "(+))"].
Proof. reflexivity. Qed.

Example findall_rflat_example :
  Re.findall Re.rflat (py "Damage: 10 / 20: x") = [py "10 / 20: x"].
Proof. reflexivity. Qed.

Example findall_rattribute_example :
  Re.findall Re.rattribute (py "Magic Damage: 10 Cooldown: 5 (x: 2)")
  = [py "Magic Damage:"; py "10 Cooldown:"; py "x:"].
Proof. reflexivity. Qed.

Example eval_examples :
  PyNum.eval (py "60") = Ok (PInt 60)
  /\ PyNum.eval (py "00") = Ok (PInt 0)
  /\ PyNum.eval (py "007") = Raise SyntaxError
  /\ PyNum.eval (py "0.1") = Ok (PFloat 0x1.999999999999ap-4)
  /\ PyNum.eval (py "22.5") = Ok (PFloat 22.5)
  /\ PyNum.eval (py "2.86") = Ok (PFloat 0x1.6e147ae147ae1p+1)
  /\ PyNum.eval (py "3.") = Ok (PFloat 3)
  /\ PyNum.eval (py "0.000001") = Ok (PFloat 0x1.0c6f7a0b5ed8dp-20)
  /\ PyNum.eval (py "123456789012345678901234567890.5")
     = Ok (PFloat 0x1.8ee90ff6c373ep+96).
Proof. vm_compute. repeat split. Qed.

(** ** The [result] monad *)

Lemma bind_Ok {A B : Type} (r : result A) (k : A -> result B) (b : B) :
  bind r k = Ok b <-> exists a, r = Ok a /\ k a = Ok b.
Proof.
  destruct r as [a|e]; simpl; split.
  - intro H. exists a. auto.
  - intros [a' [Ha Hk]]. inversion Ha. subst. exact Hk.
  - discriminate.
  - intros [a' [Ha _]]. discriminate.
Qed.

Lemma assert_Ok (b : bool) (u : unit) : assert b = Ok u <-> b = true.
Proof.
  destruct b, u; simpl; split; intro H; try reflexivity; discriminate.
Qed.

(** Splits a hypothesis [bind r k = Ok b] into its two steps. *)
Ltac inv_bind H :=
  let a := fresh "a" in
  let Ha := fresh "Ha" in
  apply bind_Ok in H; destruct H as [a [Ha H]].

Lemma mapM_length {A B : Type} (f : A -> result B) (l : list A) (bs : list B) :
  mapM f l = Ok bs -> length bs = length l.
Proof.
  revert bs. induction l as [|a l IH]; simpl; intros bs H.
  - inversion H. reflexivity.
  - inv_bind H. inv_bind H. inversion H. simpl. f_equal. apply IH. assumption.
Qed.

Lemma mapM_Forall2 {A B : Type} (f : A -> result B) (l : list A) (bs : list B) :
  mapM f l = Ok bs <-> Forall2 (fun a b => f a = Ok b) l bs.
Proof.
  revert bs. induction l as [|a l IH]; simpl; intros bs.
  - split; intro H.
    + inversion H. constructor.
    + inversion H. reflexivity.
  - split; intro H.
    + inv_bind H. inv_bind H. inversion H. subst. constructor.
      * assumption.
      * apply IH. assumption.
    + inversion H as [|a' b l' bs' Hab Hrest]. subst.
      rewrite Hab. simpl. apply IH in Hrest. rewrite Hrest. reflexivity.
Qed.

Lemma mapM_nil_inv {A B : Type} (f : A -> result B) (l : list A) :
  mapM f l = Ok [] -> l = [].
Proof.
  intro H. apply mapM_length in H. destruct l; [reflexivity | discriminate].
Qed.

Lemma mapM_repeat {A B : Type} (f : A -> result B) (a : A) (b : B) (n : nat) :
  f a = Ok b -> mapM f (repeat a n) = Ok (repeat b n).
Proof.
  intro H. induction n as [|n IH]; simpl.
  - reflexivity.
  - rewrite H. simpl. rewrite IH. reflexivity.
Qed.

Lemma mapM_Raise_first {A B : Type} (f : A -> result B) (a : A) (l : list A)
  (e : exn) :
  f a = Raise e -> mapM f (a :: l) = Raise e.
Proof. intro H. simpl. rewrite H. reflexivity. Qed.

(** ** Python strings *)

Lemma ascii_eqb_eq (c d : ascii) : Ascii.eqb c d = true <-> c = d.
Proof. apply Ascii.eqb_eq. Qed.

Lemma pystr_eqb_eq (a b : str) : PyStr.eqb a b = true <-> a = b.
Proof.
  revert b. induction a as [|c a IH]; destruct b as [|d b]; simpl;
    try (split; [discriminate | discriminate]); try (split; reflexivity).
  rewrite andb_true_iff, Ascii.eqb_eq, IH. split.
  - intros [-> ->]. reflexivity.
  - intro H. inversion H. auto.
Qed.

Lemma pystr_eqb_refl (a : str) : PyStr.eqb a a = true.
Proof. apply pystr_eqb_eq. reflexivity. Qed.

Lemma pystr_eqb_neq (a b : str) : a <> b -> PyStr.eqb a b = false.
Proof.
  intro H. destruct (PyStr.eqb a b) eqn:E; [|reflexivity].
  apply pystr_eqb_eq in E. contradiction.
Qed.

Lemma startswith_app (s p : str) :
  PyStr.startswith s p = true <-> exists t, s = p ++ t.
Proof.
  revert s. induction p as [|c p IH]; intros s; simpl.
  - split; [intros _; exists s; reflexivity | reflexivity].
  - destruct s as [|d s].
    + split; [discriminate | intros [t H]; discriminate].
    + rewrite andb_true_iff, Ascii.eqb_eq, IH. split.
      * intros [-> [t ->]]. exists t. reflexivity.
      * intros [t H]. inversion H. split; [reflexivity | exists t; reflexivity].
Qed.

Lemma startswith_firstn (s p : str) :
  PyStr.startswith s p = true -> s = p ++ skipn (length p) s.
Proof.
  intro H. apply startswith_app in H. destruct H as [t ->].
  rewrite skipn_app, skipn_all, Nat.sub_diag. reflexivity.
Qed.

(** ** The sign of a flat modifier *)

(** C10. Every modifier that [_parse_flat] returns, in the interpolated and
    in the literal-list sub-case alike, has the sign ["+"], whatever the
    fragment's text is; in particular the sign is never ["-"]. *)
Theorem flat_sign_is_plus (flat : str) (num_levels : nat) (m : AttributeModifier) :
  _parse_flat flat num_levels = Ok m ->
  sign m = py "+" /\ PyStr.eqb (sign m) (py "-") = false.
Proof.
  intro H. assert (Hs : sign m = py "+").
  { unfold _parse_flat in H.
    destruct (PyStr.contains flat (py "(based on level)")
              || PyStr.contains flat (py "(based on casts)")).
    - inv_bind H. destruct a as [unit flat']. simpl in H.
      inv_bind H.
      destruct (Re.findall Re.rnumber flat') as [|v0 [|v1 vs]];
        try discriminate.
      inv_bind H. inv_bind H. inv_bind H. inversion H. reflexivity.
    - inv_bind H. inv_bind H. inversion H. reflexivity. }
  split; [exact Hs | rewrite Hs; reflexivity].
Qed.

Lemma flat_sign_is_plus_witness :
  _parse_flat (py "50% / 60% / 70") 5
  = Ok (mkAttributeModifier (py "+") [PInt 50; PInt 60; PInt 70]
                            [py "%"; py "%"; py "%"])
  /\ sign (mkAttributeModifier (py "+") [PInt 50; PInt 60; PInt 70]
                               [py "%"; py "%"; py "%"]) = py "+"
  /\ PyStr.eqb (sign (mkAttributeModifier (py "+") [PInt 50; PInt 60; PInt 70]
                                          [py "%"; py "%"; py "%"]))
               (py "-") = false.
Proof.
  split; [reflexivity|].
  apply (flat_sign_is_plus (py "50% / 60% / 70") 5). reflexivity.
Defined.

(** ** The reduction of an ultimate's ranks *)

Lemma ranks_135_length5 {A : Type} (l : list A) (d : A) :
  length l = 5 -> ranks_135 l = [nth 0 l d; nth 2 l d; nth 4 l d].
Proof.
  destruct l as [|x0 [|x1 [|x2 [|x3 [|x4 [|x5 l]]]]]]; simpl; intro H;
    try discriminate. reflexivity.
Qed.

Lemma reduce_modifier_values (m : AttributeModifier) :
  values (reduce_modifier m)
  = if length (values m) =? 5 then ranks_135 (values m) else values m.
Proof. reflexivity. Qed.

Lemma reduce_modifier_units (m : AttributeModifier) :
  units (reduce_modifier m)
  = if length (units m) =? 5 then ranks_135 (units m) else units m.
Proof. reflexivity. Qed.

Lemma reduce_list_idempotent {A : Type} (l : list A) :
  let r := if length l =? 5 then ranks_135 l else l in
  (if length r =? 5 then ranks_135 r else r) = r.
Proof.
  simpl. destruct (length l =? 5) eqn:E.
  - apply Nat.eqb_eq in E.
    destruct l as [|x0 [|x1 [|x2 [|x3 [|x4 [|x5 l]]]]]]; try discriminate.
    reflexivity.
  - rewrite E. reflexivity.
Qed.

Lemma reduce_modifier_idempotent (m : AttributeModifier) :
  reduce_modifier (reduce_modifier m) = reduce_modifier m.
Proof.
  destruct m as [sg vs us]. unfold reduce_modifier. simpl.
  pose proof (reduce_list_idempotent vs) as Hv.
  pose proof (reduce_list_idempotent us) as Hu.
  simpl in Hv, Hu. rewrite Hv, Hu. reflexivity.
Qed.

Lemma reduce_attribute_idempotent (a : Attribute) :
  reduce_attribute (reduce_attribute a) = reduce_attribute a.
Proof.
  destruct a as [name ms]. unfold reduce_attribute. simpl. f_equal.
  rewrite map_map. apply map_ext. apply reduce_modifier_idempotent.
Qed.

(** C2. With skill ["R"], [_parse_leveling] returns the attributes of
    [_split_leveling] with every modifier reduced: a [values] (respectively
    [units]) list of exactly 5 entries becomes the 3 entries at indices 0, 2
    and 4, a list of any other length is kept, name and sign are kept and no
    modifier is added or dropped; reducing a second time changes nothing. *)
Theorem ultimate_rank_reduction (html_text : str -> str) (leveling : str) :
  _parse_leveling html_text leveling (py "R")
  = (results <- _split_leveling (_preparse_format html_text leveling) ;;
     Ok (map reduce_attribute results))
  /\ (forall a : Attribute,
        attribute (reduce_attribute a) = attribute a
        /\ modifiers (reduce_attribute a) = map reduce_modifier (modifiers a))
  /\ (forall (m : AttributeModifier) (dv : pyval) (du : str),
        sign (reduce_modifier m) = sign m
        /\ (length (values m) = 5 ->
            values (reduce_modifier m)
            = [nth 0 (values m) dv; nth 2 (values m) dv; nth 4 (values m) dv])
        /\ (length (values m) <> 5 -> values (reduce_modifier m) = values m)
        /\ (length (units m) = 5 ->
            units (reduce_modifier m)
            = [nth 0 (units m) du; nth 2 (units m) du; nth 4 (units m) du])
        /\ (length (units m) <> 5 -> units (reduce_modifier m) = units m))
  /\ (forall a : Attribute,
        reduce_attribute (reduce_attribute a) = reduce_attribute a)
  /\ (forall m : AttributeModifier,
        reduce_modifier (reduce_modifier m) = reduce_modifier m).
Proof.
  split; [reflexivity|]. split; [intro a; split; reflexivity|].
  split; [|split; [apply reduce_attribute_idempotent
                  | apply reduce_modifier_idempotent]].
  intros m dv du. split; [reflexivity|].
  rewrite reduce_modifier_values, reduce_modifier_units.
  repeat split; intro H.
  - rewrite H. simpl. apply ranks_135_length5. exact H.
  - apply Nat.eqb_neq in H. rewrite H. reflexivity.
  - rewrite H. simpl. apply ranks_135_length5. exact H.
  - apply Nat.eqb_neq in H. rewrite H. reflexivity.
Qed.

Example ultimate_rank_reduction_example :
  _parse_leveling (fun markup => markup)
                  (py "Damage: 10 / 20 / 30 / 40 / 50 (+ 60% AP)") (py "R")
  = Ok [mkAttribute (py "Damage")
          [mkAttributeModifier (py "+") [PInt 60; PInt 60; PInt 60]
                               [py "% AP"; py "% AP"; py "% AP"];
           mkAttributeModifier (py "+") [PInt 10; PInt 30; PInt 50]
                               [[]; []; []]]].
Proof. reflexivity. Qed.

(** ** Text without a label *)

Lemma one_span_is_not_heimer (string : str) :
  (if list_eq_dec str_eq_dec [string] heimer_found then heimer_fixed
   else [string]) = [string].
Proof.
  destruct (list_eq_dec str_eq_dec [string] heimer_found) as [E|E].
  - unfold heimer_found in E. discriminate.
  - reflexivity.
Qed.

Lemma match_and_split_no_label (string : str) :
  Re.findall Re.rattribute string = [] ->
  string <> pounce -> string <> cougar ->
  _match_and_split string Re.rattribute = Ok ([], [string]).
Proof.
  intros Hno Hp Hc. unfold _match_and_split.
  rewrite (pystr_eqb_neq _ _ Hp), (pystr_eqb_neq _ _ Hc), Hno. simpl.
  rewrite one_span_is_not_heimer. reflexivity.
Qed.

Lemma remove_extras_absent (leveling : str) :
  Forall (fun removal => PyStr.contains leveling removal = false)
         leveling_removals ->
  remove_extras leveling = leveling.
Proof.
  unfold remove_extras. generalize leveling_removals as rs.
  induction rs as [|r rs IH]; simpl; intro H.
  - reflexivity.
  - inversion H as [|r' rs' Hr Hrs]. subst. rewrite Hr. apply IH. exact Hrs.
Qed.

(** C8. A non-empty string that holds no label and is neither of the two
    hard-coded strings is segmented into an empty label list and one span, the
    string itself; the pipeline pairs the labels with the spans, finds no
    pair, and returns the empty attribute list without raising, for every
    skill.  The string is the one handed to the segmenter, that is the text
    after the removal phrases were taken out; a text that holds none of them
    is handed over unchanged. *)
Theorem unlabelled_text_is_discarded (string : str) :
  string <> [] ->
  Re.findall Re.rattribute string = [] ->
  string <> pounce -> string <> cougar ->
  _match_and_split string Re.rattribute = Ok ([], [string])
  /\ (forall leveling : str,
        remove_extras leveling = string -> _split_leveling leveling = Ok [])
  /\ (Forall (fun removal => PyStr.contains string removal = false)
             leveling_removals ->
      _split_leveling string = Ok [])
  /\ (forall (html_text : str -> str) (leveling skill : str),
        remove_extras (_preparse_format html_text leveling) = string ->
        _parse_leveling html_text leveling skill = Ok []).
Proof.
  intros _ Hno Hp Hc.
  pose proof (match_and_split_no_label string Hno Hp Hc) as Hseg.
  assert (Hsplit : forall leveling : str,
            remove_extras leveling = string -> _split_leveling leveling = Ok []).
  { intros leveling E. unfold _split_leveling. rewrite E, Hseg. reflexivity. }
  split; [exact Hseg|]. split; [exact Hsplit|]. split.
  - intro Habs. apply Hsplit. apply remove_extras_absent. exact Habs.
  - intros html_text leveling skill E. unfold _parse_leveling.
    rewrite (Hsplit _ E). simpl. destruct (PyStr.eqb skill _); reflexivity.
Qed.

Lemma unlabelled_text_is_discarded_witness :
  _match_and_split (py "Scales with rank (no numbers)") Re.rattribute
  = Ok ([], [py "Scales with rank (no numbers)"])
  /\ _split_leveling (py "Scales with rank (no numbers)") = Ok []
  /\ _parse_leveling (fun markup => markup)
                     (py "Scales with rank (no numbers)") (py "Q") = Ok [].
Proof.
  assert (H : py "Scales with rank (no numbers)" <> []
              /\ Re.findall Re.rattribute (py "Scales with rank (no numbers)") = []
              /\ py "Scales with rank (no numbers)" <> pounce
              /\ py "Scales with rank (no numbers)" <> cougar).
  { repeat split; discriminate. }
  destruct H as [H1 [H2 [H3 H4]]].
  destruct (unlabelled_text_is_discarded _ H1 H2 H3 H4) as [Ha [Hb [_ Hd]]].
  split; [exact Ha|]. split; [apply Hb; reflexivity|].
  apply Hd. reflexivity.
Defined.

(** ** Scaling fragments and their sign *)

Lemma rscaling_starts_with_plus (s g : str) (n : nat) :
  Re.rscaling s = Some (g, n) -> exists t, g = py "(+" ++ t.
Proof.
  unfold Re.rscaling. destruct s as [|p [|q [|c t]]]; try discriminate.
  destruct (Ascii.eqb p "(") eqn:Ep; [|discriminate].
  destruct (Ascii.eqb q "+") eqn:Eq; [|discriminate].
  destruct (Re.dot c); [|discriminate]. simpl.
  destruct (Re.lazy_to_paren t) as [u|]; [|discriminate].
  intro H. inversion H. apply Ascii.eqb_eq in Ep, Eq. subst.
  exists (c :: u). reflexivity.
Qed.

Lemma findall_from_In (re : Re.pattern) (P : str -> Prop) :
  (forall s g n, re s = Some (g, n) -> P g) ->
  forall (s : str) (skip : nat) (g : str),
    In g (Re.findall_from re skip s) -> P g.
Proof.
  intros Hre s. induction s as [|c s IH]; simpl; intros skip g Hin.
  - contradiction.
  - destruct skip as [|k].
    + destruct (re (c :: s)) as [[g' n]|] eqn:E.
      * destruct Hin as [<-|Hin]; [eapply Hre; eassumption | eapply IH; eassumption].
      * eapply IH; eassumption.
    + eapply IH; eassumption.
Qed.

(** C7 (the code at its failing input). [_parse_scaling] builds a modifier
    with the sign ["-"] from a fragment that begins with that sign, but the
    pattern [rscaling] extracts only fragments that begin with ["(+"]: the
    fragment ["(- 10% AD)"] is not extracted from a span, stays in the
    remaining text, and [from_string] returns no modifier for it. *)
Theorem minus_scaling_is_not_extracted :
  _parse_scaling (py "(- 10% AD)") 5
  = Ok (mkAttributeModifier (py "-") (repeat (PInt 10) 5) (repeat (py "% AD") 5))
  /\ Re.findall Re.rscaling (py "(- 10% AD)") = []
  /\ from_string (py "Damage") (py "(- 10% AD)") = Ok (mkAttribute (py "Damage") [])
  /\ from_string (py "Damage") (py "Damage: 20 (- 10% AD)") = Raise AssertionError
  /\ from_string (py "Damage") (py "Damage: 20 (+ 10% AD)")
     = Ok (mkAttribute (py "Damage")
             [mkAttributeModifier (py "+") (repeat (PInt 10) 5) (repeat (py "% AD") 5);
              mkAttributeModifier (py "+") (repeat (PInt 20) 5) (repeat [] 5)])
  /\ (forall split scaling : str,
        In scaling (Re.findall Re.rscaling split) ->
        exists t, scaling = py "(+" ++ t).
Proof.
  repeat split; try reflexivity.
  intros split scaling Hin.
  apply (findall_from_In Re.rscaling (fun g => exists t, g = py "(+" ++ t))
    with (s := split) (skip := 0); [|exact Hin].
  intros s g n H. eapply rscaling_starts_with_plus. eassumption.
Qed.

(** ** Attributes without modifiers *)

Lemma split_from_not_nil (sep : str) (s : str) (skip : nat) :
  PyStr.split_from sep skip s <> [].
Proof.
  revert skip. induction s as [|c s IH]; simpl; intro skip.
  - discriminate.
  - destruct skip as [|k]; [|apply IH].
    destruct (PyStr.startswith (c :: s) sep); [discriminate|].
    destruct (PyStr.split_from sep 0 s); discriminate.
Qed.

Lemma split_not_nil (s sep : str) : PyStr.split s sep <> [].
Proof.
  unfold PyStr.split. destruct sep; [discriminate | apply split_from_not_nil].
Qed.

Lemma flat_map_split_nil (l : list str) (sep : str) :
  flat_map (fun x => PyStr.split (PyStr.strip x) sep) l = [] -> l = [].
Proof.
  destruct l as [|x l]; [reflexivity|]. simpl. intro H.
  apply app_eq_nil in H. destruct H as [H _].
  exfalso. exact (split_not_nil _ _ H).
Qed.

(** C1 (amended). For a label span without any numeric literal,
    [from_string] raises nothing and returns an [Attribute] whose modifiers
    list is empty exactly when the span holds no scaling fragment (no match
    of [rscaling]) and no flat fragment (no match of [rflat]). *)
Theorem no_number_empty_modifiers (name split : str) :
  Re.findall Re.rnumber split = [] ->
  (from_string name split = Ok (mkAttribute name [])
   <-> Re.findall Re.rscaling split = [] /\ Re.findall Re.rflat split = []).
Proof.
  intro Hnum. split.
  - intro H. unfold from_string in H. inv_bind H.
    remember (fold_left _ (Re.findall Re.rscaling split) split) as split' eqn:Es.
    inv_bind H. inversion H as [Hcat]. apply app_eq_nil in Hcat.
    destruct Hcat as [-> ->]. apply mapM_nil_inv in Ha.
    apply map_eq_nil in Ha. rewrite Ha in Es. simpl in Es. subst split'.
    split; [exact Ha|]. apply mapM_nil_inv in Ha0.
    destruct (flat_map _ (Re.findall Re.rflat split)) eqn:Ef; [|discriminate].
    apply flat_map_split_nil in Ef. exact Ef.
  - intros [Hs Hf]. unfold from_string. rewrite Hs. simpl. rewrite Hf. simpl.
    rewrite Hnum. simpl. rewrite !andb_false_r. reflexivity.
Qed.

Lemma no_number_empty_modifiers_witness :
  Re.findall Re.rnumber (py "scales with rank") = []
  /\ from_string (py "Damage") (py "scales with rank")
     = Ok (mkAttribute (py "Damage") []).
Proof.
  split; [reflexivity|].
  apply (no_number_empty_modifiers (py "Damage") (py "scales with rank"));
    [reflexivity | split; reflexivity].
Defined.

(** C1 (counterexample). The span ["scales with rank"] holds no numeric
    literal and no interpolation marker, and [from_string] returns an
    attribute with an empty modifiers list; so does the pipeline for the
    leveling text ["Bonus Damage:"]. *)
Lemma empty_modifiers_counterexample :
  Re.findall Re.rnumber (py "scales with rank") = []
  /\ PyStr.contains (py "scales with rank") (py "(based on level)") = false
  /\ PyStr.contains (py "scales with rank") (py "(based on casts)") = false
  /\ from_string (py "Damage") (py "scales with rank")
     = Ok (mkAttribute (py "Damage") [])
  /\ _split_leveling (py "Bonus Damage:")
     = Ok [mkAttribute (py "Bonus Damage") []].
Proof. repeat split. Qed.

(** ** Numeric literals of a sub-fragment *)

Lemma take_while_head (p : ascii -> bool) (s : str) (c : ascii) (t : str) :
  Re.take_while p s = c :: t -> p c = true /\ exists s', s = c :: s'.
Proof.
  destruct s as [|d s]; simpl; [discriminate|].
  destruct (p d) eqn:E; [|discriminate].
  intro H. inversion H. subst. split; [exact E | exists s; reflexivity].
Qed.

Lemma take_while_prefix (p : ascii -> bool) (s : str) :
  s = Re.take_while p s ++ skipn (length (Re.take_while p s)) s.
Proof.
  induction s as [|c s IH]; simpl; [reflexivity|].
  destruct (p c); simpl; [f_equal; exact IH | reflexivity].
Qed.

Lemma take_while_run (p : ascii -> bool) (u rest : str) :
  Forall (fun c => p c = true) u ->
  match rest with
  | [] => True
  | d :: _ => p d = false
  end ->
  Re.take_while p (u ++ rest) = u.
Proof.
  intros Hu Hrest. induction Hu as [|c u Hc _ IH]; simpl.
  - destruct rest as [|d rest]; [reflexivity|]. simpl. rewrite Hrest.
    reflexivity.
  - rewrite Hc, IH. reflexivity.
Qed.

Lemma take_while_Forall (p : ascii -> bool) (s : str) :
  Forall (fun c => p c = true) (Re.take_while p s).
Proof.
  induction s as [|c s IH]; simpl; [constructor|].
  destruct (p c) eqn:E; constructor; assumption.
Qed.

Lemma take_while_stop (p : ascii -> bool) (s : str) (d : ascii) (t : str) :
  skipn (length (Re.take_while p s)) s = d :: t -> p d = false.
Proof.
  induction s as [|c s IH]; simpl; [discriminate|].
  destruct (p c) eqn:E; simpl; intro H.
  - apply IH. exact H.
  - inversion H. subst. exact E.
Qed.

(** A match of [rnumber] is a non-empty prefix of the text, covers as many
    characters as it is long, and begins with a digit. *)
Lemma rnumber_match (s g : str) (n : nat) :
  Re.rnumber s = Some (g, n) ->
  n = length g /\ s = g ++ skipn n s
  /\ exists c t, g = c :: t /\ Re.isdigit c = true.
Proof.
  unfold Re.rnumber.
  pose proof (take_while_prefix Re.isdigit s) as Hds.
  destruct (Re.take_while Re.isdigit s) as [|d ds] eqn:E; [discriminate|].
  set (r := skipn (length (d :: ds)) s) in *.
  set (point := match r with
                | c :: _ => if Ascii.eqb c "." then [c] else []
                | [] => []
                end).
  assert (Hr : r = point ++ skipn (length point) r).
  { subst point. destruct r as [|c r']; [reflexivity|].
    destruct (Ascii.eqb c "."); reflexivity. }
  pose proof (take_while_prefix Re.isdigit (skipn (length point) r)) as Hfs.
  set (fs := Re.take_while Re.isdigit (skipn (length point) r)) in *.
  intro H. inversion H as [[Hg Hn]]. clear H.
  split; [reflexivity|]. split.
  - assert (Hk : skipn (S (length (ds ++ point ++ fs))) s
                 = skipn (length fs) (skipn (length point) r)).
    { subst r. rewrite !skipn_skipn. f_equal. simpl. rewrite !length_app. lia. }
    rewrite Hk. simpl. rewrite <- !app_assoc. rewrite <- Hfs, <- Hr. exact Hds.
  - apply take_while_head in E. destruct E as [Hd _].
    exists d, (ds ++ point ++ fs). split; [reflexivity | exact Hd].
Qed.

Lemma findall_from_skipn (re : Re.pattern) (s : str) (k : nat) :
  Re.findall_from re k s = Re.findall re (skipn k s).
Proof.
  revert k. induction s as [|c s IH]; intro k.
  - destruct k; reflexivity.
  - destruct k as [|k]; [reflexivity|]. simpl. apply IH.
Qed.

(** The first element of [findall] for a text that begins with a match. *)
Lemma findall_at_match (re : Re.pattern) (s g : str) (n : nat) :
  re s = Some (g, n) -> 1 <= n -> s <> [] ->
  Re.findall re s = g :: Re.findall re (skipn n s).
Proof.
  intros H Hn Hs. unfold Re.findall at 1. destruct s as [|c s].
  - contradiction.
  - simpl. rewrite H. f_equal. rewrite findall_from_skipn.
    destruct n as [|n]; [lia|]. simpl. rewrite Nat.sub_0_r. reflexivity.
Qed.

Lemma findall_rnumber_digit (s g : str) :
  In g (Re.findall Re.rnumber s) -> exists c t, g = c :: t /\ Re.isdigit c = true.
Proof.
  intro H. unfold Re.findall in H.
  apply (findall_from_In Re.rnumber
           (fun g => exists c t, g = c :: t /\ Re.isdigit c = true))
    with (s := s) (skip := 0); [|exact H].
  intros s' g' n Hm. apply rnumber_match in Hm. tauto.
Qed.

Lemma digit_is_not_space (c : ascii) :
  Re.isdigit c = true -> PyStr.isspace c = false.
Proof.
  unfold Re.isdigit, PyStr.isspace. intro H.
  apply andb_true_iff in H. destruct H as [H1 H2].
  apply Nat.leb_le in H1, H2.
  repeat rewrite orb_false_iff. repeat rewrite andb_false_iff.
  repeat rewrite Nat.leb_gt. repeat rewrite Nat.eqb_neq. lia.
Qed.

Lemma take_while_digit_cons (c : ascii) (s : str) :
  Re.isdigit c = true -> Re.take_while Re.isdigit (c :: s) <> [].
Proof. intro H. simpl. rewrite H. discriminate. Qed.

(** A text that begins with its first numeric literal has that literal as
    the match at its first character, and the literals that follow are those
    of the text behind it. *)
Lemma findall_rnumber_leading (value v : str) (rest : list str) :
  Re.findall Re.rnumber value = v :: rest ->
  PyStr.startswith value v = true ->
  Re.rnumber value = Some (v, length v)
  /\ Re.findall Re.rnumber (skipn (length v) value) = rest.
Proof.
  intros Hf Hs.
  assert (Hin : In v (Re.findall Re.rnumber value)) by (rewrite Hf; left; reflexivity).
  apply findall_rnumber_digit in Hin. destruct Hin as [c [t [-> Hc]]].
  apply startswith_app in Hs. destruct Hs as [u ->].
  destruct (Re.rnumber ((c :: t) ++ u)) as [[g n]|] eqn:E.
  - pose proof (rnumber_match _ _ _ E) as [Hn [_ [c' [t' [Hg _]]]]].
    assert (H1 : 1 <= n) by (rewrite Hn, Hg; simpl; lia).
    clear c' t' Hg.
    rewrite (findall_at_match _ _ _ _ E H1) in Hf by discriminate.
    inversion Hf as [[Hgv Hrest]]. subst g. subst n.
    split; reflexivity.
  - exfalso. unfold Re.rnumber in E. simpl in E. rewrite Hc in E. discriminate.
Qed.

Lemma lstrip_not_space (c : ascii) (s : str) :
  PyStr.isspace c = false -> PyStr.lstrip (c :: s) = c :: s.
Proof. intro H. simpl. rewrite H. reflexivity. Qed.

Lemma not_leading_after_lstrip (value v : str) (rest : list str) :
  Re.findall Re.rnumber value = v :: rest ->
  PyStr.startswith (PyStr.lstrip value) v = false ->
  PyStr.startswith value v = false.
Proof.
  intros Hf Hl. destruct (PyStr.startswith value v) eqn:Hs; [|reflexivity].
  assert (Hin : In v (Re.findall Re.rnumber value)) by (rewrite Hf; left; reflexivity).
  apply findall_rnumber_digit in Hin. destruct Hin as [c [t [-> Hc]]].
  pose proof Hs as Hs'. apply startswith_app in Hs'. destruct Hs' as [u ->].
  simpl app in Hl. rewrite lstrip_not_space in Hl by (apply digit_is_not_space; exact Hc).
  simpl app in Hs. rewrite Hs in Hl. discriminate.
Qed.

(** ** Extraction of one value *)

(** C6 (amended). The flat path fails with an [AssertionError] whenever the
    first numeric literal of a sub-fragment is not a prefix of it; leading
    whitespace is not skipped, so a literal that is not a prefix behind the
    leading whitespace is not a prefix either.  The scaling path fails in the
    same way unless the sub-fragment begins with ["[ "] followed by the
    literal, a form it accepts: the value is the literal and the unit is the
    text behind the first [length v] characters. *)
Theorem literal_must_lead (value v : str) (rest : list str) :
  Re.findall Re.rnumber value = v :: rest ->
  (PyStr.startswith (PyStr.lstrip value) v = false ->
   PyStr.startswith value v = false)
  /\ (PyStr.startswith value v = false ->
      flat_value value = Raise AssertionError
      /\ (PyStr.startswith value (py "[ " ++ v) = false ->
          scaling_value value = Raise AssertionError)
      /\ (PyStr.startswith value (py "[ " ++ v) = true ->
          scaling_value value
          = (n <- PyNum.eval v ;; Ok (n, PyStr.slice_from (length v) value)))).
Proof.
  intros Hf. split; [apply (not_leading_after_lstrip _ _ _ Hf)|].
  intro Hs. unfold flat_value, scaling_value. rewrite Hf, Hs. repeat split.
  - destruct rest; reflexivity.
  - intro Hb. rewrite Hb. reflexivity.
  - intro Hb. rewrite Hb. reflexivity.
Qed.

Lemma literal_must_lead_witness :
  flat_value (py "about 10% AP") = Raise AssertionError
  /\ scaling_value (py "about 10% AP") = Raise AssertionError
  /\ flat_value (py " 10% AP") = Raise AssertionError.
Proof.
  destruct (literal_must_lead (py "about 10% AP") (py "10") [] eq_refl)
    as [Hstrict Hfail].
  destruct (Hfail (Hstrict eq_refl)) as [Hflat [Hscal _]].
  destruct (literal_must_lead (py " 10% AP") (py "10") [] eq_refl)
    as [_ Hfail'].
  destruct (Hfail' eq_refl) as [Hflat' _].
  split; [exact Hflat|]. split; [apply Hscal; reflexivity | exact Hflat'].
Defined.

(** C6 (counterexample). The first literal of Vi's sub-fragment is ["1"],
    which is not a prefix of it, yet the scaling path extracts the value 1;
    the flat path rejects the same text. *)
Lemma bracket_prefix_counterexample :
  Re.findall Re.rnumber (py "[ 1% per 35 ][ 2.86% per 100 ]bonus AD")
  = [py "1"; py "35"; py "2.86"; py "100"]
  /\ PyStr.startswith
       (PyStr.lstrip (py "[ 1% per 35 ][ 2.86% per 100 ]bonus AD")) (py "1")
     = false
  /\ scaling_value (py "[ 1% per 35 ][ 2.86% per 100 ]bonus AD")
     = Ok (PInt 1, py " 1% per 35 ][ 2.86% per 100 ]bonus AD")
  /\ _parse_scaling (py "(+[ 1% per 35 ][ 2.86% per 100 ]bonus AD)") 5
     = Ok (mkAttributeModifier (py "+") (repeat (PInt 1) 5)
             (repeat (py " 1% per 35 ][ 2.86% per 100 ]bonus AD") 5))
  /\ flat_value (py "[ 1% per 35 ][ 2.86% per 100 ]bonus AD")
     = Raise AssertionError.
Proof. repeat split. Qed.

(** C9. A scaling sub-fragment that begins with its first numeric literal is
    accepted however many literals follow: the value is the first literal
    evaluated, the unit is the whole remainder of the sub-fragment, and the
    further literals are those of the unit.  The flat path accepts the same
    sub-fragment only when no further literal follows, and fails with an
    [AssertionError] otherwise. *)
Theorem scaling_takes_first_literal (value v : str) (rest : list str) (n : pyval) :
  Re.findall Re.rnumber value = v :: rest ->
  PyStr.startswith value v = true ->
  PyNum.eval v = Ok n ->
  exists unit : str,
    value = v ++ unit
    /\ Re.findall Re.rnumber unit = rest
    /\ scaling_value value = Ok (n, unit)
    /\ (rest = [] -> flat_value value = Ok (n, unit))
    /\ (rest <> [] -> flat_value value = Raise AssertionError).
Proof.
  intros Hf Hs He. exists (skipn (length v) value).
  destruct (findall_rnumber_leading _ _ _ Hf Hs) as [_ Hrest].
  split; [apply startswith_firstn; exact Hs|]. split; [exact Hrest|].
  unfold scaling_value, flat_value, PyStr.slice_from. rewrite Hf, Hs, He.
  repeat split.
  - intros ->. reflexivity.
  - intro Hne. destruct rest; [contradiction | reflexivity].
Qed.

Lemma scaling_takes_first_literal_witness :
  exists unit : str,
    py "0.5% per 100 AP" = py "0.5" ++ unit
    /\ Re.findall Re.rnumber unit = [py "100"]
    /\ scaling_value (py "0.5% per 100 AP") = Ok (PFloat 0.5, unit)
    /\ ([py "100"] = [] -> flat_value (py "0.5% per 100 AP") = Ok (PFloat 0.5, unit))
    /\ ([py "100"] <> [] -> flat_value (py "0.5% per 100 AP") = Raise AssertionError).
Proof.
  apply (scaling_takes_first_literal (py "0.5% per 100 AP") (py "0.5")
           [py "100"] (PFloat 0.5)); reflexivity.
Defined.

Example scaling_accepts_flat_rejects :
  _parse_scaling (py "(+ 0.5% per 100 AP)") 5
  = Ok (mkAttributeModifier (py "+") (repeat (PFloat 0.5) 5)
          (repeat (py "% per 100 AP") 5))
  /\ _parse_flat (py "0.5% per 100 AP") 5 = Raise AssertionError.
Proof. split; reflexivity. Qed.

(** ** The interpolated sub-case of the flat path *)




Lemma Forall2_nth {A B : Type} (R : A -> B -> Prop) (l : list A) (l' : list B)
  (da : A) (db : B) :
  Forall2 R l l' ->
  length l = length l'
  /\ forall i, i < length l -> R (nth i l da) (nth i l' db).
Proof.
  induction 1 as [|a b l l' Hab Hrest [IHlen IH]]; simpl.
  - split; [reflexivity | intros i Hi; lia].
  - split; [f_equal; exact IHlen|].
    intros [|i] Hi; [exact Hab | apply IH; lia].
Qed.

(** The 18 values of an interpolation: [values[i] = minn + i*delta] with
    [delta = (maxx - minn) / 17.0], each operation being Python's. *)
Lemma interpolate_values (minn maxx : pyval) (vs : list pyval) :
  interpolate minn maxx = Ok vs ->
  length vs = 18
  /\ exists d delta : pyval,
       PyNum.sub maxx minn = Ok d
       /\ PyNum.truediv d 17%float = Ok delta
       /\ forall i : nat, i < 18 ->
            exists p : pyval,
              PyNum.mul (PInt (Z.of_nat i)) delta = Ok p
              /\ PyNum.add minn p = Ok (nth i vs (PInt 0)).
Proof.
  unfold interpolate. intro H. inv_bind H. inv_bind H.
  apply mapM_Forall2 in H.
  destruct (Forall2_nth _ _ _ 0 (PInt 0) H) as [Hlen Hnth].
  rewrite length_seq in Hlen, Hnth. split; [symmetry; exact Hlen|].
  exists a, a0. split; [exact Ha|]. split; [exact Ha0|].
  intros i Hi. specialize (Hnth i Hi). rewrite seq_nth in Hnth by exact Hi.
  simpl in Hnth. inv_bind Hnth. exists a1. split; assumption.
Qed.



(** ** Units across positions *)

Lemma unique_units_In (us : list str) (u : str) :
  In u (unique_units us) <-> In u us /\ u <> [].
Proof.
  unfold unique_units. split.
  - intro H. apply in_remove in H. destruct H as [H Hne].
    apply nodup_In in H. split; assumption.
  - intros [H Hne]. apply in_in_remove; [exact Hne|].
    apply nodup_In. exact H.
Qed.

Lemma NoDup_remove_elt {A : Type} (dec : forall a b : A, {a = b} + {a <> b})
  (x : A) (l : list A) :
  NoDup l -> NoDup (remove dec x l).
Proof.
  induction 1 as [|a l Hnin Hnd IH]; simpl.
  - constructor.
  - destruct (dec x a); [exact IH|]. constructor; [|exact IH].
    intro Hin. apply in_remove in Hin. destruct Hin as [Hin _]. contradiction.
Qed.

Lemma unique_units_NoDup (us : list str) : NoDup (unique_units us).
Proof. apply NoDup_remove_elt. apply NoDup_nodup. Qed.

Lemma NoDup_all_equal {A : Type} (l : list A) (a : A) :
  NoDup l -> In a l -> (forall x, In x l -> x = a) -> l = [a].
Proof.
  intros Hnd Hin Hall. destruct l as [|x l]; [contradiction|].
  assert (x = a) by (apply Hall; left; reflexivity). subst x.
  destruct l as [|y l]; [reflexivity|].
  assert (y = a) by (apply Hall; right; left; reflexivity). subst y.
  inversion Hnd as [|? ? Hnin _]. exfalso. apply Hnin. left. reflexivity.
Qed.

Lemma two_distinct_length {A : Type} (l : list A) (a b : A) :
  In a l -> In b l -> a <> b -> 2 <= length l.
Proof.
  intros Ha Hb Hab. destruct l as [|x [|y l]]; simpl in *.
  - contradiction.
  - destruct Ha as [<-|[]], Hb as [<-|[]]. contradiction.
  - lia.
Qed.

Lemma parse_flat_literal_list (flat : str) (num_levels : nat)
  (raw : list (pyval * str)) :
  PyStr.contains flat (py "(based on level)") = false ->
  PyStr.contains flat (py "(based on casts)") = false ->
  mapM flat_value (flat_sub_fragments flat num_levels) = Ok raw ->
  _parse_flat flat num_levels
  = (units <-
       match unique_units (map snd raw) with
       | [] => Ok (map snd raw)
       | unit :: others =>
           _ <- assert (length (unit :: others) =? 1) ;;
           Ok (repeat unit (length (map snd raw)))
       end ;;
     Ok (mkAttributeModifier (py "+") (map fst raw) units)).
Proof.
  intros HL HC Hraw. unfold _parse_flat. rewrite HL, HC.
  unfold flat_sub_fragments in Hraw. simpl orb. cbv iota.
  rewrite Hraw. reflexivity.
Qed.

(** The unification of units in the literal-list sub-case of the flat path:
    when no position has a unit the units are kept, when the non-empty units
    are all the same unit that unit is repeated at every position, and two
    distinct non-empty units make the parse fail. *)
Theorem flat_units_unified (flat : str) (num_levels : nat)
  (raw : list (pyval * str)) :
  PyStr.contains flat (py "(based on level)") = false ->
  PyStr.contains flat (py "(based on casts)") = false ->
  mapM flat_value (flat_sub_fragments flat num_levels) = Ok raw ->
  ((forall u, In u (map snd raw) -> u = []) ->
   _parse_flat flat num_levels
   = Ok (mkAttributeModifier (py "+") (map fst raw) (map snd raw)))
  /\ (forall unit : str,
        unit <> [] -> In unit (map snd raw) ->
        (forall u, In u (map snd raw) -> u = [] \/ u = unit) ->
        _parse_flat flat num_levels
        = Ok (mkAttributeModifier (py "+") (map fst raw)
                (repeat unit (length raw))))
  /\ (forall u1 u2 : str,
        In u1 (map snd raw) -> In u2 (map snd raw) ->
        u1 <> [] -> u2 <> [] -> u1 <> u2 ->
        _parse_flat flat num_levels = Raise AssertionError).
Proof.
  intros HL HC Hraw.
  rewrite (parse_flat_literal_list flat num_levels raw HL HC Hraw).
  split; [|split].
  - intro Hall. destruct (unique_units (map snd raw)) as [|u others] eqn:E.
    + reflexivity.
    + assert (Hin : In u (unique_units (map snd raw))) by (rewrite E; left; reflexivity).
      apply unique_units_In in Hin. destruct Hin as [Hin Hne].
      exfalso. apply Hne. apply Hall. exact Hin.
  - intros unit Hne Hin Hall.
    assert (E : unique_units (map snd raw) = [unit]).
    { apply NoDup_all_equal.
      - apply unique_units_NoDup.
      - apply unique_units_In. split; assumption.
      - intros x Hx. apply unique_units_In in Hx. destruct Hx as [Hx Hxne].
        destruct (Hall x Hx); [contradiction | assumption]. }
    rewrite E. simpl. rewrite length_map. reflexivity.
  - intros u1 u2 H1 H2 Hn1 Hn2 Hneq.
    assert (Hlen : 2 <= length (unique_units (map snd raw))).
    { apply (two_distinct_length _ u1 u2); [| |exact Hneq];
        apply unique_units_In; split; assumption. }
    destruct (unique_units (map snd raw)) as [|a [|b l]]; simpl in Hlen; try lia.
    reflexivity.
Qed.

Lemma flat_units_unified_witness :
  _parse_flat (py "50% / 60% / 70") 5
  = Ok (mkAttributeModifier (py "+") [PInt 50; PInt 60; PInt 70]
          (repeat (py "%") 3))
  /\ _parse_flat (py "50% / 60 AD / 70") 5 = Raise AssertionError.
Proof.
  split.
  - destruct (flat_units_unified (py "50% / 60% / 70") 5
                [(PInt 50, py "%"); (PInt 60, py "%"); (PInt 70, [])]
                eq_refl eq_refl eq_refl)
      as [_ [Hone _]].
    apply (Hone (py "%")).
    + discriminate.
    + left. reflexivity.
    + simpl. intros u [<-|[<-|[<-|[]]]]; auto.
  - destruct (flat_units_unified (py "50% / 60 AD / 70") 5
                [(PInt 50, py "%"); (PInt 60, py " AD"); (PInt 70, [])]
                eq_refl eq_refl eq_refl)
      as [_ [_ Htwo]].
    apply (Htwo (py "%") (py " AD")); simpl; auto; discriminate.
Defined.

(** C4 (the code at its failing input). The scaling path returns the units
    as extracted, position by position: two distinct non-empty units raise
    nothing, and a unit found at one position only is not given to the other
    positions, where the flat path fails, respectively unifies. *)
Theorem scaling_units_are_not_unified :
  _parse_scaling (py "(+ 10% / 20 / 30% AD)") 5
  = Ok (mkAttributeModifier (py "+") [PInt 10; PInt 20; PInt 30]
          [py "%"; []; py "% AD"])
  /\ _parse_flat (py "10% / 20 / 30% AD") 5 = Raise AssertionError
  /\ _parse_scaling (py "(+ 30 / 40 / 50% AP)") 5
     = Ok (mkAttributeModifier (py "+") [PInt 30; PInt 40; PInt 50]
             [[]; []; py "% AP"])
  /\ _parse_flat (py "30 / 40 / 50% AP") 5
     = Ok (mkAttributeModifier (py "+") [PInt 30; PInt 40; PInt 50]
             [py "% AP"; py "% AP"; py "% AP"])
  /\ from_string (py "Damage") (py "Damage: 60 (+ 30 / 40 / 50% AP)")
     = Ok (mkAttribute (py "Damage")
             [mkAttributeModifier (py "+") [PInt 30; PInt 40; PInt 50]
                [[]; []; py "% AP"];
              mkAttributeModifier (py "+") (repeat (PInt 60) 5) (repeat [] 5)]).
Proof. repeat split. Qed.

(** ** The spans of the segmenter *)

Lemma occur_prepend (ms : list str) (x s : str) :
  occur_in_order ms s -> occur_in_order ms (x ++ s).
Proof.
  destruct ms as [|m ms]; simpl; [trivial|].
  intros [a [b [-> H]]]. exists (x ++ a), b.
  split; [rewrite app_assoc; reflexivity | exact H].
Qed.

Lemma occur_map_prefix (f : str -> str) (Ms : list str) :
  Forall (fun M => exists z, M = f M ++ z) Ms ->
  forall s, occur_in_order Ms s -> occur_in_order (map f Ms) s.
Proof.
  induction 1 as [|M Ms [z Hz] _ IH]; simpl; intros s H; [trivial|].
  destruct H as [a [b [-> Hb]]]. exists a, (z ++ b). split.
  - rewrite Hz at 1. rewrite <- app_assoc. reflexivity.
  - apply occur_prepend. apply IH. exact Hb.
Qed.

Lemma skipn_app_l {A : Type} (k : nat) (u v : list A) :
  k <= length u -> skipn k (u ++ v) = skipn k u ++ v.
Proof.
  intro H. rewrite skipn_app.
  replace (k - length u) with 0 by lia. reflexivity.
Qed.

Lemma findall_occur_bounded (re : Re.pattern) :
  whole_match re ->
  forall (k : nat) (s : str),
    length s <= k -> occur_in_order (Re.findall re s) s.
Proof.
  intros Hre k. induction k as [|k IH]; intros s Hk.
  - destruct s; [exact I | simpl in Hk; lia].
  - destruct s as [|c t]; [exact I|].
    destruct (re (c :: t)) as [[g n]|] eqn:E.
    + destruct (Hre _ _ _ E) as [Hn [H1 [u Hu]]].
      rewrite (findall_at_match _ _ _ _ E H1) by discriminate.
      simpl. exists [], (skipn n (c :: t)). split.
      * rewrite Hu at 1. rewrite Hu, Hn, skipn_app_l by lia.
        rewrite skipn_all. reflexivity.
      * apply IH. rewrite length_skipn. lia.
    + unfold Re.findall. simpl. rewrite E.
      apply (occur_prepend _ [c] t). apply IH. simpl in Hk. lia.
Qed.

Lemma findall_occur (re : Re.pattern) (s : str) :
  whole_match re -> occur_in_order (Re.findall re s) s.
Proof. intro H. apply (findall_occur_bounded re H (length s)). lia. Qed.

Lemma take_while_cons_true (p : ascii -> bool) (c : ascii) (s : str) :
  p c = true -> Re.take_while p (c :: s) = c :: Re.take_while p s.
Proof. intro H. simpl. rewrite H. reflexivity. Qed.

(** A match of [rattribute] is a non-empty label followed by a colon. *)
Lemma rattribute_match (s g : str) (n : nat) :
  Re.rattribute s = Some (g, n) ->
  n = length g /\ 1 <= n /\ (exists t, s = g ++ t)
  /\ g = PyStr.slice_to_m1 g ++ py ":"
  /\ exists c t, PyStr.slice_to_m1 g = c :: t /\ Re.label_char c = true.
Proof.
  unfold Re.rattribute. destruct s as [|c s]; [discriminate|].
  destruct (Re.label_char c) eqn:Hc; [|discriminate].
  pose proof (take_while_prefix
                (fun c => Re.label_char c || Re.label_gap c) (c :: s)) as Hp.
  rewrite take_while_cons_true in * by (rewrite Hc; reflexivity).
  remember (c :: Re.take_while _ s) as run eqn:Hrun.
  destruct (skipn (length run) (c :: s)) as [|d rest] eqn:Hk; [discriminate|].
  destruct (Ascii.eqb d ":") eqn:Hd; [|discriminate].
  apply Ascii.eqb_eq in Hd. subst d.
  intro H. inversion H as [[Hg Hn]]. clear H.
  unfold PyStr.slice_to_m1. rewrite removelast_last.
  split; [reflexivity|]. split; [rewrite length_app; simpl; lia|].
  split; [|split; [reflexivity|]].
  - exists rest. rewrite <- app_assoc. exact Hp.
  - subst run. eexists. eexists. split; [reflexivity | exact Hc].
Qed.

Lemma rattribute_whole_match : whole_match Re.rattribute.
Proof.
  intros s g n H. apply rattribute_match in H. tauto.
Qed.

Lemma findall_rattribute_labels (s : str) :
  Forall (fun M => M = PyStr.slice_to_m1 M ++ py ":")
         (Re.findall Re.rattribute s).
Proof.
  apply Forall_forall. intros M H. unfold Re.findall in H.
  apply (findall_from_In Re.rattribute
           (fun M => M = PyStr.slice_to_m1 M ++ py ":"))
    with (s := s) (skip := 0); [|exact H].
  intros s' g n Hm. apply rattribute_match in Hm. tauto.
Qed.

Lemma findall_rattribute_first_char (s : str) :
  Forall (fun M => exists c t,
            PyStr.slice_to_m1 M = c :: t /\ Re.label_char c = true)
         (Re.findall Re.rattribute s).
Proof.
  apply Forall_forall. intros M H. unfold Re.findall in H.
  apply (findall_from_In Re.rattribute
           (fun M => exists c t,
              PyStr.slice_to_m1 M = c :: t /\ Re.label_char c = true))
    with (s := s) (skip := 0); [|exact H].
  intros s' g n Hm. apply rattribute_match in Hm. tauto.
Qed.

Lemma find_unfold (s sub : str) :
  PyStr.find s sub
  = if PyStr.startswith s sub then Some 0
    else match s with
         | [] => None
         | _ :: t => option_map S (PyStr.find t sub)
         end.
Proof. destruct s; reflexivity. Qed.

(** [find] returns the first occurrence: it is not behind a known one. *)
Lemma find_first (x sub y : str) :
  exists i : nat,
    PyStr.find (x ++ sub ++ y) sub = Some i
    /\ i <= length x
    /\ exists z, skipn i (x ++ sub ++ y) = sub ++ z.
Proof.
  induction x as [|c x IH]; rewrite find_unfold.
  - assert (H : PyStr.startswith ([] ++ sub ++ y) sub = true)
      by (apply startswith_app; exists y; reflexivity).
    rewrite H. exists 0. split; [reflexivity|]. split; [simpl; lia|].
    exists y. reflexivity.
  - destruct (PyStr.startswith ((c :: x) ++ sub ++ y) sub) eqn:H.
    + exists 0. split; [reflexivity|]. split; [lia|].
      apply startswith_app in H. destruct H as [z Hz]. exists z. exact Hz.
    + destruct IH as [i [Hf [Hi [z Hz]]]]. exists (S i). simpl.
      rewrite Hf. split; [reflexivity|]. split; [lia|].
      exists z. exact Hz.
Qed.

Lemma skipn_exact {A : Type} (u v : list A) : skipn (length u) (u ++ v) = v.
Proof.
  rewrite skipn_app_l by lia. rewrite skipn_all. reflexivity.
Qed.

(** The loop of [_match_and_split] never fails to find the next label when
    the labels occur in order behind the previous one, and cuts the string
    into consecutive pieces, each of which begins with its label. *)
Lemma split_loop_pieces (ms : list str) :
  forall (prev string : str) (splits : list str) (pre y : str),
    string = pre ++ prev ++ y ->
    occur_in_order ms y ->
    exists pieces : list str,
      length pieces = S (length ms)
      /\ concat pieces = string
      /\ Forall2 (fun m p => PyStr.startswith p m = true) ms (tl pieces)
      /\ (pre = [] -> PyStr.startswith (hd [] pieces) prev = true)
      /\ split_loop prev ms string splits
         = Ok (last pieces [],
               splits ++ map PyStr.strip (removelast pieces)).
Proof.
  induction ms as [|m ms IH]; intros prev string splits pre y Hs Hocc.
  - exists [string]. simpl. rewrite !app_nil_r.
    repeat split; try constructor.
    intros ->. apply startswith_app. exists y. exact Hs.
  - destruct Hocc as [a [b [-> Hb]]].
    set (x := skipn (length prev) (pre ++ prev ++ a)).
    assert (Hx : skipn (length prev) string = x ++ m ++ b).
    { subst string x.
      replace (pre ++ prev ++ a ++ m ++ b) with ((pre ++ prev ++ a) ++ m ++ b)
        by (rewrite <- !app_assoc; reflexivity).
      apply skipn_app_l. rewrite !length_app. lia. }
    destruct (find_first x m b) as [i [Hfind [Hi [z Hz]]]].
    assert (Hcut : skipn (length prev + i) string = m ++ z).
    { rewrite Nat.add_comm, <- skipn_skipn, Hx. exact Hz. }
    assert (Hzb : exists w, z = w ++ b).
    { exists (skipn (length m) (skipn i x ++ m)).
      rewrite skipn_app_l in Hz by exact Hi.
      apply (f_equal (skipn (length m))) in Hz.
      rewrite skipn_exact in Hz. rewrite <- Hz.
      rewrite app_assoc. apply skipn_app_l. rewrite length_app. lia. }
    destruct Hzb as [w Hw].
    assert (Hocc' : occur_in_order ms z)
      by (rewrite Hw; apply occur_prepend; exact Hb).
    destruct (IH m (m ++ z)
                 (splits ++ [PyStr.strip (firstn (length prev + i) string)])
                 [] z eq_refl Hocc')
      as [pieces [Hlen [Hcat [Hall [Hhd Hloop]]]]].
    exists (firstn (length prev + i) string :: pieces).
    destruct pieces as [|p ps]; [discriminate|].
    split; [simpl; f_equal; exact Hlen|].
    split; [|split; [|split]].
    + change (concat (firstn (length prev + i) string :: p :: ps))
        with (firstn (length prev + i) string ++ concat (p :: ps)).
      rewrite Hcat, <- Hcut. apply firstn_skipn.
    + simpl. constructor; [apply Hhd; reflexivity | exact Hall].
    + intros ->. simpl hd. apply startswith_app.
      exists (firstn i (a ++ m ++ b)). subst string. simpl app.
      rewrite firstn_app. rewrite firstn_all2 by lia.
      replace (length prev + i - length prev) with i by lia. reflexivity.
    + simpl split_loop. unfold PyStr.slice_from, PyStr.slice_to.
      rewrite Hx, Hfind, Hcut, Hloop.
      change (last (firstn (length prev + i) string :: p :: ps) [])
        with (last (p :: ps) []).
      change (removelast (firstn (length prev + i) string :: p :: ps))
        with (firstn (length prev + i) string :: removelast (p :: ps)).
      simpl map. rewrite <- app_assoc. reflexivity.
Qed.

(** The spans cut by the loop are never Heimerdinger's malformed spans:
    the last of those begins with a closing parenthesis, and no label does. *)
Lemma spans_are_not_heimer (labels pieces : list str) :
  Forall (fun m => exists c t, m = c :: t /\ Re.label_char c = true) labels ->
  Forall2 (fun label piece => PyStr.startswith piece label = true)
          labels (tl pieces) ->
  length pieces = S (length labels) ->
  map PyStr.strip (removelast pieces) ++ [last pieces []] <> heimer_found.
Proof.
  intros Hch Hall Hlen E.
  assert (Hne : pieces <> []) by (destruct pieces; discriminate).
  pose proof (app_removelast_last [] Hne) as Hrl.
  apply (f_equal (@length str)) in Hrl. rewrite length_app in Hrl.
  pose proof (f_equal (@length str) E) as El.
  rewrite length_app, length_map in El. simpl in El, Hrl.
  destruct pieces as [|p0 [|p1 [|p2 [|p3 [|p4 [|p5 ps]]]]]];
    simpl in Hrl, El; try lia.
  destruct labels as [|l1 [|l2 [|l3 [|l4 [|l5 ls]]]]]; simpl in Hlen; try lia.
  simpl in Hall.
  apply Forall2_cons_iff in Hall. destruct Hall as [_ Hall].
  apply Forall2_cons_iff in Hall. destruct Hall as [_ Hall].
  apply Forall2_cons_iff in Hall. destruct Hall as [_ Hall].
  apply Forall2_cons_iff in Hall. destruct Hall as [Hst _].
  apply Forall_inv_tail, Forall_inv_tail, Forall_inv_tail, Forall_inv in Hch.
  destruct Hch as [c [t [-> Hc]]].
  simpl in E. unfold heimer_found in E.
  injection E as _ _ _ _ E4. rewrite E4 in Hst. simpl in Hst.
  apply andb_true_iff in Hst. destruct Hst as [Hst _].
  apply Ascii.eqb_eq in Hst. subst c. discriminate Hc.
Qed.

(** C5 (amended). For a string with at least one label (and neither of the
    two hard-coded strings) the segmenter returns the labels in source order,
    each without its colon, and as many spans.  The spans are cut from
    consecutive pieces of the string that together make up the whole string:
    every span but the last is its piece with the surrounding whitespace
    stripped, the last span is its piece as it is.  Every piece after the
    first begins with the text of its label, and so does the first piece when
    the string begins with the first label. *)
Theorem segmenter_spans (string l : str) (ls : list str) :
  string <> pounce -> string <> cougar ->
  Re.findall Re.rattribute string = l :: ls ->
  exists pieces : list str,
    length pieces = length (l :: ls)
    /\ concat pieces = string
    /\ Forall (fun M => M = PyStr.slice_to_m1 M ++ py ":") (l :: ls)
    /\ Forall2 (fun label piece => PyStr.startswith piece label = true)
               (map PyStr.slice_to_m1 ls) (tl pieces)
    /\ (PyStr.startswith string (PyStr.slice_to_m1 l) = true ->
        PyStr.startswith (hd [] pieces) (PyStr.slice_to_m1 l) = true)
    /\ _match_and_split string Re.rattribute
       = Ok (map PyStr.slice_to_m1 (l :: ls),
             map PyStr.strip (removelast pieces) ++ [last pieces []]).
Proof.
  intros Hp Hc Hf.
  pose proof (findall_rattribute_first_char string) as Hfc. rewrite Hf in Hfc.
  apply Forall_inv_tail in Hfc.
  pose proof (findall_rattribute_labels string) as Hlab. rewrite Hf in Hlab.
  pose proof (findall_occur Re.rattribute string rattribute_whole_match) as Hocc.
  rewrite Hf in Hocc. destruct Hocc as [a [b [Hs Hb]]].
  pose proof (Forall_inv Hlab) as Hl. pose proof (Forall_inv_tail Hlab) as Hls.
  simpl in Hl. set (m0 := PyStr.slice_to_m1 l) in *.
  assert (Hb' : occur_in_order (map PyStr.slice_to_m1 ls) (py ":" ++ b)).
  { apply occur_prepend. apply occur_map_prefix; [|exact Hb].
    eapply Forall_impl; [|exact Hls]. intros M HM. exists (py ":"). exact HM. }
  assert (Hdec : exists pre y : str,
             string = pre ++ m0 ++ y
             /\ occur_in_order (map PyStr.slice_to_m1 ls) y
             /\ (PyStr.startswith string m0 = true -> pre = [])).
  { destruct (PyStr.startswith string m0) eqn:Hst.
    - exists [], (skipn (length m0) string). split; [|split].
      + apply startswith_firstn. exact Hst.
      + rewrite Hs, Hl, <- app_assoc, app_assoc.
        rewrite skipn_app_l by (rewrite length_app; lia).
        apply occur_prepend. exact Hb'.
      + reflexivity.
    - exists a, (py ":" ++ b). split; [|split].
      + rewrite Hs, Hl, <- app_assoc. reflexivity.
      + exact Hb'.
      + discriminate. }
  destruct Hdec as [pre [y [Hdec [Hy Hpre]]]].
  destruct (split_loop_pieces (map PyStr.slice_to_m1 ls) m0 string [] pre y
              Hdec Hy)
    as [pieces [Hlen [Hcat [Hall [Hhd Hloop]]]]].
  exists pieces. rewrite length_map in Hlen.
  split; [exact Hlen|]. split; [exact Hcat|]. split; [exact Hlab|].
  split; [exact Hall|]. split; [intro Hst; apply Hhd, Hpre, Hst|].
  unfold _match_and_split.
  rewrite (pystr_eqb_neq _ _ Hp), (pystr_eqb_neq _ _ Hc), Hf.
  simpl map. fold m0. cbv iota. rewrite Hloop. simpl bind.
  destruct (list_eq_dec str_eq_dec
              (map PyStr.strip (removelast pieces) ++ [last pieces []])
              heimer_found) as [E|_]; [|reflexivity].
  exfalso. revert E.
  apply (spans_are_not_heimer (map PyStr.slice_to_m1 ls)); [|exact Hall|].
  - apply Forall_map. exact Hfc.
  - rewrite length_map. exact Hlen.
Qed.

Lemma segmenter_spans_witness :
  exists pieces : list str,
    length pieces = length [py "Damage:"; py "Cooldown:"]
    /\ concat pieces = py "Damage: 10 / 20 (+ 5% AP) Cooldown: 5"
    /\ Forall (fun M => M = PyStr.slice_to_m1 M ++ py ":")
              [py "Damage:"; py "Cooldown:"]
    /\ Forall2 (fun label piece => PyStr.startswith piece label = true)
               (map PyStr.slice_to_m1 [py "Cooldown:"]) (tl pieces)
    /\ (PyStr.startswith (py "Damage: 10 / 20 (+ 5% AP) Cooldown: 5")
                         (PyStr.slice_to_m1 (py "Damage:")) = true ->
        PyStr.startswith (hd [] pieces) (PyStr.slice_to_m1 (py "Damage:")) = true)
    /\ _match_and_split (py "Damage: 10 / 20 (+ 5% AP) Cooldown: 5") Re.rattribute
       = Ok (map PyStr.slice_to_m1 [py "Damage:"; py "Cooldown:"],
             map PyStr.strip (removelast pieces) ++ [last pieces []]).
Proof.
  apply (segmenter_spans (py "Damage: 10 / 20 (+ 5% AP) Cooldown: 5")
           (py "Damage:") [py "Cooldown:"]);
    [discriminate | discriminate | reflexivity].
Defined.

(** C5 (counterexample). The two spans returned for this text begin with
    their labels ["Damage:"] and ["Cooldown:"]; the text from just behind
    each colon to the next label would be [" 10 / 20 (+ 5% AP) "] and
    [" 5"]. *)
Lemma spans_hold_labels_counterexample :
  Re.findall Re.rattribute (py "Damage: 10 / 20 (+ 5% AP) Cooldown: 5")
  = [py "Damage:"; py "Cooldown:"]
  /\ _match_and_split (py "Damage: 10 / 20 (+ 5% AP) Cooldown: 5") Re.rattribute
     = Ok ([py "Damage"; py "Cooldown"],
           [py "Damage: 10 / 20 (+ 5% AP)"; py "Cooldown: 5"])
  /\ PyStr.eqb (py "Damage: 10 / 20 (+ 5% AP)") (py " 10 / 20 (+ 5% AP) ") = false
  /\ PyStr.eqb (py "Cooldown: 5") (py " 5") = false.
Proof. repeat split. Qed.

(** ** Lengths of the value and unit lists *)

Lemma split_from_length (sep : str) (s : str) (skip : nat) :
  length (PyStr.split_from sep skip s) = S (PyStr.count_from sep skip s).
Proof.
  revert skip. induction s as [|c s IH]; intro skip; simpl; [reflexivity|].
  destruct skip as [|k]; [|apply IH].
  destruct (PyStr.startswith (c :: s) sep).
  - simpl. f_equal. apply IH.
  - specialize (IH 0).
    destruct (PyStr.split_from sep 0 s); simpl in *; [discriminate IH | exact IH].
Qed.

Lemma split_length (s sep : str) :
  sep <> [] -> length (PyStr.split s sep) = S (PyStr.count s sep).
Proof.
  intro H. destruct sep as [|c sep]; [contradiction|].
  apply split_from_length.
Qed.

Lemma sub_fragments_length (fragment : str) (num_levels : nat) :
  length (if PyStr.contains fragment (py " / ")
          then PyStr.split fragment (py " / ")
          else repeat fragment num_levels)
  = positions fragment num_levels.
Proof.
  unfold positions. destruct (PyStr.contains fragment (py " / ")).
  - apply split_length. discriminate.
  - apply repeat_length.
Qed.

Lemma parse_scaling_lengths (scaling : str) (num_levels : nat)
  (m : AttributeModifier) :
  _parse_scaling scaling num_levels = Ok m ->
  exists (c : ascii) (t : str),
    unwrap scaling = c :: t /\ sign m = [c]
    /\ length (values m) = positions (PyStr.strip t) num_levels
    /\ length (units m) = positions (PyStr.strip t) num_levels.
Proof.
  unfold _parse_scaling. fold (unwrap scaling).
  destruct (unwrap scaling) as [|c t]; [discriminate|].
  intro H. inv_bind H. inversion H. simpl.
  exists c, t. apply mapM_length in Ha.
  unfold PyStr.slice_from in Ha. simpl skipn in Ha.
  rewrite sub_fragments_length in Ha.
  rewrite !length_map. repeat split; assumption.
Qed.

Lemma parse_flat_lengths (flat : str) (num_levels : nat) (m : AttributeModifier) :
  _parse_flat flat num_levels = Ok m ->
  length (units m) = length (values m)
  /\ length (values m)
     = if PyStr.contains flat (py "(based on level)")
          || PyStr.contains flat (py "(based on casts)")
       then 18
       else positions (unwrap flat) num_levels.
Proof.
  unfold _parse_flat. fold (unwrap flat).
  destruct (PyStr.contains flat (py "(based on level)")
            || PyStr.contains flat (py "(based on casts)")).
  - intro H. inv_bind H. destruct a as [unit flat']. simpl in H. inv_bind H.
    destruct (Re.findall Re.rnumber flat') as [|v0 [|v1 vs]]; try discriminate.
    inv_bind H. inv_bind H. inv_bind H. inversion H. simpl.
    apply interpolate_values in Ha3. destruct Ha3 as [Hlen _].
    split; [symmetry|]; exact Hlen.
  - intro H. inv_bind H. inv_bind H. inversion H. simpl.
    apply mapM_length in Ha. rewrite sub_fragments_length in Ha.
    rewrite length_map. split; [|exact Ha].
    destruct (unique_units (map snd a)) as [|u others].
    + inversion Ha0. apply length_map.
    + inv_bind Ha0. inversion Ha0. rewrite repeat_length. apply length_map.
Qed.

Lemma mapM_Forall {A B : Type} (f : A -> result B) (P : B -> Prop)
  (l : list A) (bs : list B) :
  (forall a b, In a l -> f a = Ok b -> P b) ->
  mapM f l = Ok bs -> Forall P bs.
Proof.
  revert bs. induction l as [|a l IH]; simpl; intros bs HP H.
  - inversion H. constructor.
  - inv_bind H. inv_bind H. inversion H. constructor.
    + apply (HP a); [left; reflexivity | assumption].
    + apply IH; [|assumption]. intros a' b' Hin. apply HP. right. exact Hin.
Qed.

Lemma ranks_135_length {A : Type} (l : list A) :
  length l = 5 -> length (ranks_135 l) = 3.
Proof.
  destruct l as [|x0 [|x1 [|x2 [|x3 [|x4 [|x5 l]]]]]]; simpl; intro H;
    try discriminate. reflexivity.
Qed.

Lemma reduce_modifier_lengths (m : AttributeModifier) :
  parallel m ->
  parallel (reduce_modifier m)
  /\ length (values (reduce_modifier m)) <> 5
  /\ length (values (reduce_modifier m))
     = if length (values m) =? 5 then 3 else length (values m).
Proof.
  unfold parallel. intro H.
  rewrite reduce_modifier_values, reduce_modifier_units, <- H.
  destruct (length (values m) =? 5) eqn:E.
  - apply Nat.eqb_eq in E. rewrite !ranks_135_length by congruence.
    repeat split. discriminate.
  - apply Nat.eqb_neq in E. repeat split; assumption.
Qed.

Lemma from_string_parallel (name split : str) (a : Attribute) :
  from_string name split = Ok a -> Forall parallel (modifiers a).
Proof.
  unfold from_string. intro H. inv_bind H. inv_bind H. inversion H. simpl.
  apply Forall_app. split.
  - eapply mapM_Forall; [|exact Ha]. intros s m _ Hm.
    apply parse_scaling_lengths in Hm.
    destruct Hm as [c [t [_ [_ [Hv Hu]]]]]. unfold parallel. congruence.
  - eapply mapM_Forall; [|exact Ha0]. intros s m _ Hm.
    apply parse_flat_lengths in Hm. destruct Hm as [Hm _]. symmetry. exact Hm.
Qed.

Lemma split_leveling_Forall (P : Attribute -> Prop) (leveling : str)
  (attrs : list Attribute) :
  (forall name split a, from_string name split = Ok a -> P a) ->
  _split_leveling leveling = Ok attrs -> Forall P attrs.
Proof.
  intros HP H. unfold _split_leveling in H. inv_bind H.
  destruct a as [matches splits]. simpl in H.
  eapply mapM_Forall; [|exact H]. intros [name split] b _ Hb.
  eapply HP. exact Hb.
Qed.

Lemma split_leveling_parallel (leveling : str) (attrs : list Attribute) :
  _split_leveling leveling = Ok attrs ->
  Forall (fun a => Forall parallel (modifiers a)) attrs.
Proof.
  intro H. eapply split_leveling_Forall; [|exact H].
  intros name split a. apply from_string_parallel.
Qed.

(** The [values] and the [units] of every modifier of an attribute that
    [from_string] builds have the same length, whichever construction path
    built the modifier. *)
Theorem attribute_lists_are_parallel (name split : str) (a : Attribute) :
  from_string name split = Ok a ->
  Forall (fun m => length (values m) = length (units m)) (modifiers a).
Proof. apply from_string_parallel. Qed.

Lemma attribute_lists_are_parallel_witness :
  Forall (fun m => length (values m) = length (units m))
         [mkAttributeModifier (py "+") (repeat (PInt 60) 5)
                              (repeat (py "% AP") 5);
          mkAttributeModifier (py "+")
                              [PInt 10; PInt 20; PInt 30; PInt 40; PInt 50]
                              (repeat [] 5)].
Proof.
  apply (attribute_lists_are_parallel (py "Damage")
           (py "Damage: 10 / 20 / 30 / 40 / 50 (+ 60% AP)")
           (mkAttribute (py "Damage")
              [mkAttributeModifier (py "+") (repeat (PInt 60) 5)
                                   (repeat (py "% AP") 5);
               mkAttributeModifier (py "+")
                                   [PInt 10; PInt 20; PInt 30; PInt 40; PInt 50]
                                   (repeat [] 5)])).
  reflexivity.
Defined.

(** The lists stay parallel through [_parse_leveling]: in every attribute
    it returns, for every skill, the [values] and the [units] of a modifier
    have the same length, also after the ranks of an ultimate are reduced. *)
Theorem leveling_lists_are_parallel (html_text : str -> str)
  (leveling skill : str) (attrs : list Attribute) :
  _parse_leveling html_text leveling skill = Ok attrs ->
  Forall (fun a => Forall (fun m => length (values m) = length (units m))
                          (modifiers a))
         attrs.
Proof.
  intro H. unfold _parse_leveling in H.
  inv_bind H. apply split_leveling_parallel in Ha. inversion H.
  destruct (PyStr.eqb skill _); [|exact Ha].
  apply Forall_map. eapply Forall_impl; [|exact Ha].
  intros at' Hat. simpl. apply Forall_map. eapply Forall_impl; [|exact Hat].
  intros m Hm. apply reduce_modifier_lengths. exact Hm.
Qed.

Lemma leveling_lists_are_parallel_witness :
  Forall (fun a => Forall (fun m => length (values m) = length (units m))
                          (modifiers a))
         [mkAttribute (py "Damage")
            [mkAttributeModifier (py "+") [PInt 60; PInt 60; PInt 60]
                                 (repeat (py "% AP") 3);
             mkAttributeModifier (py "+") [PInt 10; PInt 30; PInt 50]
                                 (repeat [] 3)]].
Proof.
  apply (leveling_lists_are_parallel (fun markup => markup)
           (py "Damage: 10 / 20 / 30 / 40 / 50 (+ 60% AP)") (py "R")).
  reflexivity.
Defined.

(** The number of entries of a modifier of the flat path: 18 for a fragment
    with an interpolation marker, otherwise one entry more than the fragment
    (enclosing parentheses taken off) has separators [" / "], and
    [num_levels] entries when it has none. *)
Theorem flat_cardinality (flat : str) (num_levels : nat)
  (m : AttributeModifier) :
  _parse_flat flat num_levels = Ok m ->
  length (values m)
  = if PyStr.contains flat (py "(based on level)")
       || PyStr.contains flat (py "(based on casts)")
    then 18
    else positions (unwrap flat) num_levels.
Proof. intro H. apply parse_flat_lengths in H. tauto. Qed.

Lemma flat_cardinality_witness :
  length [PInt 10; PInt 20; PInt 30]
  = if PyStr.contains (py "10 / 20 / 30") (py "(based on level)")
       || PyStr.contains (py "10 / 20 / 30") (py "(based on casts)")
    then 18
    else positions (unwrap (py "10 / 20 / 30")) 5.
Proof.
  apply (flat_cardinality (py "10 / 20 / 30") 5
           (mkAttributeModifier (py "+") [PInt 10; PInt 20; PInt 30]
                                (repeat [] 3))).
  reflexivity.
Defined.

(** The number of entries of a modifier of the scaling path: one entry more
    than the fragment (enclosing parentheses and the sign taken off) has
    separators [" / "], and [num_levels] entries when it has none. *)
Theorem scaling_cardinality (scaling : str) (num_levels : nat)
  (m : AttributeModifier) :
  _parse_scaling scaling num_levels = Ok m ->
  length (values m)
  = positions (PyStr.strip (PyStr.slice_from 1 (unwrap scaling))) num_levels.
Proof.
  intro H. apply parse_scaling_lengths in H.
  destruct H as [c [t [Hu [_ [Hv _]]]]]. rewrite Hu. exact Hv.
Qed.

Lemma scaling_cardinality_witness :
  length [PInt 30; PInt 40; PInt 50]
  = positions
      (PyStr.strip (PyStr.slice_from 1 (unwrap (py "(+ 30 / 40 / 50% AP)"))))
      5.
Proof.
  apply (scaling_cardinality (py "(+ 30 / 40 / 50% AP)") 5
           (mkAttributeModifier (py "+") [PInt 30; PInt 40; PInt 50]
                                [[]; []; py "% AP"])).
  reflexivity.
Defined.

(** With skill ["R"] no list that [_parse_leveling] returns has 5 entries:
    the lists of 5 have become lists of 3, and no list of another length
    has become one of 5. *)
Theorem ultimate_has_no_five_ranks (html_text : str -> str) (leveling : str)
  (attrs : list Attribute) :
  _parse_leveling html_text leveling (py "R") = Ok attrs ->
  Forall (fun a => Forall (fun m => length (values m) <> 5
                                    /\ length (units m) <> 5)
                          (modifiers a))
         attrs.
Proof.
  intro H. unfold _parse_leveling in H. inv_bind H.
  apply split_leveling_parallel in Ha.
  inversion H. simpl. apply Forall_map. eapply Forall_impl; [|exact Ha].
  intros at' Hat. simpl. apply Forall_map. eapply Forall_impl; [|exact Hat].
  intros m Hm. destruct (reduce_modifier_lengths m Hm) as [Hp [H5 _]].
  split; [exact H5 | unfold parallel in Hp; rewrite <- Hp; exact H5].
Qed.

Lemma ultimate_has_no_five_ranks_witness :
  Forall (fun a => Forall (fun m => length (values m) <> 5
                                    /\ length (units m) <> 5)
                          (modifiers a))
         [mkAttribute (py "Damage")
            [mkAttributeModifier (py "+") [PInt 60; PInt 60; PInt 60]
                                 (repeat (py "% AP") 3);
             mkAttributeModifier (py "+") [PInt 10; PInt 30; PInt 50]
                                 (repeat [] 3)]].
Proof.
  apply (ultimate_has_no_five_ranks (fun markup => markup)
           (py "Damage: 10 / 20 / 30 / 40 / 50 (+ 60% AP)")).
  reflexivity.
Defined.

(** ** What [from_string] returns *)

Lemma lstrip_app_tail (a : str) (c : ascii) :
  PyStr.isspace c = false -> PyStr.lstrip (a ++ [c]) = PyStr.lstrip a ++ [c].
Proof.
  intro H. induction a as [|x a IH]; simpl.
  - rewrite H. reflexivity.
  - destruct (PyStr.isspace x); [exact IH | reflexivity].
Qed.

Lemma rstrip_cons (c : ascii) (t : str) :
  PyStr.isspace c = false -> PyStr.rstrip (c :: t) = c :: PyStr.rstrip t.
Proof.
  intro H. unfold PyStr.rstrip. simpl rev.
  rewrite lstrip_app_tail by exact H. rewrite rev_app_distr. reflexivity.
Qed.

Lemma strip_cons (c : ascii) (t : str) :
  PyStr.isspace c = false -> PyStr.strip (c :: t) = c :: PyStr.rstrip t.
Proof.
  intro H. unfold PyStr.strip. rewrite lstrip_not_space by exact H.
  apply rstrip_cons. exact H.
Qed.

Lemma rstrip_app_tail (a : str) (c : ascii) :
  PyStr.isspace c = false -> PyStr.rstrip (a ++ [c]) = a ++ [c].
Proof.
  intro H. unfold PyStr.rstrip. rewrite rev_app_distr. simpl.
  rewrite H. simpl. rewrite rev_involutive. reflexivity.
Qed.

Lemma lazy_to_paren_last (t u : str) :
  Re.lazy_to_paren t = Some u -> exists u', u = u' ++ py ")".
Proof.
  revert u. induction t as [|c t IH]; simpl; intros u H; [discriminate|].
  destruct (Ascii.eqb c ")") eqn:E.
  - apply Ascii.eqb_eq in E. subst c. inversion H. exists []. reflexivity.
  - destruct (Re.dot c); [|discriminate].
    destruct (Re.lazy_to_paren t) as [u0|]; [|discriminate].
    destruct (IH u0 eq_refl) as [u' ->]. inversion H. exists (c :: u').
    reflexivity.
Qed.

(** A match of [rscaling] is ["(+"], some text and [")"]. *)
Lemma rscaling_match (s g : str) (n : nat) :
  Re.rscaling s = Some (g, n) -> exists w, g = py "(+" ++ w ++ py ")".
Proof.
  unfold Re.rscaling. destruct s as [|p [|q [|c t]]]; try discriminate.
  destruct (Ascii.eqb p "(") eqn:Ep; [|discriminate].
  destruct (Ascii.eqb q "+") eqn:Eq; [|discriminate].
  destruct (Re.dot c); [|discriminate]. simpl.
  destruct (Re.lazy_to_paren t) as [u|] eqn:Eu; [|discriminate].
  intro H. inversion H. apply Ascii.eqb_eq in Ep, Eq. subst.
  destruct (lazy_to_paren_last _ _ Eu) as [u' ->].
  exists (c :: u'). reflexivity.
Qed.

(** The scaling path reads the sign ["+"] from every fragment that
    [rscaling] extracts. *)
Lemma parse_scaling_of_match (w : str) (num_levels : nat) (m : AttributeModifier) :
  _parse_scaling (PyStr.strip (py "(+" ++ w ++ py ")")) num_levels = Ok m ->
  sign m = py "+".
Proof.
  assert (Hstrip : PyStr.strip (py "(+" ++ w ++ py ")") = py "(+" ++ w ++ py ")").
  { simpl app. rewrite strip_cons by reflexivity. f_equal.
    rewrite rstrip_cons by reflexivity. f_equal.
    apply rstrip_app_tail. reflexivity. }
  rewrite Hstrip. intro H. apply parse_scaling_lengths in H.
  destruct H as [c [t [Hu [Hs _]]]]. rewrite Hs.
  unfold unwrap in Hu.
  assert (Hst : PyStr.startswith (py "(+" ++ w ++ py ")") (py "(") = true)
    by reflexivity.
  assert (Hen : PyStr.endswith (py "(+" ++ w ++ py ")") (py ")") = true).
  { unfold PyStr.endswith. change (py "(+" ++ w ++ py ")")
      with ((py "(+" ++ w) ++ py ")").
    rewrite rev_app_distr. reflexivity. }
  rewrite Hst, Hen in Hu. simpl andb in Hu. cbv iota in Hu.
  unfold PyStr.slice_1_m1 in Hu.
  change (tl (py "(+" ++ w ++ py ")")) with ((py "+" ++ w) ++ [")"%char]) in Hu.
  rewrite removelast_last in Hu. simpl app in Hu.
  rewrite strip_cons in Hu by reflexivity. inversion Hu. reflexivity.
Qed.

Lemma Forall2_map_l {A B C : Type} (f : A -> B) (R : B -> C -> Prop)
  (l : list A) (l' : list C) :
  Forall2 R (map f l) l' <-> Forall2 (fun a c => R (f a) c) l l'.
Proof.
  revert l'. induction l as [|a l IH]; intros l'; simpl; split; intro H;
    inversion H; subst; constructor; try assumption; apply IH; assumption.
Qed.

Lemma parse_flat_sign (flat : str) (num_levels : nat) (m : AttributeModifier) :
  _parse_flat flat num_levels = Ok m -> sign m = py "+".
Proof.
  unfold _parse_flat.
  destruct (PyStr.contains flat (py "(based on level)")
            || PyStr.contains flat (py "(based on casts)")); intro H.
  - inv_bind H. destruct a as [unit flat']. simpl in H. inv_bind H.
    destruct (Re.findall Re.rnumber flat') as [|v0 [|v1 vs]]; try discriminate.
    inv_bind H. inv_bind H. inv_bind H. inversion H. reflexivity.
  - inv_bind H. inv_bind H. inversion H. reflexivity.
Qed.

(** [from_string] keeps the name; its modifiers are one modifier for every
    match of [rscaling] in the span, in the order of the matches, each built
    by the scaling path from its match, followed by the modifiers the flat
    path builds.  Every one of them has the sign ["+"]: [from_string] never
    returns a modifier with another sign. *)
Theorem from_string_modifiers (name split : str) (a : Attribute) :
  from_string name split = Ok a ->
  attribute a = name
  /\ (exists scaled flats : list AttributeModifier,
        modifiers a = scaled ++ flats
        /\ Forall2 (fun scaling m =>
                      _parse_scaling (PyStr.strip scaling) 5 = Ok m)
                   (Re.findall Re.rscaling split) scaled
        /\ Forall (fun m => exists flat, _parse_flat flat 5 = Ok m) flats)
  /\ Forall (fun m => sign m = py "+") (modifiers a).
Proof.
  unfold from_string. intro H. inv_bind H. inv_bind H. inversion H. simpl.
  split; [reflexivity|].
  assert (Hscaled : Forall2 (fun scaling m =>
                               _parse_scaling (PyStr.strip scaling) 5 = Ok m)
                            (Re.findall Re.rscaling split) a0).
  { apply mapM_Forall2 in Ha. apply Forall2_map_l in Ha. exact Ha. }
  assert (Hflats : Forall (fun m => exists flat, _parse_flat flat 5 = Ok m) a1).
  { eapply mapM_Forall; [|exact Ha0]. intros f m _ Hm. exists f. exact Hm. }
  split; [exists a0, a1; repeat split; assumption|].
  apply Forall_app. split.
  - clear - Hscaled.
    assert (Hin : forall g, In g (Re.findall Re.rscaling split) ->
                            exists w, g = py "(+" ++ w ++ py ")").
    { intros g Hg. unfold Re.findall in Hg.
      apply (findall_from_In Re.rscaling
               (fun g => exists w, g = py "(+" ++ w ++ py ")"))
        with (s := split) (skip := 0); [|exact Hg].
      intros s g' n Hm. eapply rscaling_match. eassumption. }
    induction Hscaled as [|g m gs ms Hm _ IH]; constructor.
    + destruct (Hin g (or_introl eq_refl)) as [w ->].
      eapply parse_scaling_of_match. exact Hm.
    + apply IH. intros g' Hg'. apply Hin. right. exact Hg'.
  - eapply Forall_impl; [|exact Hflats]. intros m [flat Hm].
    eapply parse_flat_sign. exact Hm.
Qed.

Lemma from_string_modifiers_witness :
  attribute (mkAttribute (py "Damage")
               [mkAttributeModifier (py "+") (repeat (PInt 60) 5)
                                    (repeat (py "% AP") 5);
                mkAttributeModifier (py "+")
                                    [PInt 10; PInt 20; PInt 30; PInt 40; PInt 50]
                                    (repeat [] 5)]) = py "Damage"
  /\ Forall (fun m => sign m = py "+")
            [mkAttributeModifier (py "+") (repeat (PInt 60) 5)
                                 (repeat (py "% AP") 5);
             mkAttributeModifier (py "+")
                                 [PInt 10; PInt 20; PInt 30; PInt 40; PInt 50]
                                 (repeat [] 5)].
Proof.
  destruct (from_string_modifiers (py "Damage")
              (py "Damage: 10 / 20 / 30 / 40 / 50 (+ 60% AP)")
              (mkAttribute (py "Damage")
                 [mkAttributeModifier (py "+") (repeat (PInt 60) 5)
                                      (repeat (py "% AP") 5);
                  mkAttributeModifier (py "+")
                                      [PInt 10; PInt 20; PInt 30; PInt 40; PInt 50]
                                      (repeat [] 5)])
              eq_refl) as [Hname [_ Hsign]].
  split; [exact Hname | exact Hsign].
Defined.

(** ** The segmenter on every string *)

Lemma match_and_split_cut_spans (string : str) (regex : Re.pattern) :
  _match_and_split string regex
  = if PyStr.eqb string pounce then Raise (UnparsableLeveling string)
    else if PyStr.eqb string cougar then Raise (UnparsableLeveling string)
    else splits <- cut_spans string regex ;;
         Ok (map PyStr.slice_to_m1 (Re.findall regex string),
             if list_eq_dec str_eq_dec splits heimer_found then heimer_fixed
             else splits).
Proof.
  unfold _match_and_split, cut_spans.
  destruct (PyStr.eqb string pounce); [reflexivity|].
  destruct (PyStr.eqb string cougar); [reflexivity|].
  destruct (map PyStr.slice_to_m1 (Re.findall regex string)) as [|m0 ms];
    [reflexivity|].
  destruct (split_loop m0 ms string []) as [[s' splits]|e]; reflexivity.
Qed.

(** The loop cuts every string with a label into as many pieces as it has
    labels, without raising. *)
Lemma cut_spans_pieces (string l : str) (ls : list str) :
  Re.findall Re.rattribute string = l :: ls ->
  exists pieces : list str,
    length pieces = S (length ls)
    /\ concat pieces = string
    /\ Forall2 (fun label piece => PyStr.startswith piece label = true)
               (map PyStr.slice_to_m1 ls) (tl pieces)
    /\ cut_spans string Re.rattribute
       = Ok (map PyStr.strip (removelast pieces) ++ [last pieces []]).
Proof.
  intro Hf.
  pose proof (findall_rattribute_labels string) as Hlab. rewrite Hf in Hlab.
  pose proof (findall_occur Re.rattribute string rattribute_whole_match) as Hocc.
  rewrite Hf in Hocc. destruct Hocc as [a [b [Hs Hb]]].
  pose proof (Forall_inv Hlab) as Hl. pose proof (Forall_inv_tail Hlab) as Hls.
  simpl in Hl.
  assert (Hb' : occur_in_order (map PyStr.slice_to_m1 ls) (py ":" ++ b)).
  { apply occur_prepend. apply occur_map_prefix; [|exact Hb].
    eapply Forall_impl; [|exact Hls]. intros M HM. exists (py ":"). exact HM. }
  assert (Hdec : string = a ++ PyStr.slice_to_m1 l ++ py ":" ++ b)
    by (rewrite Hs, Hl at 1; rewrite <- app_assoc; reflexivity).
  destruct (split_loop_pieces (map PyStr.slice_to_m1 ls) (PyStr.slice_to_m1 l)
              string [] a (py ":" ++ b) Hdec Hb')
    as [pieces [Hlen [Hcat [Hall [_ Hloop]]]]].
  exists pieces. rewrite length_map in Hlen.
  split; [exact Hlen|]. split; [exact Hcat|]. split; [exact Hall|].
  unfold cut_spans. rewrite Hf. simpl map. cbv iota. rewrite Hloop.
  reflexivity.
Qed.

Lemma cut_spans_no_label (string : str) :
  Re.findall Re.rattribute string = [] ->
  cut_spans string Re.rattribute = Ok [string].
Proof. intro H. unfold cut_spans. rewrite H. reflexivity. Qed.

Lemma removelast_length {A : Type} (l : list A) :
  length (removelast l) = length l - 1.
Proof.
  induction l as [|a l IH]; [reflexivity|].
  destruct l as [|b l]; [reflexivity|].
  change (removelast (a :: b :: l)) with (a :: removelast (b :: l)).
  simpl length in *. lia.
Qed.

Lemma cut_spans_not_heimer (string : str) (splits : list str) :
  cut_spans string Re.rattribute = Ok splits -> splits <> heimer_found.
Proof.
  intro H. destruct (Re.findall Re.rattribute string) as [|l ls] eqn:Hf.
  - rewrite (cut_spans_no_label _ Hf) in H. inversion H.
    unfold heimer_found. discriminate.
  - destruct (cut_spans_pieces _ _ _ Hf) as [pieces [Hlen [_ [Hall Hcut]]]].
    rewrite Hcut in H. inversion H.
    pose proof (findall_rattribute_first_char string) as Hfc.
    rewrite Hf in Hfc. apply Forall_inv_tail in Hfc.
    apply (spans_are_not_heimer (map PyStr.slice_to_m1 ls)); [|exact Hall|].
    + apply Forall_map. exact Hfc.
    + rewrite length_map. exact Hlen.
Qed.

(** [_match_and_split] with the label pattern raises nothing for a string
    other than the two hard-coded ones: the [index] call of its loop always
    finds the label, so no [ValueError] escapes.  It returns the labels
    without their colons, and as many spans as labels, or the one span for a
    string without a label. *)
Theorem segmenter_never_fails (string : str) :
  string <> pounce -> string <> cougar ->
  exists spans : list str,
    _match_and_split string Re.rattribute
    = Ok (map PyStr.slice_to_m1 (Re.findall Re.rattribute string), spans)
    /\ length spans = Nat.max 1 (length (Re.findall Re.rattribute string)).
Proof.
  rewrite match_and_split_cut_spans. intros Hp Hc.
  rewrite (pystr_eqb_neq _ _ Hp), (pystr_eqb_neq _ _ Hc).
  destruct (Re.findall Re.rattribute string) as [|l ls] eqn:Hf.
  - rewrite (cut_spans_no_label _ Hf). simpl bind.
    rewrite one_span_is_not_heimer. exists [string]. split; reflexivity.
  - destruct (cut_spans_pieces _ _ _ Hf) as [pieces [Hlen [_ [_ Hcut]]]].
    pose proof (cut_spans_not_heimer string _ Hcut) as Hnh.
    rewrite Hcut. simpl bind.
    destruct (list_eq_dec str_eq_dec
                (map PyStr.strip (removelast pieces) ++ [last pieces []])
                heimer_found) as [E|_]; [contradiction|].
    eexists. split; [reflexivity|].
    rewrite length_app, length_map, removelast_length, Hlen. simpl. lia.
Qed.

Lemma segmenter_never_fails_witness :
  exists spans : list str,
    _match_and_split (py "no label here") Re.rattribute
    = Ok (map PyStr.slice_to_m1
              (Re.findall Re.rattribute (py "no label here")), spans)
    /\ length spans
       = Nat.max 1 (length (Re.findall Re.rattribute (py "no label here"))).
Proof.
  apply (segmenter_never_fails (py "no label here")); discriminate.
Defined.

(** The replacement of Heimerdinger's spans never takes place: the spans the
    loop cuts with the label pattern are never the five spans it tests for
    (the last of them begins with a closing parenthesis, and a span of the
    loop begins with its label), so [_match_and_split] returns the spans of
    its loop unchanged. *)
Theorem heimer_spans_never_replaced (string : str) (labels spans : list str) :
  _match_and_split string Re.rattribute = Ok (labels, spans) ->
  cut_spans string Re.rattribute = Ok spans /\ spans <> heimer_found.
Proof.
  rewrite match_and_split_cut_spans.
  destruct (PyStr.eqb string pounce); [discriminate|].
  destruct (PyStr.eqb string cougar); [discriminate|].
  destruct (cut_spans string Re.rattribute) as [splits|e] eqn:Hcut;
    [|discriminate].
  pose proof (cut_spans_not_heimer _ _ Hcut) as Hnh. simpl bind.
  destruct (list_eq_dec str_eq_dec splits heimer_found) as [E|_];
    [contradiction|].
  intro H. inversion H. subst. split; [reflexivity | exact Hnh].
Qed.

Lemma heimer_spans_never_replaced_witness :
  cut_spans (py "Damage: 10 / 20 (+ 5% AP) Cooldown: 5") Re.rattribute
  = Ok [py "Damage: 10 / 20 (+ 5% AP)"; py "Cooldown: 5"]
  /\ [py "Damage: 10 / 20 (+ 5% AP)"; py "Cooldown: 5"] <> heimer_found.
Proof.
  apply (heimer_spans_never_replaced
           (py "Damage: 10 / 20 (+ 5% AP) Cooldown: 5")
           [py "Damage"; py "Cooldown"]).
  reflexivity.
Defined.

(** ** The attributes of a leveling text *)

Lemma from_string_name (name split : str) (a : Attribute) :
  from_string name split = Ok a -> attribute a = name.
Proof.
  unfold from_string. intro H. inv_bind H. inv_bind H. inversion H.
  reflexivity.
Qed.

Lemma mapM_from_string_names (l : list (str * str)) (attrs : list Attribute) :
  mapM (fun '(attribute_name, split) => from_string attribute_name split) l
  = Ok attrs ->
  map attribute attrs = map fst l.
Proof.
  revert attrs. induction l as [|[n s] l IH]; simpl; intros attrs H.
  - inversion H. reflexivity.
  - inv_bind H. inv_bind H. inversion H. simpl. f_equal.
    + eapply from_string_name. eassumption.
    + apply IH. assumption.
Qed.

Lemma combine_fst {A B : Type} (l : list A) (l' : list B) :
  length l <= length l' -> map fst (combine l l') = l.
Proof.
  revert l'. induction l as [|a l IH]; intros [|b l'] H; simpl in *;
    try reflexivity; try lia.
  f_equal. apply IH. lia.
Qed.

(** The attributes of [_split_leveling] are named by the labels of the text
    (once the removal phrases are taken out), without their colons, one
    attribute for every label and in the order of the labels. *)
Theorem split_leveling_names (leveling : str) (attrs : list Attribute) :
  _split_leveling leveling = Ok attrs ->
  map attribute attrs
  = map PyStr.slice_to_m1
        (Re.findall Re.rattribute (remove_extras leveling))
  /\ length attrs
     = length (Re.findall Re.rattribute (remove_extras leveling)).
Proof.
  unfold _split_leveling. intro H. inv_bind H. destruct a as [matches splits].
  simpl in H. apply mapM_from_string_names in H.
  assert (Hm : matches = map PyStr.slice_to_m1
                             (Re.findall Re.rattribute (remove_extras leveling))
               /\ length matches <= length splits).
  { rewrite match_and_split_cut_spans in Ha.
    destruct (PyStr.eqb (remove_extras leveling) pounce); [discriminate|].
    destruct (PyStr.eqb (remove_extras leveling) cougar); [discriminate|].
    destruct (Re.findall Re.rattribute (remove_extras leveling))
      as [|l ls] eqn:Hf.
    - inv_bind Ha. inversion Ha. split; [reflexivity | simpl; lia].
    - destruct (cut_spans_pieces _ _ _ Hf) as [pieces [Hlen [_ [_ Hcut]]]].
      pose proof (cut_spans_not_heimer _ _ Hcut) as Hnh.
      rewrite Hcut in Ha. simpl bind in Ha.
      destruct (list_eq_dec str_eq_dec
                  (map PyStr.strip (removelast pieces) ++ [last pieces []])
                  heimer_found) as [E|_]; [contradiction|].
      inversion Ha. split; [reflexivity|]. simpl length.
      rewrite length_app, !length_map, removelast_length, Hlen. simpl. lia. }
  destruct Hm as [Hm Hlen]. unfold zip in H. rewrite combine_fst in H by exact Hlen.
  split; [rewrite H; exact Hm|].
  rewrite <- (length_map attribute), H, Hm. apply length_map.
Qed.

Lemma split_leveling_names_witness :
  map attribute
      [mkAttribute (py "Damage")
         [mkAttributeModifier (py "+") (repeat (PInt 1) 5) (repeat (py "% AP") 5);
          mkAttributeModifier (py "+") (repeat (PInt 10) 5) (repeat [] 5)];
       mkAttribute (py "Cooldown")
         [mkAttributeModifier (py "+") (repeat (PInt 5) 5) (repeat [] 5)]]
  = map PyStr.slice_to_m1
        (Re.findall Re.rattribute (remove_extras (py "Damage: 10 (+ 1% AP) Cooldown: 5")))
  /\ length
       [mkAttribute (py "Damage")
          [mkAttributeModifier (py "+") (repeat (PInt 1) 5) (repeat (py "% AP") 5);
           mkAttributeModifier (py "+") (repeat (PInt 10) 5) (repeat [] 5)];
        mkAttribute (py "Cooldown")
          [mkAttributeModifier (py "+") (repeat (PInt 5) 5) (repeat [] 5)]]
     = length (Re.findall Re.rattribute
                 (remove_extras (py "Damage: 10 (+ 1% AP) Cooldown: 5"))).
Proof.
  apply (split_leveling_names (py "Damage: 10 (+ 1% AP) Cooldown: 5")). reflexivity.
Defined.


(** ** The exceptions of the parser *)

Lemma bind_Raise {A B : Type} (r : result A) (k : A -> result B) (e : exn) :
  bind r k = Raise e ->
  r = Raise e \/ exists a, r = Ok a /\ k a = Raise e.
Proof.
  destruct r as [a|e']; simpl; intro H.
  - right. exists a. split; [reflexivity | exact H].
  - left. inversion H. reflexivity.
Qed.

Lemma mapM_Raise {A B : Type} (f : A -> result B) (l : list A) (e : exn) :
  mapM f l = Raise e -> exists a, In a l /\ f a = Raise e.
Proof.
  induction l as [|a l IH]; simpl; intro H; [discriminate|].
  apply bind_Raise in H. destruct H as [H | [b [_ H]]].
  - exists a. split; [left; reflexivity | exact H].
  - apply bind_Raise in H. destruct H as [H | [bs [_ H]]]; [|discriminate].
    destruct (IH H) as [a' [Hin Ha']]. exists a'. split; [right|]; assumption.
Qed.

Lemma assert_Raise (b : bool) (e : exn) :
  assert b = Raise e -> e = AssertionError.
Proof. destruct b; simpl; intro H; inversion H. reflexivity. Qed.

Lemma eval_Raise (v : str) (e : exn) :
  PyNum.eval v = Raise e -> e = SyntaxError.
Proof.
  unfold PyNum.eval.
  destruct (Re.take_while Re.isdigit v) as [|d ds]; [intro H; inversion H; reflexivity|].
  destruct (skipn (length (d :: ds)) v) as [|c fs].
  - destruct (Ascii.eqb d "0" && negb (forallb (Ascii.eqb "0"%char) (d :: ds)));
      intro H; inversion H; reflexivity.
  - destruct (Ascii.eqb c "." && forallb Re.isdigit fs);
      intro H; inversion H; reflexivity.
Qed.

Lemma eval_number (v : str) (x : pyval) :
  PyNum.eval v = Ok x -> is_number x.
Proof.
  unfold PyNum.eval.
  destruct (Re.take_while Re.isdigit v) as [|d ds]; [discriminate|].
  destruct (skipn (length (d :: ds)) v) as [|c fs].
  - destruct (Ascii.eqb d "0" && negb (forallb (Ascii.eqb "0"%char) (d :: ds)));
      intro H; inversion H; exact I.
  - destruct (Ascii.eqb c "." && forallb Re.isdigit fs);
      intro H; inversion H; exact I.
Qed.

Lemma scaling_value_Raise (value : str) (e : exn) :
  scaling_value value = Raise e -> e = AssertionError \/ e = SyntaxError.
Proof.
  unfold scaling_value. destruct (Re.findall Re.rnumber value) as [|v vs]; intro H.
  - apply bind_Raise in H. destruct H as [H | [u [_ H]]]; [|discriminate].
    left. eapply assert_Raise. exact H.
  - apply bind_Raise in H. destruct H as [H | [u [_ H]]].
    + left. eapply assert_Raise. exact H.
    + apply bind_Raise in H. destruct H as [H | [x [_ H]]]; [|discriminate].
      right. eapply eval_Raise. exact H.
Qed.

Lemma flat_value_Raise (value : str) (e : exn) :
  flat_value value = Raise e -> e = AssertionError \/ e = SyntaxError.
Proof.
  unfold flat_value. intro H.
  apply bind_Raise in H. destruct H as [H | [u [Hlen H]]].
  - left. eapply assert_Raise. exact H.
  - destruct (Re.findall Re.rnumber value) as [|v vs]; [discriminate Hlen|].
    apply bind_Raise in H. destruct H as [H | [u' [_ H]]].
    + left. eapply assert_Raise. exact H.
    + apply bind_Raise in H. destruct H as [H | [x [_ H]]]; [|discriminate].
      right. eapply eval_Raise. exact H.
Qed.

Lemma to_float_Raise (v : pyval) (e : exn) :
  is_number v -> PyNum.to_float v = Raise e -> e = OverflowError.
Proof.
  destruct v as [z|f|s]; simpl; intros Hn H; [|discriminate|contradiction].
  unfold PyNum.float_of_int in H.
  destruct (PrimFloat.is_infinity _); inversion H. reflexivity.
Qed.

Lemma float_op_Raise (a b : pyval) (op : float -> float -> float) (e : exn) :
  is_number a -> is_number b ->
  (x <- PyNum.to_float a ;; y <- PyNum.to_float b ;; Ok (PFloat (op x y)))
  = Raise e ->
  e = OverflowError.
Proof.
  intros Ha Hb H. apply bind_Raise in H. destruct H as [H | [x [_ H]]].
  - apply (to_float_Raise a); assumption.
  - apply bind_Raise in H. destruct H as [H | [y [_ H]]]; [|discriminate].
    apply (to_float_Raise b); assumption.
Qed.

Lemma sub_Raise (a b : pyval) (e : exn) :
  is_number a -> is_number b -> PyNum.sub a b = Raise e -> e = OverflowError.
Proof.
  intros Ha Hb. destruct a as [x|x|x], b as [y|y|y]; simpl in Ha, Hb;
    try contradiction; try discriminate;
    apply (float_op_Raise _ _ PrimFloat.sub); exact I.
Qed.

Lemma mul_Raise (a b : pyval) (e : exn) :
  is_number a -> is_number b -> PyNum.mul a b = Raise e -> e = OverflowError.
Proof.
  intros Ha Hb. destruct a as [x|x|x], b as [y|y|y]; simpl in Ha, Hb;
    try contradiction; try discriminate;
    apply (float_op_Raise _ _ PrimFloat.mul); exact I.
Qed.

Lemma add_Raise (a b : pyval) (e : exn) :
  is_number a -> is_number b -> PyNum.add a b = Raise e -> e = OverflowError.
Proof.
  intros Ha Hb. destruct a as [x|x|x], b as [y|y|y]; simpl in Ha, Hb;
    try contradiction; try discriminate;
    apply (float_op_Raise _ _ PrimFloat.add); exact I.
Qed.

Lemma mul_number (a b x : pyval) :
  PyNum.mul a b = Ok x -> is_number x.
Proof.
  destruct a as [p|p|p], b as [q|q|q]; simpl; intro H;
    try (inversion H; exact I); try discriminate;
    repeat (apply bind_Ok in H; destruct H as [? [? H]]);
    try (inversion H; exact I); try discriminate.
Qed.

Lemma interpolate_Raise (minn maxx : pyval) (e : exn) :
  is_number minn -> is_number maxx ->
  interpolate minn maxx = Raise e -> e = OverflowError.
Proof.
  intros Hmin Hmax H. unfold interpolate in H.
  apply bind_Raise in H. destruct H as [H | [d [Hd H]]].
  - apply (sub_Raise maxx minn); assumption.
  - apply bind_Raise in H. destruct H as [H | [delta [Hdelta H]]].
    + unfold PyNum.truediv in H.
      apply bind_Raise in H. destruct H as [H | [x [_ H]]]; [|discriminate].
      eapply to_float_Raise; [|exact H].
      destruct minn as [p|p|p], maxx as [q|q|q]; simpl in Hmin, Hmax, Hd;
        try contradiction; try (inversion Hd; exact I);
        repeat (apply bind_Ok in Hd; destruct Hd as [? [? Hd]]);
        inversion Hd; exact I.
    + apply mapM_Raise in H. destruct H as [i [_ H]].
      apply bind_Raise in H. destruct H as [H | [p [Hp H]]].
      * apply (mul_Raise (PInt (Z.of_nat i)) delta); [exact I | | exact H].
        unfold PyNum.truediv in Hdelta. inv_bind Hdelta. inversion Hdelta.
        exact I.
      * apply (add_Raise minn p); [exact Hmin | | exact H].
        eapply mul_number. exact Hp.
Qed.

Lemma parse_flat_Raise (flat : str) (num_levels : nat) (e : exn) :
  _parse_flat flat num_levels = Raise e -> fragment_error e.
Proof.
  unfold _parse_flat, fragment_error.
  destruct (PyStr.contains flat (py "(based on level)")) eqn:Hl;
    [|destruct (PyStr.contains flat (py "(based on casts)")) eqn:Hc];
    simpl orb; cbv iota; intro H.
  - simpl bind in H.
    apply bind_Raise in H. destruct H as [H | [u [Hlen H]]];
      [left; eapply assert_Raise; exact H|].
    destruct (Re.findall Re.rnumber _) as [|v0 [|v1 vs]];
      try discriminate Hlen.
    apply bind_Raise in H. destruct H as [H | [minn [Hmin H]]];
      [right; left; eapply eval_Raise; exact H|].
    apply bind_Raise in H. destruct H as [H | [maxx [Hmax H]]];
      [right; left; eapply eval_Raise; exact H|].
    apply bind_Raise in H. destruct H as [H | [vs' [_ H]]]; [|discriminate].
    right. right. eapply interpolate_Raise; [| |exact H];
      eapply eval_number; eassumption.
  - simpl bind in H.
    apply bind_Raise in H. destruct H as [H | [u [Hlen H]]];
      [left; eapply assert_Raise; exact H|].
    destruct (Re.findall Re.rnumber _) as [|v0 [|v1 vs]];
      try discriminate Hlen.
    apply bind_Raise in H. destruct H as [H | [minn [Hmin H]]];
      [right; left; eapply eval_Raise; exact H|].
    apply bind_Raise in H. destruct H as [H | [maxx [Hmax H]]];
      [right; left; eapply eval_Raise; exact H|].
    apply bind_Raise in H. destruct H as [H | [vs' [_ H]]]; [|discriminate].
    right. right. eapply interpolate_Raise; [| |exact H];
      eapply eval_number; eassumption.
  - apply bind_Raise in H. destruct H as [H | [results [_ H]]].
    + apply mapM_Raise in H. destruct H as [value [_ H]].
      apply flat_value_Raise in H. tauto.
    + apply bind_Raise in H. destruct H as [H | [us [_ H]]]; [|discriminate].
      destruct (unique_units (map snd results)) as [|u others]; [discriminate|].
      apply bind_Raise in H. destruct H as [H | [x [_ H]]]; [|discriminate].
      left. eapply assert_Raise. exact H.
Qed.

(** The fragment of a match of [rscaling], stripped and taken out of its
    parentheses, begins with the sign. *)
Lemma unwrap_scaling_match (w : str) :
  exists t, unwrap (PyStr.strip (py "(+" ++ w ++ py ")")) = "+"%char :: t.
Proof.
  assert (Hstrip : PyStr.strip (py "(+" ++ w ++ py ")") = py "(+" ++ w ++ py ")").
  { simpl app. rewrite strip_cons by reflexivity. f_equal.
    rewrite rstrip_cons by reflexivity. f_equal.
    apply rstrip_app_tail. reflexivity. }
  rewrite Hstrip. unfold unwrap.
  assert (Hst : PyStr.startswith (py "(+" ++ w ++ py ")") (py "(") = true)
    by reflexivity.
  assert (Hen : PyStr.endswith (py "(+" ++ w ++ py ")") (py ")") = true).
  { unfold PyStr.endswith. change (py "(+" ++ w ++ py ")")
      with ((py "(+" ++ w) ++ py ")").
    rewrite rev_app_distr. reflexivity. }
  rewrite Hst, Hen. simpl andb. cbv iota.
  unfold PyStr.slice_1_m1.
  change (tl (py "(+" ++ w ++ py ")")) with ((py "+" ++ w) ++ [")"%char]).
  rewrite removelast_last. simpl app.
  rewrite strip_cons by reflexivity. eexists. reflexivity.
Qed.

Lemma parse_scaling_Raise (w : str) (num_levels : nat) (e : exn) :
  _parse_scaling (PyStr.strip (py "(+" ++ w ++ py ")")) num_levels = Raise e ->
  e = AssertionError \/ e = SyntaxError.
Proof.
  unfold _parse_scaling.
  fold (unwrap (PyStr.strip (py "(+" ++ w ++ py ")"))).
  destruct (unwrap_scaling_match w) as [t ->]. intro H.
  apply bind_Raise in H. destruct H as [H | [results [_ H]]]; [|discriminate].
  apply mapM_Raise in H. destruct H as [value [_ H]].
  eapply scaling_value_Raise. exact H.
Qed.

Lemma from_string_Raise (name split : str) (e : exn) :
  from_string name split = Raise e -> fragment_error e.
Proof.
  unfold from_string, fragment_error. intro H.
  apply bind_Raise in H. destruct H as [H | [scaled [_ H]]].
  - apply mapM_Raise in H. destruct H as [scaling [Hin H]].
    apply in_map_iff in Hin. destruct Hin as [g [<- Hg]].
    assert (Hw : exists w, g = py "(+" ++ w ++ py ")").
    { unfold Re.findall in Hg.
      apply (findall_from_In Re.rscaling
               (fun g => exists w, g = py "(+" ++ w ++ py ")"))
        with (s := split) (skip := 0); [|exact Hg].
      intros s g' n Hm. eapply rscaling_match. eassumption. }
    destruct Hw as [w ->]. apply parse_scaling_Raise in H. tauto.
  - apply bind_Raise in H. destruct H as [H | [flats [_ H]]]; [|discriminate].
    apply mapM_Raise in H. destruct H as [f [_ H]].
    eapply parse_flat_Raise. exact H.
Qed.

Lemma split_leveling_Raise (leveling : str) (e : exn) :
  _split_leveling leveling = Raise e ->
  e = UnparsableLeveling pounce \/ e = UnparsableLeveling cougar
  \/ fragment_error e.
Proof.
  unfold _split_leveling. intro H.
  apply bind_Raise in H. destruct H as [H | [[matches splits] [_ H]]].
  - rewrite match_and_split_cut_spans in H.
    destruct (PyStr.eqb (remove_extras leveling) pounce) eqn:Ep.
    { apply pystr_eqb_eq in Ep. rewrite Ep in H. inversion H. tauto. }
    destruct (PyStr.eqb (remove_extras leveling) cougar) eqn:Ec.
    { apply pystr_eqb_eq in Ec. rewrite Ec in H. inversion H. tauto. }
    exfalso.
    destruct (Re.findall Re.rattribute (remove_extras leveling))
      as [|l ls] eqn:Hf.
    + rewrite (cut_spans_no_label _ Hf) in H. discriminate H.
    + destruct (cut_spans_pieces _ _ _ Hf) as [pieces [_ [_ [_ Hcut]]]].
      rewrite Hcut in H. discriminate H.
  - simpl in H. apply mapM_Raise in H. destruct H as [[name split] [_ H]].
    right. right. eapply from_string_Raise. exact H.
Qed.

(** The exceptions of [from_string]: a failed assertion, a [SyntaxError] of
    [eval] or an [OverflowError] of the float arithmetic.  It raises no
    [IndexError] (the fragment of a scaling is never empty, the lists it
    indexes have passed their length assertion), no [TypeError] and never
    the [RuntimeError] of the flat path. *)
Theorem from_string_errors (name split : str) (e : exn) :
  from_string name split = Raise e ->
  e = AssertionError \/ e = SyntaxError \/ e = OverflowError.
Proof. apply from_string_Raise. Qed.

Lemma from_string_errors_witness :
  SyntaxError = AssertionError \/ SyntaxError = SyntaxError
  \/ SyntaxError = OverflowError.
Proof.
  apply (from_string_errors (py "Damage") (py "Damage: 007")). reflexivity.
Defined.

(** The exceptions of [_parse_leveling]: [UnparsableLeveling] with one of
    the two hard-coded texts, or one of the three exceptions of
    [from_string].  No [ValueError] of the segmenter's [index] call and no
    [IndexError] escapes. *)
Theorem parse_leveling_errors (html_text : str -> str) (leveling skill : str)
  (e : exn) :
  _parse_leveling html_text leveling skill = Raise e ->
  e = UnparsableLeveling pounce \/ e = UnparsableLeveling cougar
  \/ e = AssertionError \/ e = SyntaxError \/ e = OverflowError.
Proof.
  unfold _parse_leveling. intro H.
  apply bind_Raise in H. destruct H as [H | [results [_ H]]]; [|discriminate].
  apply split_leveling_Raise in H. exact H.
Qed.

Lemma parse_leveling_errors_witness :
  UnparsableLeveling pounce = UnparsableLeveling pounce
  \/ UnparsableLeveling pounce = UnparsableLeveling cougar
  \/ UnparsableLeveling pounce = AssertionError
  \/ UnparsableLeveling pounce = SyntaxError
  \/ UnparsableLeveling pounce = OverflowError.
Proof.
  apply (parse_leveling_errors (fun markup => markup) pounce (py "Q")).
  reflexivity.
Defined.


(** ** The literals handed to [eval] *)










(** ** The text before it is parsed *)

(** The replacement of one character is a replacement character by
    character. *)
Lemma replace_char (s : str) (c : ascii) (new : str) :
  PyStr.replace s [c] new
  = flat_map (fun x => if Ascii.eqb c x then new else [x]) s.
Proof.
  unfold PyStr.replace.
  induction s as [|x s IH]; [reflexivity|].
  simpl. destruct (Ascii.eqb c x); simpl; rewrite <- IH; reflexivity.
Qed.

Lemma lstrip_fixed (s : str) :
  match s with
  | [] => True
  | c :: _ => PyStr.isspace c = false
  end -> PyStr.lstrip s = s.
Proof. destruct s as [|c s]; simpl; [reflexivity|]. intros ->. reflexivity. Qed.

Lemma lstrip_head (s : str) :
  match PyStr.lstrip s with
  | [] => True
  | c :: _ => PyStr.isspace c = false
  end.
Proof.
  induction s as [|c s IH]; simpl; [exact I|].
  destruct (PyStr.isspace c) eqn:E; [exact IH | exact E].
Qed.

Lemma lstrip_suffix (s : str) : exists a, s = a ++ PyStr.lstrip s.
Proof.
  induction s as [|c s [a IH]]; simpl; [exists []; reflexivity|].
  destruct (PyStr.isspace c).
  - exists (c :: a). simpl. f_equal. exact IH.
  - exists []. reflexivity.
Qed.

(** A stripped text neither begins nor ends with white space. *)
Lemma strip_ends (s : str) :
  match PyStr.strip s with
  | [] => True
  | c :: _ => PyStr.isspace c = false
  end
  /\ match rev (PyStr.strip s) with
     | [] => True
     | c :: _ => PyStr.isspace c = false
     end.
Proof.
  unfold PyStr.strip, PyStr.rstrip. rewrite rev_involutive. split.
  - pose proof (lstrip_head s) as Hh.
    pose proof (lstrip_head (rev (PyStr.lstrip s))) as Ht.
    destruct (lstrip_suffix (rev (PyStr.lstrip s))) as [a Ha].
    destruct (PyStr.lstrip s) as [|c t] eqn:E; [exact I|].
    apply (f_equal (@rev _)) in Ha. rewrite rev_involutive, rev_app_distr in Ha.
    destruct (rev (PyStr.lstrip (rev (c :: t)))) as [|d u] eqn:Eu.
    + exact I.
    + simpl in Ha. inversion Ha. subst d. exact Hh.
  - apply lstrip_head.
Qed.

Lemma strip_fixed (s : str) :
  match s with
  | [] => True
  | c :: _ => PyStr.isspace c = false
  end ->
  match rev s with
  | [] => True
  | c :: _ => PyStr.isspace c = false
  end ->
  PyStr.strip s = s.
Proof.
  intros Hh Ht. unfold PyStr.strip, PyStr.rstrip.
  rewrite (lstrip_fixed s Hh), (lstrip_fixed (rev s) Ht).
  apply rev_involutive.
Qed.

Lemma flat_map_head {A B : Type} (f : A -> list B) (a : A) (l : list A) :
  flat_map f (a :: l) = f a ++ flat_map f l.
Proof. reflexivity. Qed.

(** A replacement that leaves the characters other than white space alone
    keeps the two ends of a text that has no white space there. *)
Lemma flat_map_ends (g : ascii -> str) (s : str) :
  (forall x, PyStr.isspace x = false -> g x = [x]) ->
  match s with
  | [] => True
  | c :: _ => PyStr.isspace c = false
  end ->
  match rev s with
  | [] => True
  | c :: _ => PyStr.isspace c = false
  end ->
  match flat_map g s with
  | [] => True
  | c :: _ => PyStr.isspace c = false
  end
  /\ match rev (flat_map g s) with
     | [] => True
     | c :: _ => PyStr.isspace c = false
     end.
Proof.
  intros Hg Hh Ht. split.
  - destruct s as [|c u]; [exact I|].
    rewrite flat_map_head, (Hg c Hh). exact Hh.
  - destruct (rev s) as [|c u] eqn:E.
    + apply (f_equal (@rev _)) in E. rewrite rev_involutive in E.
      rewrite E. exact I.
    + apply (f_equal (@rev _)) in E. rewrite rev_involutive in E.
      rewrite E. change (rev (c :: u)) with (rev u ++ [c]).
      rewrite flat_map_app, flat_map_head, (Hg c Ht).
      change (flat_map g []) with (@nil ascii).
      rewrite rev_app_distr. exact Ht.
Qed.

(** The text that [_preparse_format] returns holds no non-breaking space
    and neither begins nor ends with white space: stripping it again changes
    nothing, and the replacement of the non-breaking spaces, which comes
    after the stripping, leaves none at either end. *)
Theorem preparsed_text_is_clean (html_text : str -> str) (leveling : str) :
  ~ In nbsp (_preparse_format html_text leveling)
  /\ PyStr.strip (_preparse_format html_text leveling)
     = _preparse_format html_text leveling.
Proof.
  unfold _preparse_format.
  set (t := html_text _). rewrite replace_char.
  split.
  - intro Hin. apply in_flat_map in Hin. destruct Hin as [x [_ Hx]].
    destruct (Ascii.eqb nbsp x) eqn:E.
    + destruct Hx as [Hx|[]]. discriminate Hx.
    + destruct Hx as [Hx|[]]. subst x.
      rewrite Ascii.eqb_refl in E. discriminate.
  - destruct (strip_ends t) as [Hh Ht].
    destruct (flat_map_ends
                (fun x => if Ascii.eqb nbsp x then py " " else [x])
                (PyStr.strip t)) as [Hh' Ht']; try assumption.
    + intros x Hx. destruct (Ascii.eqb nbsp x) eqn:E; [|reflexivity].
      apply Ascii.eqb_eq in E. subst x. discriminate Hx.
    + apply strip_fixed; assumption.
Qed.

(** ** The iterator helpers *)

(** A round in which every position still refers to the iterator and the
    iterator has an item for each of them. *)
Lemma round_full {A : Type} (fillvalue : A) (m num_active : nat) (it : list A) :
  m <= length it ->
  zip_longest_round fillvalue (repeat true m) num_active it
  = Some (firstn m it, repeat true m, num_active, skipn m it).
Proof.
  revert it. induction m as [|m IH]; intros it Hlen; [reflexivity|].
  destruct it as [|x it]; simpl in Hlen; [lia|].
  simpl. rewrite IH by lia. reflexivity.
Qed.

(** The positions that find the iterator exhausted are replaced and filled,
    as long as another position is still active. *)
Lemma round_exhausted {A : Type} (fillvalue : A) (m num_active : nat) :
  m < num_active ->
  zip_longest_round fillvalue (repeat true m) num_active []
  = Some (repeat fillvalue m, repeat false m, num_active - m, []).
Proof.
  revert num_active. induction m as [|m IH]; intros na Hlt; simpl.
  - rewrite Nat.sub_0_r. reflexivity.
  - destruct (na - 1 =? 0) eqn:E; [apply Nat.eqb_eq in E; lia|].
    rewrite IH by lia. replace (na - 1 - m) with (na - S m) by lia.
    reflexivity.
Qed.

(** The round ends the generator when the last active position finds the
    iterator exhausted. *)
Lemma round_stops {A : Type} (fillvalue : A) (m num_active : nat) (rest : list bool) :
  1 <= num_active <= m ->
  zip_longest_round fillvalue (repeat true m ++ rest) num_active [] = None.
Proof.
  revert num_active. induction m as [|m IH]; intros na Hna; [lia|].
  simpl. destruct (na - 1 =? 0) eqn:E; [reflexivity|].
  apply Nat.eqb_neq in E. rewrite IH by lia. reflexivity.
Qed.

Lemma round_app {A : Type} (fillvalue : A) (its1 its2 : list bool) (na : nat)
  (it : list A) :
  zip_longest_round fillvalue (its1 ++ its2) na it
  = match zip_longest_round fillvalue its1 na it with
    | Some (v1, i1, na1, it1) =>
        match zip_longest_round fillvalue its2 na1 it1 with
        | Some (v2, i2, na2, it2) => Some (v1 ++ v2, i1 ++ i2, na2, it2)
        | None => None
        end
    | None => None
    end.
Proof.
  revert na it. induction its1 as [|s its1 IH]; intros na it; simpl.
  - destruct (zip_longest_round fillvalue its2 na it) as [[[[v2 i2] na2] it2]|];
      reflexivity.
  - destruct s.
    + destruct it as [|x it].
      * destruct (na - 1 =? 0); [reflexivity|]. rewrite IH.
        destruct (zip_longest_round fillvalue its1 (na - 1) [])
          as [[[[v1 i1] na1] it1]|]; [|reflexivity].
        destruct (zip_longest_round fillvalue its2 na1 it1)
          as [[[[v2 i2] na2] it2]|]; reflexivity.
      * rewrite IH.
        destruct (zip_longest_round fillvalue its1 na it)
          as [[[[v1 i1] na1] it1]|]; [|reflexivity].
        destruct (zip_longest_round fillvalue its2 na1 it1)
          as [[[[v2 i2] na2] it2]|]; reflexivity.
    + rewrite IH.
      destruct (zip_longest_round fillvalue its1 na it)
        as [[[[v1 i1] na1] it1]|]; [|reflexivity].
      destruct (zip_longest_round fillvalue its2 na1 it1)
        as [[[[v2 i2] na2] it2]|]; reflexivity.
Qed.

(** The last tuple: fewer items are left than the tuple has positions. *)
Lemma round_partial {A : Type} (fillvalue : A) (n : nat) (it : list A) :
  0 < length it < n ->
  zip_longest_round fillvalue (repeat true n) n it
  = Some (it ++ repeat fillvalue (n - length it),
          repeat true (length it) ++ repeat false (n - length it),
          length it, []).
Proof.
  intros Hlen.
  replace n with (length it + (n - length it)) at 1 by lia.
  rewrite repeat_app, round_app, round_full by lia.
  rewrite firstn_all, skipn_all.
  rewrite round_exhausted by lia.
  replace (n - (n - length it)) with (length it) by lia.
  reflexivity.
Qed.

(** The tuples of the loop, for every amount of fuel above the number of
    items: they have [n] entries each, and together they are the items
    followed by fewer than [n] fill values. *)
Lemma zip_longest_loop_chunks {A : Type} (fillvalue : A) (n : nat) :
  0 < n ->
  forall (k : nat) (it : list A) (fuel : nat),
    length it <= k -> length it < fuel ->
    exists pad : nat,
      pad < n
      /\ concat (zip_longest_loop fuel fillvalue (repeat true n) n it)
         = it ++ repeat fillvalue pad
      /\ Forall (fun t => length t = n)
                (zip_longest_loop fuel fillvalue (repeat true n) n it)
      /\ length (zip_longest_loop fuel fillvalue (repeat true n) n it) * n
         = length it + pad.
Proof.
  intros Hn k. induction k as [|k IH]; intros it fuel Hk Hfuel.
  - destruct it; [|simpl in Hk; lia].
    destruct fuel as [|fuel]; [simpl in Hfuel; lia|]. simpl zip_longest_loop.
    pose proof (round_stops fillvalue n n [] ltac:(lia)) as Hs.
    rewrite app_nil_r in Hs. rewrite Hs.
    exists 0. repeat split; [lia | constructor].
  - destruct fuel as [|fuel]; [lia|].
    destruct (Nat.eq_dec (length it) 0) as [H0|H0].
    + destruct it; [|discriminate H0]. simpl zip_longest_loop.
      pose proof (round_stops fillvalue n n [] ltac:(lia)) as Hs.
      rewrite app_nil_r in Hs. rewrite Hs.
      exists 0. repeat split; [lia | constructor].
    + destruct (le_lt_dec n (length it)) as [Hfull|Hpart].
      * simpl zip_longest_loop. rewrite round_full by exact Hfull.
        assert (Hsk : length (skipn n it) = length it - n)
          by apply length_skipn.
        destruct (IH (skipn n it) fuel ltac:(lia) ltac:(lia))
          as [pad [Hpad [Hcat [Hall Hcount]]]].
        exists pad. split; [exact Hpad|]. split; [|split].
        -- simpl concat. rewrite Hcat, app_assoc, firstn_skipn. reflexivity.
        -- constructor; [|exact Hall]. rewrite length_firstn. lia.
        -- simpl length. rewrite Nat.mul_succ_l, Hcount. lia.
      * simpl zip_longest_loop. rewrite round_partial by lia.
        destruct fuel as [|fuel]; [lia|]. simpl zip_longest_loop.
        rewrite round_stops by lia.
        exists (n - length it). split; [lia|]. split; [|split].
        -- simpl. rewrite app_nil_r. reflexivity.
        -- constructor; [|constructor]. rewrite length_app, repeat_length. lia.
        -- simpl. lia.
Qed.

Lemma zip_longest_loop_fuel {A : Type} (fillvalue : A) (n : nat) :
  0 < n ->
  forall (k : nat) (it : list A) (fuel fuel' : nat),
    length it <= k -> length it < fuel -> length it < fuel' ->
    zip_longest_loop fuel fillvalue (repeat true n) n it
    = zip_longest_loop fuel' fillvalue (repeat true n) n it.
Proof.
  intros Hn k. induction k as [|k IH]; intros it fuel fuel' Hk Hf Hf';
    (destruct fuel as [|fuel]; [lia|]); (destruct fuel' as [|fuel']; [lia|]);
    simpl zip_longest_loop.
  - destruct it; [|simpl in Hk; lia].
    pose proof (round_stops fillvalue n n [] ltac:(lia)) as Hs.
    rewrite app_nil_r in Hs. rewrite Hs. reflexivity.
  - destruct (le_lt_dec n (length it)) as [Hfull|Hpart].
    + rewrite round_full by exact Hfull. f_equal.
      assert (Hsk : length (skipn n it) = length it - n)
        by apply length_skipn.
      apply IH; lia.
    + destruct (Nat.eq_dec (length it) 0) as [H0|H0].
      * destruct it; [|discriminate H0].
        pose proof (round_stops fillvalue n n [] ltac:(lia)) as Hs.
        rewrite app_nil_r in Hs. rewrite Hs. reflexivity.
      * rewrite round_partial by lia. f_equal.
        destruct fuel as [|fuel]; [lia|]. destruct fuel' as [|fuel']; [lia|].
        simpl zip_longest_loop. rewrite round_stops by lia. reflexivity.
Qed.

(** The example of the docstring of [grouper]. *)
Example grouper_docstring :
  grouper (py "ABCDEFG") 3 "x"%char = [py "ABC"; py "DEF"; py "Gxx"].
Proof. reflexivity. Qed.

(** [grouper] cuts the items into tuples of exactly [n] entries, in the
    order of the items: the tuples laid end to end are the items followed by
    fewer than [n] fill values, so only the last tuple is filled and no
    item is lost or repeated.  The loop of [zip_longest] has come to its
    end: more rounds yield no further tuple. *)
Theorem grouper_chunks {A : Type} (iterable : list A) (n : nat)
  (fillvalue : A) :
  0 < n ->
  exists pad : nat,
    pad < n
    /\ concat (grouper iterable n fillvalue) = iterable ++ repeat fillvalue pad
    /\ Forall (fun t => length t = n) (grouper iterable n fillvalue)
    /\ length (grouper iterable n fillvalue) * n = length iterable + pad
    /\ forall fuel : nat,
         length iterable < fuel ->
         zip_longest_loop fuel fillvalue (repeat true n) n iterable
         = grouper iterable n fillvalue.
Proof.
  intro Hn. unfold grouper.
  destruct (n =? 0) eqn:E; [apply Nat.eqb_eq in E; lia|].
  destruct (zip_longest_loop_chunks fillvalue n Hn (length iterable) iterable
              (S (length iterable)) (le_n _) (Nat.lt_succ_diag_r _))
    as [pad [Hpad [Hcat [Hall Hcount]]]].
  exists pad. repeat split; try assumption.
  intros fuel Hfuel.
  apply (zip_longest_loop_fuel fillvalue n Hn (length iterable)); lia.
Qed.

Lemma grouper_chunks_witness :
  exists pad : nat,
    pad < 3
    /\ concat (grouper (py "ABCDEFG") 3 "x"%char)
       = py "ABCDEFG" ++ repeat "x"%char pad
    /\ Forall (fun t => length t = 3) (grouper (py "ABCDEFG") 3 "x"%char)
    /\ length (grouper (py "ABCDEFG") 3 "x"%char) * 3
       = length (py "ABCDEFG") + pad
    /\ forall fuel : nat,
         length (py "ABCDEFG") < fuel ->
         zip_longest_loop fuel "x"%char (repeat true 3) 3 (py "ABCDEFG")
         = grouper (py "ABCDEFG") 3 "x"%char.
Proof. apply (grouper_chunks (py "ABCDEFG") 3 "x"%char). lia. Defined.

Lemma combine_nth_lt {A B : Type} (l : list A) (l' : list B) (i : nat)
  (d : A) (d' : B) :
  i < length l -> i < length l' ->
  nth i (combine l l') (d, d') = (nth i l d, nth i l' d').
Proof.
  revert l' i. induction l as [|a l IH]; intros l' i Hl Hl';
    [simpl in Hl; lia|].
  destruct l' as [|b l']; [simpl in Hl'; lia|].
  destruct i as [|i]; [reflexivity|]. simpl in *. apply IH; lia.
Qed.

(** [pairwise] pairs every item but the last with the item that follows it,
    in order: a list of [k] items gives [k - 1] pairs, none for an empty
    list or a single item. *)
Theorem pairwise_consecutive {A : Type} (iterable : list A) (d : A) :
  length (pairwise iterable) = length iterable - 1
  /\ forall i : nat,
       i < length iterable - 1 ->
       nth i (pairwise iterable) (d, d)
       = (nth i iterable d, nth (S i) iterable d).
Proof.
  unfold pairwise, zip. destruct iterable as [|x l]; [split; [reflexivity|]|].
  - simpl. intros i Hi. lia.
  - change (tl (x :: l)) with l. split.
    + rewrite length_combine. simpl length. lia.
    + intros i Hi. simpl length in Hi.
      rewrite combine_nth_lt by (simpl length; lia). reflexivity.
Qed.


(** ** Dictionaries *)

Lemma pystr_eqb_sym (a b : str) : PyStr.eqb a b = PyStr.eqb b a.
Proof.
  destruct (PyStr.eqb a b) eqn:E.
  - apply pystr_eqb_eq in E. subst. symmetry. apply pystr_eqb_refl.
  - destruct (PyStr.eqb b a) eqn:E'; [|reflexivity].
    apply pystr_eqb_eq in E'. subst. rewrite pystr_eqb_refl in E.
    discriminate.
Qed.

Lemma dict_set_keys {V : Type} (d : dict V) (k : str) (v : V) :
  forall k', In k' (map fst (dict_set d k v)) <-> k' = k \/ In k' (map fst d).
Proof.
  induction d as [|[k0 v0] d IH]; intro k'; simpl.
  - intuition congruence.
  - destruct (PyStr.eqb k0 k) eqn:E; simpl.
    + apply pystr_eqb_eq in E. subst. intuition congruence.
    + rewrite IH. tauto.
Qed.

Lemma dict_set_NoDup {V : Type} (d : dict V) (k : str) (v : V) :
  NoDup (map fst d) -> NoDup (map fst (dict_set d k v)).
Proof.
  induction d as [|[k0 v0] d IH]; simpl; intro H.
  - constructor; [intros []|constructor].
  - inversion H as [|x l Hnot Hnd]. subst.
    destruct (PyStr.eqb k0 k) eqn:E; simpl.
    + apply pystr_eqb_eq in E. subst. constructor; assumption.
    + constructor; [|apply IH; exact Hnd].
      rewrite dict_set_keys. intros [Hk|Hk]; [|contradiction].
      subst. rewrite pystr_eqb_refl in E. discriminate.
Qed.

Lemma dict_set_In {V : Type} (d : dict V) (k : str) (v : V) :
  NoDup (map fst d) ->
  forall k' v',
    In (k', v') (dict_set d k v)
    <-> (k' = k /\ v' = v) \/ (k' <> k /\ In (k', v') d).
Proof.
  induction d as [|[k0 v0] d IH]; simpl; intros Hnd k' v'.
  - split.
    + intros [H|[]]. inversion H. left. split; reflexivity.
    + intros [[-> ->]|[_ []]]. left. reflexivity.
  - inversion Hnd as [|x l Hnot Hnd']. subst.
    destruct (PyStr.eqb k0 k) eqn:E; simpl.
    + apply pystr_eqb_eq in E. subst k0. split.
      * intros [H|H]; [inversion H; left; split; reflexivity|].
        right. split; [|right; exact H].
        intros ->. apply Hnot. apply (in_map fst) in H. exact H.
      * intros [[-> ->]|[Hne [H|H]]]; [left; reflexivity | | right; exact H].
        inversion H. subst. contradiction.
    + assert (Hne : k0 <> k).
      { intros ->. rewrite pystr_eqb_refl in E. discriminate. }
      rewrite (IH Hnd'). split.
      * intros [H|[H|H]];
          [inversion H; subst; right; split; [exact Hne|left; reflexivity]
          | left; exact H |].
        right. split; [tauto | right; tauto].
      * intros [H|[Hk [H|H]]]; [right; left; exact H | left; exact H |].
        right. right. split; assumption.
Qed.

Lemma dict_get_In {V : Type} (d : dict V) (k : str) (v : V) :
  NoDup (map fst d) -> (dict_get d k = Some v <-> In (k, v) d).
Proof.
  induction d as [|[k0 v0] d IH]; simpl; intro Hnd.
  - split; [discriminate | intros []].
  - inversion Hnd as [|x l Hnot Hnd']. subst.
    destruct (PyStr.eqb k0 k) eqn:E.
    + apply pystr_eqb_eq in E. subst k0. split.
      * intro H. inversion H. left. reflexivity.
      * intros [H|H]; [inversion H; reflexivity|].
        exfalso. apply Hnot. apply (in_map fst) in H. exact H.
    + rewrite (IH Hnd'). split; [tauto|].
      intros [H|H]; [|exact H]. inversion H. subst.
      rewrite pystr_eqb_refl in E. discriminate.
Qed.

Lemma dict_get_None {V : Type} (d : dict V) (k : str) :
  dict_get d k = None <-> ~ In k (map fst d).
Proof.
  induction d as [|[k0 v0] d IH]; simpl.
  - tauto.
  - destruct (PyStr.eqb k0 k) eqn:E.
    + apply pystr_eqb_eq in E. subst. split; [discriminate | tauto].
    + rewrite IH. split; [|tauto]. intros H [H'|H']; [|tauto].
      subst. rewrite pystr_eqb_refl in E. discriminate.
Qed.

Lemma dict_get_Some_In {V : Type} (d : dict V) (k : str) (v : V) :
  dict_get d k = Some v -> In (k, v) d.
Proof.
  induction d as [|[k0 v0] d IH]; simpl; [discriminate|].
  destruct (PyStr.eqb k0 k) eqn:E.
  - apply pystr_eqb_eq in E. subst. intro H. inversion H. left. reflexivity.
  - intro H. right. apply IH. exact H.
Qed.

Lemma dict_set_fresh {V : Type} (d : dict V) (k : str) (v : V) :
  ~ In k (map fst d) -> dict_set d k v = d ++ [(k, v)].
Proof.
  induction d as [|[k0 v0] d IH]; simpl; intro H; [reflexivity|].
  destruct (PyStr.eqb k0 k) eqn:E.
  - apply pystr_eqb_eq in E. subst. exfalso. apply H. left. reflexivity.
  - rewrite IH; [reflexivity|]. intro Hin. apply H. right. exact Hin.
Qed.

Lemma NoDup_snd_injective {A B : Type} (l : list (A * B)) (a a' : A) (b : B) :
  NoDup (map snd l) -> In (a, b) l -> In (a', b) l -> a = a'.
Proof.
  induction l as [|[x y] l IH]; simpl; intros Hnd Ha Ha'; [contradiction|].
  inversion Hnd as [|z zs Hnot Hnd']. subst.
  destruct Ha as [Ha|Ha], Ha' as [Ha'|Ha'].
  - congruence.
  - inversion Ha. subst. exfalso. apply Hnot.
    apply (in_map snd) in Ha'. exact Ha'.
  - inversion Ha'. subst. exfalso. apply Hnot.
    apply (in_map snd) in Ha. exact Ha.
  - apply IH; assumption.
Qed.

Lemma Forall2_In_l {A B : Type} (R : A -> B -> Prop) (l : list A)
  (l' : list B) (a : A) :
  Forall2 R l l' -> In a l -> exists b, In b l' /\ R a b.
Proof.
  induction 1 as [|x y l l' Hxy _ IH]; simpl; intro Hin; [contradiction|].
  destruct Hin as [<- | Hin].
  - exists y. split; [left; reflexivity | exact Hxy].
  - destruct (IH Hin) as [b [Hb HR]]. exists b. split; [right|]; assumption.
Qed.

(** ** The tuples of [grouper] by position *)

Lemma chunks_nth {A : Type} (rows : list (list A)) (d : A) :
  Forall (fun t => length t = 3) rows ->
  forall i : nat,
    i < length rows ->
    nth i rows []
    = [nth (3 * i) (concat rows) d; nth (3 * i + 1) (concat rows) d;
       nth (3 * i + 2) (concat rows) d].
Proof.
  induction 1 as [|row rows Hrow _ IH]; intros i Hi; [simpl in Hi; lia|].
  destruct row as [|a [|b [|c [|x row]]]]; try discriminate Hrow.
  destruct i as [|i].
  - reflexivity.
  - simpl nth at 1. simpl length in Hi. rewrite (IH i) by lia.
    replace (3 * S i) with (S (S (S (3 * i)))) by lia.
    reflexivity.
Qed.

Lemma nth_padded {A : Type} (l : list A) (pad j : nat) :
  nth j (map Some l ++ repeat None pad) None = nth_error l j.
Proof.
  revert j. induction l as [|a l IH]; intro j; simpl.
  - rewrite nth_repeat. destruct j; reflexivity.
  - destruct j; [reflexivity | apply IH].
Qed.

(** The tuple of index [i] holds the elements of indices [3 i], [3 i + 1]
    and [3 i + 2], and [None] where the list has ended; there is a tuple for
    every index whose first element exists. *)
Lemma grouper_rows {A : Type} (l : list A) :
  let rows := grouper (map Some l) 3 None in
  (forall i, i < length rows <-> 3 * i < length l)
  /\ forall i, i < length rows ->
       nth i rows []
       = [nth_error l (3 * i); nth_error l (3 * i + 1);
          nth_error l (3 * i + 2)].
Proof.
  intro rows.
  destruct (grouper_chunks (map Some l) 3 None ltac:(lia))
    as [pad [Hpad [Hcat [Hall [Hcount _]]]]].
  fold rows in Hcat, Hall, Hcount. rewrite length_map in Hcount. split.
  - intro i. lia.
  - intros i Hi. rewrite (chunks_nth rows None Hall i Hi), Hcat.
    rewrite !nth_padded. reflexivity.
Qed.


(** ** The table of an ability *)

Lemma pystr_eqb_nil (s : str) : PyStr.eqb s [] = false <-> s <> [].
Proof.
  destruct s; simpl; split; intro H; try reflexivity; try discriminate.
  contradiction.
Qed.

Lemma existsb_pystr (k : str) (l : list str) :
  existsb (PyStr.eqb k) l = true <-> In k l.
Proof.
  rewrite existsb_exists. split.
  - intros [x [Hx E]]. apply pystr_eqb_eq in E. subst. exact Hx.
  - intro H. exists k. split; [exact H | apply pystr_eqb_refl].
Qed.

Lemma skipn_cons_nth {A : Type} (l : list A) (i : nat) (x : A) (r : list A)
  (d : A) :
  skipn i l = x :: r -> i < length l /\ nth i l d = x /\ skipn (S i) l = r.
Proof.
  revert i. induction l as [|a l IH]; intros i H.
  - destruct i; discriminate H.
  - destruct i as [|i].
    + inversion H. simpl. repeat split. lia.
    + simpl in H. destruct (IH i H) as [H1 [H2 H3]]. simpl. repeat split;
        [lia | exact H2 | exact H3].
Qed.

Lemma table_rows_cons (parameter value desc : option Tag)
  (rows : list (list (option Tag))) (i : nat) (exclude_parameters : list str)
  (data : dict Tag) :
  table_rows ([parameter; value; desc] :: rows) i exclude_parameters data
  = match value with
    | None => table_rows rows (S i) exclude_parameters data
    | Some value =>
        parameter <~
          (if i =? 0 then Return (py "name")
           else match parameter with
                | Some parameter => Return (PyStr.strip (tag_text parameter))
                | None => Throw AttributeError
                end) ;;
        table_rows rows (S i) exclude_parameters
          (if negb (PyStr.eqb (PyStr.strip (tag_text value)) [])
              && negb (existsb (PyStr.eqb parameter) exclude_parameters)
           then dict_set data parameter value
           else data)
    end.
Proof. reflexivity. Qed.

Section FirstLoop.

Variable table : list Tag.
Variable exclude_parameters : list str.

Let allrows := grouper (map Some table) 3 None.

(** A row that the loop passes over leaves the entries as they are. *)
Lemma rows_entries_skip (i : nat) (data : dict Tag) :
  (forall v, ~ row_kept table exclude_parameters i v) ->
  rows_entries table exclude_parameters i data ->
  rows_entries table exclude_parameters (S i) data.
Proof.
  intros Hno [Hnd [Hent Hkeys]]. split; [exact Hnd|]. split.
  - intros k v. rewrite Hent. split.
    + intros [i0 [Hi0 [Hk [Hkey Hlast]]]]. exists i0.
      split; [lia|]. split; [exact Hk|]. split; [exact Hkey|].
      intros j v' Hj Hkj. destruct (Nat.eq_dec j i) as [->|Hne].
      * exfalso. exact (Hno v' Hkj).
      * apply (Hlast j v'); [lia | exact Hkj].
    + intros [i0 [Hi0 [Hk [Hkey Hlast]]]].
      assert (i0 <> i) by (intros ->; exact (Hno v Hk)).
      exists i0. split; [lia|]. split; [exact Hk|]. split; [exact Hkey|].
      intros j v' Hj. apply Hlast. lia.
  - intros i0 v Hi0 Hk.
    assert (i0 <> i) by (intros ->; exact (Hno v Hk)).
    apply (Hkeys i0 v); [lia | exact Hk].
Qed.

(** A row that the loop keeps sets its key to its cell. *)
Lemma rows_entries_keep (i : nat) (value : Tag) (data : dict Tag) :
  row_kept table exclude_parameters i value ->
  rows_entries table exclude_parameters i data ->
  rows_entries table exclude_parameters (S i)
               (dict_set data (row_key table i) value).
Proof.
  intros Hkept [Hnd [Hent Hkeys]]. split; [apply dict_set_NoDup; exact Hnd|].
  split.
  - intros k v. rewrite (dict_set_In data _ _ Hnd). split.
    + intros [[-> ->] | [Hne Hin]].
      * exists i. split; [lia|]. split; [exact Hkept|]. split; [reflexivity|].
        intros j v' Hj. lia.
      * apply Hent in Hin. destruct Hin as [i0 [Hi0 [Hk [Hkey Hlast]]]].
        exists i0. split; [lia|]. split; [exact Hk|]. split; [exact Hkey|].
        intros j v' Hj Hkj. destruct (Nat.eq_dec j i) as [->|Hji].
        -- intro E. apply Hne. symmetry. exact E.
        -- apply (Hlast j v'); [lia | exact Hkj].
    + intros [i0 [Hi0 [Hk [Hkey Hlast]]]].
      destruct (Nat.eq_dec i0 i) as [->|Hne].
      * left. split; [exact Hkey|].
        destruct Hk as [Hv _]. destruct Hkept as [Hv' _].
        rewrite Hv in Hv'. inversion Hv'. reflexivity.
      * right. split.
        -- intro E. apply (Hlast i value); [lia | exact Hkept |].
           symmetry. exact E.
        -- apply Hent. exists i0. split; [lia|]. split; [exact Hk|].
           split; [exact Hkey|]. intros j v' Hj. apply Hlast. lia.
  - intros i0 v Hi0 Hk. apply dict_set_keys.
    destruct (Nat.eq_dec i0 i) as [->|Hne]; [left; reflexivity|].
    right. apply (Hkeys i0 v); [lia | exact Hk].
Qed.

(** The first loop raises nothing on the tuples of [grouper], and fills the
    dictionary with the entries of the kept rows. *)
Lemma table_rows_entries :
  forall (rows : list (list (option Tag))) (i : nat) (data : dict Tag),
    skipn i allrows = rows ->
    rows_entries table exclude_parameters i data ->
    exists data',
      table_rows rows i exclude_parameters data = Return data'
      /\ rows_entries table exclude_parameters (length allrows) data'.
Proof.
  pose proof (grouper_rows table) as [Hlen Hrows]. fold allrows in Hlen, Hrows.
  induction rows as [|row rows IH]; intros i data Hskip Hinv.
  - exists data. split; [reflexivity|].
    assert (Hi : length allrows <= i).
    { destruct (le_lt_dec (length allrows) i) as [H|H]; [exact H|].
      exfalso. apply (f_equal (@length _)) in Hskip.
      rewrite length_skipn in Hskip. simpl in Hskip. lia. }
    destruct Hinv as [Hnd [Hent Hkeys]].
    assert (Hbound : forall j v, row_kept table exclude_parameters j v ->
                                 j < length allrows).
    { intros j v [Hv _]. apply Hlen.
      assert (3 * j + 1 < length table)
        by (apply nth_error_Some; rewrite Hv; discriminate).
      lia. }
    split; [exact Hnd|]. split.
    + intros k v. rewrite Hent. split.
      * intros [i0 [Hi0 [Hk [Hkey Hlast]]]]. exists i0.
        split; [exact (Hbound _ _ Hk)|]. split; [exact Hk|].
        split; [exact Hkey|]. intros j v' Hj. apply Hlast. lia.
      * intros [i0 [Hi0 [Hk [Hkey Hlast]]]]. exists i0.
        split; [lia|]. split; [exact Hk|]. split; [exact Hkey|].
        intros j v' Hj Hkj. apply (Hlast j v'); [|exact Hkj].
        pose proof (Hbound _ _ Hkj). lia.
    + intros i0 v _ Hk. apply (Hkeys i0 v); [|exact Hk].
      pose proof (Hbound _ _ Hk). lia.
  - destruct (skipn_cons_nth _ _ _ _ [] Hskip) as [Hi [Hrow Hskip']].
    rewrite (Hrows i Hi) in Hrow. subst row. rewrite table_rows_cons.
    destruct (nth_error table (3 * i + 1)) as [value|] eqn:Hv.
    + assert (Hkey : (if i =? 0 then Return (py "name")
                      else match nth_error table (3 * i) with
                           | Some parameter =>
                               Return (PyStr.strip (tag_text parameter))
                           | None => Throw AttributeError
                           end)
                     = Return (row_key table i)).
      { unfold row_key. destruct (i =? 0); [reflexivity|].
        assert (Hp : 3 * i < length table) by (apply Hlen; exact Hi).
        destruct (nth_error table (3 * i)) as [p|] eqn:Ep.
        - rewrite (nth_error_nth _ _ _ Ep). reflexivity.
        - apply nth_error_None in Ep. lia. }
      rewrite Hkey. unfold obind.
      destruct (negb (PyStr.eqb (PyStr.strip (tag_text value)) [])
                && negb (existsb (PyStr.eqb (row_key table i))
                                 exclude_parameters)) eqn:Hcond.
      * apply andb_true_iff in Hcond. destruct Hcond as [Ht He].
        apply negb_true_iff in Ht, He. apply pystr_eqb_nil in Ht.
        assert (Hkept : row_kept table exclude_parameters i value).
        { split; [exact Hv|]. split; [exact Ht|].
          intro Hin. apply existsb_pystr in Hin. congruence. }
        apply (IH (S i)); [exact Hskip'|].
        apply rows_entries_keep; assumption.
      * apply (IH (S i)); [exact Hskip'|].
        apply rows_entries_skip; [|exact Hinv].
        intros v [Hv' [Ht He]]. rewrite Hv in Hv'. inversion Hv'. subst v.
        apply andb_false_iff in Hcond. destruct Hcond as [Hc|Hc];
          apply negb_false_iff in Hc.
        -- apply pystr_eqb_eq in Hc. contradiction.
        -- apply existsb_pystr in Hc. contradiction.
    + apply (IH (S i)); [exact Hskip'|].
      apply rows_entries_skip; [|exact Hinv].
      intros v [Hv' _]. congruence.
Qed.

End FirstLoop.


Lemma obind_Return {A B : Type} (r : outcome A) (k : A -> outcome B) (b : B) :
  obind r k = Return b -> exists a, r = Return a /\ k a = Return b.
Proof.
  destruct r as [a|e]; simpl; intro H; [|discriminate].
  exists a. split; [reflexivity | exact H].
Qed.

Lemma obind_Throw {A B : Type} (r : outcome A) (k : A -> outcome B)
  (e : error) :
  obind r k = Throw e ->
  r = Throw e \/ exists a, r = Return a /\ k a = Throw e.
Proof.
  destruct r as [a|e']; simpl; intro H.
  - right. exists a. split; [reflexivity | exact H].
  - left. inversion H. reflexivity.
Qed.

Lemma omapM_Forall2 {A B : Type} (f : A -> outcome B) (l : list A)
  (bs : list B) :
  omapM f l = Return bs -> Forall2 (fun a b => f a = Return b) l bs.
Proof.
  revert bs. induction l as [|a l IH]; simpl; intros bs H.
  - inversion H. constructor.
  - apply obind_Return in H. destruct H as [b [Hb H]].
    apply obind_Return in H. destruct H as [bs' [Hbs H]].
    inversion H. subst. constructor; [exact Hb | apply IH; exact Hbs].
Qed.

Lemma omapM_Throw {A B : Type} (f : A -> outcome B) (l : list A) (e : error) :
  omapM f l = Throw e -> exists a, In a l /\ f a = Throw e.
Proof.
  induction l as [|a l IH]; simpl; intro H; [discriminate|].
  apply obind_Throw in H. destruct H as [H | [b [_ H]]].
  - exists a. split; [left; reflexivity | exact H].
  - apply obind_Throw in H. destruct H as [H | [bs [_ H]]]; [|discriminate].
    destruct (IH H) as [a' [Hin Ha']]. exists a'. split; [right|]; assumption.
Qed.

Lemma parse_leveling_Raise (html_text : str -> str) (leveling skill : str)
  (e : exn) :
  _parse_leveling html_text leveling skill = Raise e ->
  e = UnparsableLeveling pounce \/ e = UnparsableLeveling cougar
  \/ fragment_error e.
Proof.
  unfold _parse_leveling. intro H.
  apply bind_Raise in H. destruct H as [H | [results [_ H]]]; [|discriminate].
  apply split_leveling_Raise in H. exact H.
Qed.

Lemma attribute_field_Throw (parameter parsed : str) (e : error) :
  attribute_field parameter parsed = Throw e ->
  exists e', e = Exn e' /\ fragment_error e'.
Proof.
  unfold attribute_field. intro H.
  destruct (from_string parameter parsed) as [a|e'] eqn:E; [discriminate|].
  simpl in H. inversion H. exists e'. split; [reflexivity|].
  eapply from_string_Raise. exact E.
Qed.

(** The second loop passes on no [UnparsableLeveling]: what it raises is
    an exception of a fragment. *)
Lemma table_value_Throw (html_text : str -> str) (skill parameter : str)
  (value : Tag) (e : error) :
  table_value html_text skill parameter value = Throw e ->
  exists e', e = Exn e' /\ fragment_error e'.
Proof.
  unfold table_value.
  destruct (PyStr.startswith parameter (py "leveling")
            && existsb (PyStr.eqb skill) [py "Q"; py "W"; py "E"; py "R"]).
  - destruct (_parse_leveling html_text (tag_markup value) skill)
      as [l|e0] eqn:E; [discriminate|].
    apply parse_leveling_Raise in E.
    destruct E as [-> | [-> | E]]; try discriminate.
    intro H. exists e0. split; [|exact E].
    destruct e0; inversion H; reflexivity.
  - destruct (PyStr.eqb parameter (py "cooldown")).
    + destruct (PyStr.contains _ (py "(based on level)")
                && PyStr.contains _ (py " / "));
        [apply attribute_field_Throw|].
      destruct (PyStr.contains _ (py "(based on  Phenomenal Evil stacks)"));
        [discriminate | apply attribute_field_Throw].
    + destruct (PyStr.eqb parameter (py "cost")); [|discriminate].
      destruct (PyStr.contains _ (py "10 Moonlight + 60"));
        [discriminate | apply attribute_field_Throw].
Qed.

Lemma rows_entries_nil (table : list Tag) (exclude_parameters : list str) :
  rows_entries table exclude_parameters 0 [].
Proof.
  split; [constructor|]. split.
  - intros k v. split; [intros [] | intros [i [Hi _]]; lia].
  - intros i v Hi. lia.
Qed.

(** The dictionary of the first loop. *)
Lemma first_loop (table : list Tag) (exclude_parameters : list str) :
  exists data : dict Tag,
    table_rows (grouper (map Some table) 3 None) 0 exclude_parameters []
    = Return data
    /\ NoDup (map fst data)
    /\ (forall k v,
           In (k, v) data
           -> exists i,
                row_kept table exclude_parameters i v
                /\ k = row_key table i
                /\ forall j v', i < j ->
                                row_kept table exclude_parameters j v' ->
                                row_key table j <> k)
    /\ (forall i v, row_kept table exclude_parameters i v ->
                    In (row_key table i) (map fst data)).
Proof.
  destruct (table_rows_entries table exclude_parameters _ 0 [] eq_refl
              (rows_entries_nil table exclude_parameters))
    as [data [Hrun [Hnd [Hent Hkeys]]]].
  pose proof (grouper_rows table) as [Hlen _].
  assert (Hbound : forall j v, row_kept table exclude_parameters j v ->
                               j < length (grouper (map Some table) 3 None)).
  { intros j v [Hv _]. apply Hlen.
    assert (3 * j + 1 < length table)
      by (apply nth_error_Some; rewrite Hv; discriminate).
    lia. }
  exists data. split; [exact Hrun|]. split; [exact Hnd|]. split.
  - intros k v Hin. apply Hent in Hin.
    destruct Hin as [i [Hi [Hk [Hkey Hlast]]]]. exists i.
    split; [exact Hk|]. split; [exact Hkey|].
    intros j v' Hj Hkj. apply (Hlast j v'); [|exact Hkj].
    pose proof (Hbound _ _ Hkj). lia.
  - intros i v Hk. apply (Hkeys i v); [|exact Hk]. exact (Hbound _ _ Hk).
Qed.

Lemma Forall2_map_fst {A B C : Type} (R : B -> C -> Prop)
  (l : list (A * B)) (l' : list (A * C)) :
  Forall2 (fun x y => fst y = fst x /\ R (snd x) (snd y)) l l' ->
  map fst l' = map fst l.
Proof.
  induction 1 as [|x y l l' [Hxy _] _ IH]; simpl; [reflexivity|].
  rewrite Hxy, IH. reflexivity.
Qed.

Lemma Forall2_In_r {A B : Type} (R : A -> B -> Prop) (l : list A)
  (l' : list B) (b : B) :
  Forall2 R l l' -> In b l' -> exists a, In a l /\ R a b.
Proof.
  induction 1 as [|x y l l' Hxy _ IH]; simpl; intro Hin; [contradiction|].
  destruct Hin as [<- | Hin].
  - exists x. split; [left; reflexivity | exact Hxy].
  - destruct (IH Hin) as [a [Ha HR]]. exists a. split; [right|]; assumption.
Qed.

Lemma dict_In_unique {V : Type} (d : dict V) (k : str) (v v' : V) :
  NoDup (map fst d) -> In (k, v) d -> In (k, v') d -> v = v'.
Proof.
  intros Hnd Hv Hv'. apply dict_get_In in Hv, Hv'; try exact Hnd.
  rewrite Hv in Hv'. inversion Hv'. reflexivity.
Qed.

(** The table that [_parse_html_table] returns.  Its keys are the keys of
    the kept rows, each once, the first row under the key ["name"]; the value
    of a key is computed from the cell of the last kept row with that key; no
    key is excluded and no value comes from a cell without text.  The key
    ["skill"] is there and holds the skill's text, by which the other values
    were computed. *)
Theorem parse_html_table_entries (html_text : str -> str) (table : list Tag)
  (exclude_parameters : list str) (data : dict field) :
  _parse_html_table html_text table exclude_parameters = Return data ->
  NoDup (map fst data)
  /\ (forall i value, row_kept table exclude_parameters i value ->
                      In (row_key table i) (map fst data))
  /\ exists skill : str,
       In (py "skill", FStr skill) data
       /\ forall k f,
            In (k, f) data ->
            exists i value,
              row_kept table exclude_parameters i value
              /\ k = row_key table i
              /\ (forall j value', i < j ->
                                   row_kept table exclude_parameters j value' ->
                                   row_key table j <> k)
              /\ table_value html_text skill k value = Return f.
Proof.
  unfold _parse_html_table. intro H.
  destruct (first_loop table exclude_parameters)
    as [cells [Hrun [Hnd [Hent Hkeys]]]].
  rewrite Hrun in H. unfold obind at 1 in H.
  destruct (dict_get cells (py "skill")) as [cell|] eqn:Hskill; [|discriminate].
  apply omapM_Forall2 in H.
  set (skill := PyStr.strip (tag_text cell)) in *.
  assert (HF : Forall2 (fun x y => fst y = fst x
                                   /\ table_value html_text skill (fst x) (snd x)
                                      = Return (snd y))
                       cells data).
  { eapply Forall2_impl; [|exact H]. intros [p v] [p' f] Hpv. simpl.
    apply obind_Return in Hpv. destruct Hpv as [f' [Hf' Hpv]].
    inversion Hpv. subst. split; [reflexivity | exact Hf']. }
  assert (Hfst : map fst data = map fst cells).
  { apply (Forall2_map_fst
             (fun v f => exists p, table_value html_text skill p v = Return f)).
    eapply Forall2_impl; [|exact HF]. intros x y [Hxy Hv].
    split; [exact Hxy | exists (fst x); exact Hv]. }
  rewrite Hfst. split; [exact Hnd|]. split; [exact Hkeys|].
  assert (Hall : forall k f,
             In (k, f) data ->
             exists v, In (k, v) cells
                       /\ table_value html_text skill k v = Return f).
  { intros k f Hin. destruct (Forall2_In_r _ _ _ _ HF Hin) as [[p v] [Hpv [Hk Hv]]].
    simpl in Hk, Hv. subst p. exists v. split; assumption. }
  exists skill. split.
  - apply dict_get_In in Hskill; [|exact Hnd].
    assert (Hin : In (py "skill") (map fst data)).
    { rewrite Hfst. apply (in_map fst) in Hskill. exact Hskill. }
    apply in_map_iff in Hin. destruct Hin as [[k f] [Hk Hin]].
    simpl in Hk. subst k.
    destruct (Hall _ _ Hin) as [v [Hv Hf]].
    rewrite (dict_In_unique _ _ _ _ Hnd Hv Hskill) in Hf.
    unfold table_value in Hf. simpl in Hf. inversion Hf. subst f. exact Hin.
  - intros k f Hin. destruct (Hall _ _ Hin) as [v [Hv Hf]].
    destruct (Hent _ _ Hv) as [i [Hk [Hkey Hlast]]].
    exists i, v. split; [exact Hk|]. split; [exact Hkey|].
    split; [exact Hlast | exact Hf].
Qed.


Example parse_html_table_example :
  _parse_html_table (fun markup => markup) example_table exclude_parameters
  = Return example_data.
Proof. reflexivity. Qed.

Lemma parse_html_table_entries_witness :
  NoDup (map fst example_data)
  /\ (forall i value, row_kept example_table exclude_parameters i value ->
                      In (row_key example_table i) (map fst example_data))
  /\ exists skill : str,
       In (py "skill", FStr skill) example_data
       /\ forall k f,
            In (k, f) example_data ->
            exists i value,
              row_kept example_table exclude_parameters i value
              /\ k = row_key example_table i
              /\ (forall j value', i < j ->
                                   row_kept example_table exclude_parameters
                                            j value' ->
                                   row_key example_table j <> k)
              /\ table_value (fun markup => markup) skill k value = Return f.
Proof.
  apply (parse_html_table_entries (fun markup => markup) example_table
           exclude_parameters example_data).
  reflexivity.
Defined.

(** The exceptions of [_parse_html_table].  It raises a [KeyError] for the
    key ["skill"] exactly when no kept row has that key: with such a row it
    raises no [KeyError], without one it raises this exception and nothing
    else.  Every other exception is one of the three exceptions of a
    fragment, from a leveling, a cooldown or a cost.  An
    [UnparsableLeveling] is caught and never escapes, the unpacking of a
    tuple of [grouper] never fails, and no [None] is asked for its text. *)
Theorem parse_html_table_errors (html_text : str -> str) (table : list Tag)
  (exclude_parameters : list str) :
  (_parse_html_table html_text table exclude_parameters
   = Throw (KeyError (py "skill"))
   <-> forall i value, row_kept table exclude_parameters i value ->
                       row_key table i <> py "skill")
  /\ forall e : error,
       _parse_html_table html_text table exclude_parameters = Throw e ->
       e = KeyError (py "skill")
       \/ exists e' : exn,
            e = Exn e'
            /\ (e' = AssertionError \/ e' = SyntaxError
                \/ e' = OverflowError).
Proof.
  destruct (first_loop table exclude_parameters)
    as [cells [Hrun [Hnd [Hent Hkeys]]]].
  assert (Hloops : _parse_html_table html_text table exclude_parameters
                   = match dict_get cells (py "skill") with
                     | None => Throw (KeyError (py "skill"))
                     | Some cell =>
                         omapM (fun '(parameter, value) =>
                                  value <~ table_value html_text
                                             (PyStr.strip (tag_text cell))
                                             parameter value ;;
                                  Return (parameter, value))
                               cells
                     end).
  { unfold _parse_html_table. rewrite Hrun. reflexivity. }
  rewrite Hloops. clear Hloops.
  destruct (dict_get cells (py "skill")) as [cell|] eqn:Hskill.
  - assert (Hfragment : forall e,
               omapM (fun '(parameter, value) =>
                        value <~ table_value html_text
                                   (PyStr.strip (tag_text cell))
                                   parameter value ;;
                        Return (parameter, value))
                     cells = Throw e ->
               exists e' : exn, e = Exn e' /\ fragment_error e').
    { intros e H. apply omapM_Throw in H. destruct H as [[p v] [_ H]].
      apply obind_Throw in H. destruct H as [H | [f [_ H]]]; [|discriminate].
      apply table_value_Throw in H. exact H. }
    split; [split|].
    + intro H. destruct (Hfragment _ H) as [e' [E _]]. discriminate E.
    + intro Hno. exfalso. apply dict_get_Some_In in Hskill.
      destruct (Hent _ _ Hskill) as [i [Hk [Hkey _]]].
      apply (Hno i cell Hk). symmetry. exact Hkey.
    + intros e H. right. exact (Hfragment e H).
  - split; [split|].
    + intros _ i value Hk E. apply dict_get_None in Hskill. apply Hskill.
      rewrite <- E. apply (Hkeys i value). exact Hk.
    + intros _. reflexivity.
    + intros e H. left. inversion H. reflexivity.
Qed.

Lemma parse_html_table_errors_witness :
  _parse_html_table (fun markup => markup) (firstn 3 example_table)
                    exclude_parameters
  = Throw (KeyError (py "skill"))
  /\ forall i value, row_kept (firstn 3 example_table) exclude_parameters
                              i value ->
                     row_key (firstn 3 example_table) i <> py "skill".
Proof.
  destruct (parse_html_table_errors (fun markup => markup)
              (firstn 3 example_table) exclude_parameters) as [[Hno _] _].
  split; [reflexivity | apply Hno; reflexivity].
Defined.

Lemma index_app (before : list str) (x : str) (rest : list str) :
  Forall (fun y => y <> x) before ->
  list_index (before ++ x :: rest) x = Some (length before).
Proof.
  induction 1 as [|y before Hy _ IH]; simpl.
  - rewrite pystr_eqb_refl. reflexivity.
  - rewrite (pystr_eqb_neq _ _ Hy), IH. reflexivity.
Qed.

Lemma index_none (l : list str) (x : str) :
  Forall (fun y => y <> x) l -> list_index l x = None.
Proof.
  induction 1 as [|y l Hy _ IH]; simpl; [reflexivity|].
  rewrite (pystr_eqb_neq _ _ Hy), IH. reflexivity.
Qed.

(** [_pull_champion_ability] reads the table behind the header: the cells
    up to the first one with the text ["Parameter"], that cell and the two
    cells after it are left out, and the rest is parsed with the excluded
    fields of the source.  A page without such a cell gives a
    [ValueError]. *)
Theorem ability_table_follows_header (html_text : str -> str)
  (before : list Tag) :
  Forall (fun item => PyStr.strip (tag_text item) <> py "Parameter") before ->
  _pull_champion_ability html_text before = Throw (Exn ValueError)
  /\ forall (header value description : Tag) (body : list Tag),
       PyStr.strip (tag_text header) = py "Parameter" ->
       _pull_champion_ability html_text
         (before ++ header :: value :: description :: body)
       = _parse_html_table html_text body exclude_parameters.
Proof.
  intro Hb.
  assert (Hb' : Forall (fun y => y <> py "Parameter")
                       (map (fun item => PyStr.strip (tag_text item)) before)).
  { apply Forall_map. exact Hb. }
  split.
  - unfold _pull_champion_ability. rewrite (index_none _ _ Hb'). reflexivity.
  - intros header value description body Hh. unfold _pull_champion_ability.
    rewrite map_app. simpl map. rewrite Hh.
    rewrite (index_app _ _ _ Hb'). rewrite length_map.
    replace (length before + 3) with (length (before ++ [header; value; description]))
      by (rewrite length_app; reflexivity).
    change (before ++ header :: value :: description :: body)
      with (before ++ [header; value; description] ++ body).
    rewrite app_assoc, skipn_app, skipn_all, Nat.sub_diag. reflexivity.
Qed.

Lemma ability_table_follows_header_witness :
  _pull_champion_ability (fun markup => markup)
    [mkTag (py "Annie") (py "<th>Annie</th>")]
  = Throw (Exn ValueError)
  /\ forall (header value description : Tag) (body : list Tag),
       PyStr.strip (tag_text header) = py "Parameter" ->
       _pull_champion_ability (fun markup => markup)
         ([mkTag (py "Annie") (py "<th>Annie</th>")]
          ++ header :: value :: description :: body)
       = _parse_html_table (fun markup => markup) body exclude_parameters.
Proof.
  apply (ability_table_follows_header (fun markup => markup)
           [mkTag (py "Annie") (py "<th>Annie</th>")]).
  constructor; [discriminate | constructor].
Defined.


(** ** The kinds of the values of a table *)

(** The kind of value that the second loop of [_parse_html_table] computes
    for a key. *)
Lemma table_value_kind (html_text : str -> str) (skill parameter : str)
  (value : Tag) (f : field) :
  table_value html_text skill parameter value = Return f ->
  match f with
  | FLeveling leveling =>
      PyStr.startswith parameter (py "leveling") = true
      /\ In skill [py "Q"; py "W"; py "E"; py "R"]
      /\ _parse_leveling html_text (tag_markup value) skill = Ok leveling
  | FAttribute a =>
      (parameter = py "cooldown" \/ parameter = py "cost")
      /\ attribute a = parameter
  | FStr s =>
      s = PyStr.strip (tag_text value)
      \/ ((parameter = py "cooldown" \/ parameter = py "cost")
          /\ s = _preparse_format html_text (tag_markup value))
  end.
Proof.
  unfold table_value.
  assert (Hattr : forall parsed,
             attribute_field parameter parsed = Return f ->
             exists a, f = FAttribute a /\ attribute a = parameter).
  { intros parsed H. unfold attribute_field in H.
    apply obind_Return in H. destruct H as [a [Ha H]]. inversion H.
    exists a. split; [reflexivity|].
    destruct (from_string parameter parsed) as [a'|e] eqn:E; [|discriminate].
    inversion Ha. subst a'. eapply from_string_name. exact E. }
  destruct (PyStr.startswith parameter (py "leveling")) eqn:Hl;
    [destruct (existsb (PyStr.eqb skill) [py "Q"; py "W"; py "E"; py "R"])
       eqn:Hs|]; cbn [andb].
  - destruct (_parse_leveling html_text (tag_markup value) skill)
      as [leveling|e] eqn:E.
    + intro H. inversion H. split; [reflexivity|]. split; [|reflexivity].
      apply existsb_exists in Hs. destruct Hs as [x [Hx Ex]].
      apply pystr_eqb_eq in Ex. subst x. exact Hx.
    + destruct e; try discriminate. intro H. inversion H. left. reflexivity.
  - destruct (PyStr.eqb parameter (py "cooldown")) eqn:Ecd.
    + apply pystr_eqb_eq in Ecd.
      destruct (PyStr.contains _ (py "(based on level)")
                && PyStr.contains _ (py " / ")).
      * intro H. destruct (Hattr _ H) as [a [-> Ha]]. split; [left|]; assumption.
      * destruct (PyStr.contains _ (py "(based on  Phenomenal Evil stacks)")).
        -- intro H. inversion H. right. split; [left; exact Ecd | reflexivity].
        -- intro H. destruct (Hattr _ H) as [a [-> Ha]].
           split; [left|]; assumption.
    + destruct (PyStr.eqb parameter (py "cost")) eqn:Eco.
      * apply pystr_eqb_eq in Eco.
        destruct (PyStr.contains _ (py "10 Moonlight + 60")).
        -- intro H. inversion H. right. split; [right; exact Eco | reflexivity].
        -- intro H. destruct (Hattr _ H) as [a [-> Ha]].
           split; [right|]; assumption.
      * intro H. inversion H. left. reflexivity.
  - destruct (PyStr.eqb parameter (py "cooldown")) eqn:Ecd.
    + apply pystr_eqb_eq in Ecd.
      destruct (PyStr.contains _ (py "(based on level)")
                && PyStr.contains _ (py " / ")).
      * intro H. destruct (Hattr _ H) as [a [-> Ha]]. split; [left|]; assumption.
      * destruct (PyStr.contains _ (py "(based on  Phenomenal Evil stacks)")).
        -- intro H. inversion H. right. split; [left; exact Ecd | reflexivity].
        -- intro H. destruct (Hattr _ H) as [a [-> Ha]].
           split; [left|]; assumption.
    + destruct (PyStr.eqb parameter (py "cost")) eqn:Eco.
      * apply pystr_eqb_eq in Eco.
        destruct (PyStr.contains _ (py "10 Moonlight + 60")).
        -- intro H. inversion H. right. split; [right; exact Eco | reflexivity].
        -- intro H. destruct (Hattr _ H) as [a [-> Ha]].
           split; [right|]; assumption.
      * intro H. inversion H. left. reflexivity.
Qed.

(** The two loops of [_parse_html_table] one after the other. *)
Lemma second_loop (html_text : str -> str) (table : list Tag)
  (exclude_parameters : list str) (data : dict field) :
  _parse_html_table html_text table exclude_parameters = Return data ->
  exists (cells : dict Tag) (cell : Tag),
    table_rows (grouper (map Some table) 3 None) 0 exclude_parameters []
    = Return cells
    /\ dict_get cells (py "skill") = Some cell
    /\ Forall2 (fun x y =>
                  fst y = fst x
                  /\ table_value html_text (PyStr.strip (tag_text cell))
                                 (fst x) (snd x)
                     = Return (snd y))
               cells data.
Proof.
  unfold _parse_html_table. intro H.
  apply obind_Return in H. destruct H as [cells [Hrun H]].
  destruct (dict_get cells (py "skill")) as [cell|] eqn:Hskill; [|discriminate].
  exists cells, cell. split; [exact Hrun|]. split; [exact Hskill|].
  apply omapM_Forall2 in H.
  eapply Forall2_impl; [|exact H]. intros [p v] [p' f] Hpv. simpl.
  apply obind_Return in Hpv. destruct Hpv as [f' [Hf' Hpv]].
  inversion Hpv. subst. split; [reflexivity | exact Hf'].
Qed.

(** The schema of the dictionary that [_parse_html_table] returns.  The
    key ["skill"] holds the skill as a text.  A parsed leveling occurs only
    under a key that begins with ["leveling"], and only when the skill is
    one of [Q], [W], [E], [R]: the levelings of another skill, such as a
    passive, stay texts.  An [Attribute] occurs only under the keys
    ["cooldown"] and ["cost"] and is named by its key.  Every other value
    is a text. *)
Theorem parse_html_table_schema (html_text : str -> str) (table : list Tag)
  (exclude_parameters : list str) (data : dict field) :
  _parse_html_table html_text table exclude_parameters = Return data ->
  exists skill : str,
    In (py "skill", FStr skill) data
    /\ forall k f,
         In (k, f) data ->
         match f with
         | FLeveling _ =>
             PyStr.startswith k (py "leveling") = true
             /\ In skill [py "Q"; py "W"; py "E"; py "R"]
         | FAttribute a =>
             (k = py "cooldown" \/ k = py "cost") /\ attribute a = k
         | FStr _ => True
         end.
Proof.
  intro H. destruct (second_loop _ _ _ _ H) as [cells [cell [_ [Hskill HF]]]].
  exists (PyStr.strip (tag_text cell)). split.
  - apply dict_get_Some_In in Hskill.
    destruct (Forall2_In_l _ _ _ _ HF Hskill) as [[k f] [Hin [Hk Hf]]].
    simpl in Hk, Hf. subst k.
    unfold table_value in Hf. simpl in Hf. inversion Hf. subst f. exact Hin.
  - intros k f Hin.
    destruct (Forall2_In_r _ _ _ _ HF Hin) as [[p v] [_ [Hk Hf]]].
    simpl in Hk, Hf. subst p. apply table_value_kind in Hf.
    destruct f as [s|a|l]; [exact I | exact Hf |].
    destruct Hf as [Hl [Hs _]]. split; assumption.
Qed.

Lemma parse_html_table_schema_witness :
  exists skill : str,
    In (py "skill", FStr skill) example_data
    /\ forall k f,
         In (k, f) example_data ->
         match f with
         | FLeveling _ =>
             PyStr.startswith k (py "leveling") = true
             /\ In skill [py "Q"; py "W"; py "E"; py "R"]
         | FAttribute a =>
             (k = py "cooldown" \/ k = py "cost") /\ attribute a = k
         | FStr _ => True
         end.
Proof.
  apply (parse_html_table_schema (fun markup => markup) example_table
           exclude_parameters example_data).
  reflexivity.
Defined.


(** ** The data table of the champions *)

Lemma find_start_last (pre post : list Tag) (r : Tag) (i : nat)
  (start : option nat) :
  tag_markup r = return_span ->
  Forall (fun span => tag_markup span <> return_span) post ->
  find_start (pre ++ r :: post) i start = Some (i + length pre).
Proof.
  intros Hr Hpost. revert i start.
  induction pre as [|p pre IH]; intros i start.
  - simpl. rewrite Hr, pystr_eqb_refl, Nat.add_0_r.
    generalize (S i). clear - Hpost.
    induction Hpost as [|q post Hq _ IH]; intro j; simpl; [reflexivity|].
    rewrite (pystr_eqb_neq _ _ Hq). apply IH.
  - simpl. rewrite IH. f_equal. lia.
Qed.

Lemma find_start_none (spans : list Tag) (i : nat) (start : option nat) :
  Forall (fun span => tag_markup span <> return_span) spans ->
  find_start spans i start = start.
Proof.
  intro H. revert i. induction H as [|q spans Hq _ IH]; intro i; simpl;
    [reflexivity|].
  rewrite (pystr_eqb_neq _ _ Hq). apply IH.
Qed.

Lemma collect_braces_cons (span : Tag) (spans : list Tag)
  (opened closed : nat) (data : str) :
  collect_braces (span :: spans) opened closed data
  = let text := tag_text span in
    let opened := if PyStr.eqb text (py "{") then S opened else opened in
    let closed := if PyStr.eqb text (py "}") then S closed else closed in
    let data := if negb (opened =? 0) then data ++ text else data in
    if (opened =? closed) && (0 <? opened) then data
    else collect_braces spans opened closed data.
Proof. reflexivity. Qed.

Lemma closes_cons (depth : nat) (span : Tag) (block : list Tag) :
  closes depth (span :: block)
  = if PyStr.eqb (tag_text span) (py "{") then closes (S depth) block
    else if PyStr.eqb (tag_text span) (py "}") then
      match depth with
      | 0 => false
      | 1 => match block with [] => true | _ :: _ => false end
      | S depth' => closes depth' block
      end
    else match depth with
         | 0 => false
         | _ => closes depth block
         end.
Proof. reflexivity. Qed.

(** Before the first brace nothing is collected. *)
Lemma collect_braces_before (before rest : list Tag) :
  Forall (fun span => is_brace span = false) before ->
  collect_braces (before ++ rest) 0 0 [] = collect_braces rest 0 0 [].
Proof.
  induction 1 as [|s before Hs _ IH]; [reflexivity|].
  unfold is_brace in Hs. apply orb_false_iff in Hs. destruct Hs as [Ho Hc].
  simpl app. rewrite collect_braces_cons. cbv zeta. rewrite Ho, Hc.
  simpl. exact IH.
Qed.

(** Inside the braces everything is collected, up to the brace that closes
    the outermost one. *)
Lemma collect_braces_inside (block after : list Tag) :
  forall (opened closed : nat) (data : str),
    closed < opened ->
    closes (opened - closed) block = true ->
    collect_braces (block ++ after) opened closed data
    = data ++ concat (map tag_text block).
Proof.
  induction block as [|s block IH]; intros opened closed data Hlt Hc;
    [discriminate Hc|].
  rewrite closes_cons in Hc. simpl app. rewrite collect_braces_cons. cbv zeta.
  destruct (PyStr.eqb (tag_text s) (py "{")) eqn:Ho.
  - apply pystr_eqb_eq in Ho.
    assert (Hcl : PyStr.eqb (tag_text s) (py "}") = false)
      by (rewrite Ho; reflexivity).
    rewrite Hcl. simpl negb.
    assert (E : (S opened =? closed) = false) by (apply Nat.eqb_neq; lia).
    rewrite E. simpl andb.
    rewrite IH; [|lia|].
    + simpl. rewrite <- app_assoc. reflexivity.
    + replace (S opened - closed) with (S (opened - closed)) by lia. exact Hc.
  - destruct (PyStr.eqb (tag_text s) (py "}")) eqn:Hcl.
    + assert (E0 : (opened =? 0) = false) by (apply Nat.eqb_neq; lia).
      rewrite E0. simpl negb.
      destruct (opened - closed) as [|[|depth]] eqn:Hd; [discriminate Hc| |].
      * destruct block; [|discriminate Hc].
        assert (E : (opened =? S closed) = true) by (apply Nat.eqb_eq; lia).
        assert (E' : (0 <? opened) = true) by (apply Nat.ltb_lt; lia).
        rewrite E, E'. simpl. rewrite app_nil_r. reflexivity.
      * assert (E : (opened =? S closed) = false) by (apply Nat.eqb_neq; lia).
        rewrite E. simpl andb.
        rewrite IH; [|lia|].
        -- simpl. rewrite <- app_assoc. reflexivity.
        -- replace (opened - S closed) with (S depth) by lia. exact Hc.
    + assert (E0 : (opened =? 0) = false) by (apply Nat.eqb_neq; lia).
      rewrite E0. simpl negb.
      assert (E : (opened =? closed) = false) by (apply Nat.eqb_neq; lia).
      rewrite E. simpl andb.
      destruct (opened - closed) as [|depth] eqn:Hd; [discriminate Hc|].
      rewrite IH; [|lia|].
      * simpl. rewrite <- app_assoc. reflexivity.
      * rewrite Hd. exact Hc.
Qed.

(** The text handed to [eval] is the first brace group behind the last
    [return]: the spans from the first opening brace to the brace that
    closes it, whatever stands before the keyword and whatever follows the
    group. *)
Theorem champion_data_is_first_group (pre before block after : list Tag)
  (r first : Tag) :
  tag_markup r = return_span ->
  Forall (fun span => tag_markup span <> return_span)
         (before ++ first :: block ++ after) ->
  Forall (fun span => is_brace span = false) (r :: before) ->
  tag_text first = py "{" ->
  closes 1 block = true ->
  champion_data_source (pre ++ r :: before ++ first :: block ++ after)
  = reformat (concat (map tag_text (first :: block))).
Proof.
  intros Hr Hpost Hbefore Hfirst Hclose. unfold champion_data_source.
  rewrite (find_start_last pre _ r 0 None Hr Hpost). simpl Nat.add.
  unfold slice_from_start.
  rewrite skipn_app, skipn_all, Nat.sub_diag. simpl app. f_equal.
  change (r :: before ++ first :: block ++ after)
    with ((r :: before) ++ first :: block ++ after).
  rewrite (collect_braces_before _ _ Hbefore).
  rewrite collect_braces_cons. cbv zeta. simpl map. simpl concat.
  rewrite Hfirst. simpl.
  apply (collect_braces_inside block after 1 0 (py "{")); [lia | exact Hclose].
Qed.

Example champion_data_source_example :
  champion_data_source
    ([mkTag (py "-- data") (py "<span>-- data</span>")]
     ++ mkTag (py "return") return_span
     :: [] ++ mkTag (py "{") (py "<span>{</span>")
     :: example_group ++ [mkTag (py "-- }") (py "<span>-- }</span>")])
  = py "{" ++ dquote :: py "Aatrox" ++ dquote :: py ":{" ++ dquote :: py "id"
    ++ dquote :: py ":266}}".
Proof. reflexivity. Qed.

Lemma champion_data_is_first_group_witness :
  champion_data_source
    ([mkTag (py "-- data") (py "<span>-- data</span>")]
     ++ mkTag (py "return") return_span
     :: [] ++ mkTag (py "{") (py "<span>{</span>")
     :: example_group ++ [mkTag (py "-- }") (py "<span>-- }</span>")])
  = reformat (concat (map tag_text (mkTag (py "{") (py "<span>{</span>")
                                    :: example_group))).
Proof.
  apply (champion_data_is_first_group
           [mkTag (py "-- data") (py "<span>-- data</span>")] []
           example_group [mkTag (py "-- }") (py "<span>-- }</span>")]
           (mkTag (py "return") return_span)
           (mkTag (py "{") (py "<span>{</span>"))).
  - reflexivity.
  - repeat constructor; discriminate.
  - repeat constructor.
  - reflexivity.
  - reflexivity.
Defined.


(** ** Renaming the keys of the saved files *)

(** No two keys are renamed to the same key. *)
Lemma key_map_injective (k k' n : str) :
  dict_get key_map k = Some n -> dict_get key_map k' = Some n -> k = k'.
Proof.
  intros H H'. apply dict_get_Some_In in H, H'.
  apply (NoDup_snd_injective key_map k k' n); [|exact H|exact H'].
  assert (E : nodup str_eq_dec (map snd key_map) = map snd key_map)
    by (vm_compute; reflexivity).
  rewrite <- E. apply NoDup_nodup.
Qed.

Lemma rename_loop_cons (rec : json -> outcome (dict json)) (key : str)
  (value : json) (items : list (str * json)) (new : dict json) :
  rename_loop rec ((key, value) :: items) new
  = (value <~ rename_value rec key value ;;
     match dict_get key_map key with
     | Some new_key => rename_loop rec items (dict_set new new_key value)
     | None => Throw (KeyError key)
     end).
Proof. reflexivity. Qed.

(** The loop appends one item for every item it reads, as long as the keys
    it reads are distinct. *)
Lemma rename_loop_items (rec : json -> outcome (dict json)) :
  forall (items : list (str * json)) (new result : dict json),
    NoDup (map fst items) ->
    (forall n, In n (map fst new) ->
               exists k, dict_get key_map k = Some n
                         /\ ~ In k (map fst items)) ->
    rename_loop rec items new = Return result ->
    exists added : dict json,
      result = new ++ added
      /\ Forall2 (fun item renamed =>
                    dict_get key_map (fst item) = Some (fst renamed)
                    /\ rename_value rec (fst item) (snd item)
                       = Return (snd renamed))
                 items added.
Proof.
  induction items as [|[key value] items IH]; intros new result Hnd Hnew H.
  - simpl in H. inversion H. exists []. rewrite app_nil_r.
    split; [reflexivity | constructor].
  - rewrite rename_loop_cons in H.
    apply obind_Return in H. destruct H as [value' [Hv H]].
    destruct (dict_get key_map key) as [new_key|] eqn:Hk; [|discriminate].
    inversion Hnd as [|x xs Hnot Hnd']. subst.
    assert (Hfresh : ~ In new_key (map fst new)).
    { intro Hin. destruct (Hnew _ Hin) as [k0 [Hk0 Hnot0]].
      apply Hnot0. left. simpl. eapply key_map_injective; eassumption. }
    rewrite (dict_set_fresh _ _ _ Hfresh) in H.
    apply IH in H; [|exact Hnd'|].
    + destruct H as [added [-> Hall]]. exists ((new_key, value') :: added).
      rewrite <- app_assoc. split; [reflexivity|].
      constructor; [split; assumption | exact Hall].
    + intros n Hin. rewrite map_app in Hin. apply in_app_or in Hin.
      destruct Hin as [Hin|[<-|[]]].
      * destruct (Hnew _ Hin) as [k0 [Hk0 Hnot0]]. exists k0.
        split; [exact Hk0|]. intro Hin0. apply Hnot0. right. exact Hin0.
      * exists key. split; [exact Hk | exact Hnot].
Qed.

Lemma renamed_keys_NoDup (items : list (str * json)) (new : dict json) :
  NoDup (map fst items) ->
  Forall2 (fun item renamed =>
             dict_get key_map (fst item) = Some (fst renamed)) items new ->
  NoDup (map fst new).
Proof.
  intros Hnd H. induction H as [|x y l l' Hxy Hall IH]; simpl; [constructor|].
  inversion Hnd as [|z zs Hnot Hnd']. subst. constructor; [|apply IH; exact Hnd'].
  intro Hin. apply in_map_iff in Hin. destruct Hin as [y' [Hy Hin]].
  destruct (Forall2_In_r _ _ _ _ Hall Hin) as [x' [Hx' Hxy']].
  rewrite Hy in Hxy'. apply Hnot.
  rewrite (key_map_injective _ _ _ Hxy Hxy'). apply in_map. exact Hx'.
Qed.

(** [rename_keys] renames one to one.  For a dictionary (its keys are
    distinct) the result has one item for every item, in the same order and
    under distinct keys: the key is the one [map] gives, the value is the
    value the loop's body computes.  No item is lost by two keys falling
    together. *)
Theorem rename_keys_one_to_one (items : list (str * json)) (new : dict json) :
  NoDup (map fst items) ->
  rename_keys (JDict items) = Return new ->
  Forall2 (fun item renamed =>
             dict_get key_map (fst item) = Some (fst renamed)
             /\ rename_value rename_keys (fst item) (snd item)
                = Return (snd renamed))
          items new
  /\ NoDup (map fst new).
Proof.
  intros Hnd H. change (rename_loop rename_keys items [] = Return new) in H.
  apply rename_loop_items in H; [|exact Hnd|intros n []].
  destruct H as [added [-> Hall]]. simpl app. split; [exact Hall|].
  apply (renamed_keys_NoDup items); [exact Hnd|].
  eapply Forall2_impl; [|exact Hall]. intros x y [Hxy _]. exact Hxy.
Qed.

Example rename_keys_example :
  rename_keys (JDict example_champion) = Return example_renamed.
Proof. vm_compute. reflexivity. Qed.

Lemma example_champion_keys : NoDup (map fst example_champion).
Proof.
  assert (E : nodup str_eq_dec (map fst example_champion)
              = map fst example_champion) by (vm_compute; reflexivity).
  rewrite <- E. apply NoDup_nodup.
Defined.

Lemma rename_keys_one_to_one_witness :
  Forall2 (fun item renamed =>
             dict_get key_map (fst item) = Some (fst renamed)
             /\ rename_value rename_keys (fst item) (snd item)
                = Return (snd renamed))
          example_champion example_renamed
  /\ NoDup (map fst example_renamed).
Proof.
  apply (rename_keys_one_to_one example_champion example_renamed).
  - exact example_champion_keys.
  - vm_compute. reflexivity.
Defined.

(** The loop returns the items that its body computes, one after the
    other, when the keys it reads are distinct and the map knows them. *)
Lemma rename_loop_complete (rec : json -> outcome (dict json)) :
  forall (items : list (str * json)) (new added : dict json),
    NoDup (map fst items) ->
    (forall n, In n (map fst new) ->
               exists k, dict_get key_map k = Some n
                         /\ ~ In k (map fst items)) ->
    Forall2 (fun item renamed =>
               dict_get key_map (fst item) = Some (fst renamed)
               /\ rename_value rec (fst item) (snd item)
                  = Return (snd renamed))
            items added ->
    rename_loop rec items new = Return (new ++ added).
Proof.
  induction items as [|[key value] items IH]; intros new added Hnd Hnew Hall.
  - inversion Hall. rewrite app_nil_r. reflexivity.
  - inversion Hall as [|x [new_key value'] l l' [Hk Hv] Hrest]. subst.
    cbn [fst snd] in Hk, Hv. rewrite rename_loop_cons, Hv. unfold obind.
    rewrite Hk.
    inversion Hnd as [|x xs Hnot Hnd']. subst.
    assert (Hfresh : ~ In new_key (map fst new)).
    { intro Hin. destruct (Hnew _ Hin) as [k0 [Hk0 Hnot0]].
      apply Hnot0. left. simpl. eapply key_map_injective; eassumption. }
    rewrite (dict_set_fresh _ _ _ Hfresh).
    rewrite (IH (new ++ [(new_key, value')]) l' Hnd'); [| |exact Hrest].
    + rewrite <- app_assoc. reflexivity.
    + intros n Hin. rewrite map_app in Hin. apply in_app_or in Hin.
      destruct Hin as [Hin|[<-|[]]].
      * destruct (Hnew _ Hin) as [k0 [Hk0 Hnot0]]. exists k0.
        split; [exact Hk0|]. intro Hin0. apply Hnot0. right. exact Hin0.
      * exists key. split; [exact Hk | exact Hnot].
Qed.

(** The abilities are not renamed, and [rename_keys] does not look into
    them.  When it succeeds on a dictionary, the dictionary under a key that
    begins with ["skill_"] has become, under the renamed key, the list of
    its values as they are, with the keys they had.  With any other
    dictionary in that place the call succeeds too, whatever the keys and
    values of that dictionary are, known to [map] or not, and returns the
    same items around the list of the values of that dictionary. *)
Theorem skill_lists_keep_their_keys (before after : list (str * json))
  (key : str) (abilities : list (str * json)) (new : dict json) :
  NoDup (map fst (before ++ (key, JDict abilities) :: after)) ->
  PyStr.startswith key (py "skill_") = true ->
  rename_keys (JDict (before ++ (key, JDict abilities) :: after))
  = Return new ->
  exists (new_key : str) (renamed_before renamed_after : dict json),
    dict_get key_map key = Some new_key
    /\ new = renamed_before
             ++ (new_key, JList (map snd abilities)) :: renamed_after
    /\ forall others : list (str * json),
         rename_keys (JDict (before ++ (key, JDict others) :: after))
         = Return (renamed_before
                   ++ (new_key, JList (map snd others)) :: renamed_after).
Proof.
  intros Hnd Hkey H.
  change (rename_loop rename_keys (before ++ (key, JDict abilities) :: after)
                      [] = Return new) in H.
  apply rename_loop_items in H; [|exact Hnd|intros n []].
  destruct H as [added [-> Hall]]. simpl app.
  apply Forall2_app_inv_l in Hall.
  destruct Hall as [renamed_before [rest [Hbefore [Hrest ->]]]].
  inversion Hrest as [|x [new_key value] l renamed_after [Hk Hv] Hafter].
  subst. cbn [fst snd] in Hk, Hv.
  assert (Hvalue : forall d, rename_value rename_keys key (JDict d)
                             = Return (JList (map snd d))).
  { intro d. unfold rename_value. rewrite Hkey. reflexivity. }
  rewrite Hvalue in Hv. inversion Hv. subst value.
  exists new_key, renamed_before, renamed_after.
  split; [exact Hk|]. split; [reflexivity|].
  intro others.
  change (rename_loop rename_keys (before ++ (key, JDict others) :: after) []
          = Return ([] ++ renamed_before
                    ++ (new_key, JList (map snd others)) :: renamed_after)).
  apply rename_loop_complete.
  - rewrite map_app in *. exact Hnd.
  - intros n [].
  - apply Forall2_app; [exact Hbefore|].
    constructor; [|exact Hafter]. split; [exact Hk | apply Hvalue].
Qed.

Lemma skill_lists_keep_their_keys_witness :
  exists (new_key : str) (renamed_before renamed_after : dict json),
    dict_get key_map (py "skill_q") = Some new_key
    /\ example_renamed
       = renamed_before
         ++ (new_key,
             JList (map snd
                        [(py "Disintegrate",
                          JDict [(py "damagetype", JStr (py "Magic"));
                                 (py "unknown key", JNull)])]))
         :: renamed_after
    /\ forall others : list (str * json),
         rename_keys
           (JDict ([(py "id", JInt 1)]
                   ++ (py "skill_q", JDict others)
                   :: [(py "stats", JDict [(py "hp_base", JInt 524)])]))
         = Return (renamed_before
                   ++ (new_key, JList (map snd others)) :: renamed_after).
Proof.
  apply (skill_lists_keep_their_keys
           [(py "id", JInt 1)]
           [(py "stats", JDict [(py "hp_base", JInt 524)])]
           (py "skill_q")
           [(py "Disintegrate",
             JDict [(py "damagetype", JStr (py "Magic"));
                    (py "unknown key", JNull)])]
           example_renamed).
  - exact example_champion_keys.
  - reflexivity.
  - vm_compute. reflexivity.
Defined.

(** Induction on the dictionaries nested in a value. *)
Lemma json_dict_ind (P : json -> Prop) :
  (forall d, Forall (fun item => P (snd item)) d -> P (JDict d)) ->
  (forall j, is_dict j = false -> P j) ->
  forall j : json, P j.
Proof.
  intros Hdict Hother.
  refine (fix IH (j : json) : P j :=
            match j with
            | JDict d =>
                Hdict d
                  ((fix all (l : list (str * json))
                      : Forall (fun item => P (snd item)) l :=
                      match l with
                      | [] => Forall_nil _
                      | (k, v) :: l' => Forall_cons (k, v) (IH v) (all l')
                      end) d)
            | j' => Hother j' _
            end); reflexivity.
Qed.

Lemma rename_value_Throw (rec : json -> outcome (dict json)) (key : str)
  (value : json) (e : error) :
  rename_value rec key value = Throw e ->
  e = AttributeError \/ (is_dict value = true /\ rec value = Throw e).
Proof.
  unfold rename_value.
  destruct (PyStr.startswith key (py "skill_")).
  - destruct value; intro H; inversion H; left; reflexivity.
  - destruct (PyStr.eqb key (py "skill") && json_is_str value (py "I"));
      [discriminate|].
    destruct value; try discriminate.
    intro H. apply obind_Throw in H. destruct H as [H | [d' [_ H]]];
      [|discriminate].
    right. split; [reflexivity | exact H].
Qed.

(** The exceptions of [rename_keys]: an [AttributeError], for a value that
    is no dictionary where one is needed, or the [KeyError] of a key that
    [map] does not hold.  The handler of the [try] statement looks the key
    up again, so the [KeyError] is not suppressed. *)
Theorem rename_keys_errors (j : json) (e : error) :
  rename_keys j = Throw e ->
  e = AttributeError
  \/ exists key : str, e = KeyError key /\ dict_get key_map key = None.
Proof.
  revert e. induction j as [d IH | j Hj] using json_dict_ind; intros e H.
  - change (rename_loop rename_keys d [] = Throw e) in H.
    revert H. generalize (@nil (str * json)) as new.
    induction IH as [|[key value] d Hvalue _ IHd]; intros new H;
      [discriminate|].
    rewrite rename_loop_cons in H.
    apply obind_Throw in H. destruct H as [H | [value' [_ H]]].
    + apply rename_value_Throw in H. destruct H as [H | [_ H]];
        [left; exact H|].
      apply Hvalue. exact H.
    + destruct (dict_get key_map key) as [new_key|] eqn:Hk.
      * eapply IHd. exact H.
      * inversion H. right. exists key. split; [reflexivity | exact Hk].
  - destruct j; try discriminate Hj; inversion H; left; reflexivity.
Qed.

Lemma rename_keys_errors_witness :
  KeyError (py "unknown key") = AttributeError
  \/ exists key : str,
       KeyError (py "unknown key") = KeyError key
       /\ dict_get key_map key = None.
Proof.
  apply (rename_keys_errors (JDict [(py "unknown key", JNull)])).
  vm_compute. reflexivity.
Defined.


(** ** The scanners and the regular expressions *)

Import Regex.

Lemma exec_Eps {A : Type} (fuel : nat) (s : str) (k : str -> option A) :
  exec fuel Eps s k = k s.
Proof. destruct fuel; reflexivity. Qed.

Lemma exec_Chr {A : Type} (fuel : nat) (p : ascii -> bool) (s : str)
  (k : str -> option A) :
  exec fuel (Chr p) s k
  = match s with
    | c :: t => if p c then k t else None
    | [] => None
    end.
Proof. destruct fuel; reflexivity. Qed.

Lemma exec_Cat {A : Type} (fuel : nat) (r1 r2 : regex) (s : str)
  (k : str -> option A) :
  exec fuel (Cat r1 r2) s k = exec fuel r1 s (fun s1 => exec fuel r2 s1 k).
Proof. destruct fuel; reflexivity. Qed.

Lemma exec_Opt {A : Type} (fuel : nat) (r : regex) (s : str)
  (k : str -> option A) :
  exec fuel (Opt r) s k = orelse (exec fuel r s k) (k s).
Proof. destruct fuel; reflexivity. Qed.

Lemma exec_Rep {A : Type} (f : nat) (one greedy : bool) (r : regex) (s : str)
  (k : str -> option A) :
  exec (S f) (Rep one greedy r) s k
  = let again :=
      exec (S f) r s (fun s1 => if length s1 <? length s
                                then exec f (Rep false greedy r) s1 k
                                else None) in
    if one then again
    else if greedy then orelse again (k s) else orelse (k s) again.
Proof. reflexivity. Qed.

(** A greedy repetition of a character class takes the longest run when the
    rest of the pattern matches behind it. *)
Lemma exec_class_greedy {A : Type} (p : ascii -> bool) (s : str) :
  forall (fuel : nat) (one : bool) (k : str -> option A) (x : A),
    length s < fuel ->
    (one = true -> Re.take_while p s <> []) ->
    k (skipn (length (Re.take_while p s)) s) = Some x ->
    exec fuel (Rep one true (Chr p)) s k = Some x.
Proof.
  induction s as [|c t IH]; intros fuel one k x Hfuel Hone Hk;
    (destruct fuel as [|f]; [simpl in Hfuel; lia|]); rewrite exec_Rep, exec_Chr.
  - simpl in *. destruct one; [exfalso; apply Hone; reflexivity|]. exact Hk.
  - simpl in Hk, Hone. destruct (p c) eqn:Hp.
    + assert (Hlt : (length t <? length (c :: t)) = true)
        by (apply Nat.ltb_lt; simpl; lia).
      rewrite Hlt.
      rewrite (IH f false k x); [destruct one; reflexivity | | discriminate | exact Hk].
      simpl in Hfuel. lia.
    + destruct one; [exfalso; apply Hone; reflexivity|]. exact Hk.
Qed.

Lemma exec_class_plus_none {A : Type} (p : ascii -> bool) (s : str)
  (fuel : nat) (greedy : bool) (k : str -> option A) :
  Re.take_while p s = [] ->
  exec fuel (Rep true greedy (Chr p)) s k = None.
Proof.
  intro H. destruct fuel as [|f]; [reflexivity|]. rewrite exec_Rep, exec_Chr.
  destruct s as [|c t]; [reflexivity|]. simpl in H.
  destruct (p c); [discriminate | reflexivity].
Qed.

Lemma compile_result (src : source) (s g rest : str) :
  exec (S (length s)) (before src) s
       (fun s1 => exec (S (length s)) (group src) s1 (fun s2 => Some (s1, s2)))
  = Some (g ++ rest, rest) ->
  length (g ++ rest) <= length s ->
  compile src s = Some (g, length s - length rest).
Proof.
  intros H Hlen. unfold compile. rewrite H. rewrite length_app.
  replace (length g + length rest - length rest) with (length g) by lia.
  rewrite firstn_app, firstn_all, Nat.sub_diag. simpl. rewrite app_nil_r.
  reflexivity.
Qed.

Lemma exec_point_digits {A : Type} (fuel : nat) (r : str) (k : str -> option A) :
  length r < fuel ->
  (forall s2, exists x, k s2 = Some x) ->
  let point := match r with
               | c :: _ => if Ascii.eqb c "." then [c] else []
               | [] => []
               end in
  let fs := Re.take_while Re.isdigit (skipn (length point) r) in
  exec fuel (Cat (Opt (lit ".")) (Rep false true digit)) r k
  = k (skipn (length fs) (skipn (length point) r)).
Proof.
  intros Hfuel Hk point fs.
  assert (Hd : forall s2 : str,
             length s2 < fuel ->
             exec fuel (Rep false true (Chr Re.isdigit)) s2 k
             = k (skipn (length (Re.take_while Re.isdigit s2)) s2)).
  { intros s2 H2.
    destruct (Hk (skipn (length (Re.take_while Re.isdigit s2)) s2)) as [x Hx].
    rewrite Hx. apply exec_class_greedy; [exact H2 | discriminate | exact Hx]. }
  rewrite exec_Cat, exec_Opt. unfold lit, digit. rewrite exec_Chr.
  subst fs point. destruct r as [|c r'].
  - unfold orelse. apply Hd. exact Hfuel.
  - destruct (Ascii.eqb c ".") eqn:Ec.
    + rewrite Hd by (simpl in Hfuel; lia).
      destruct (Hk (skipn (length (Re.take_while Re.isdigit r')) r')) as [x Hx].
      rewrite Hx at 1. unfold orelse. simpl. symmetry. exact Hx.
    + unfold orelse. apply Hd. exact Hfuel.
Qed.

Theorem rnumber_agrees (s : str) : compile rnumber s = Re.rnumber s.
Proof.
  unfold Re.rnumber.
  pose proof (take_while_prefix Re.isdigit s) as Hds.
  destruct (Re.take_while Re.isdigit s) as [|d ds] eqn:E.
  - unfold compile. simpl before. simpl group. rewrite exec_Eps, exec_Cat.
    unfold digit. rewrite exec_class_plus_none by exact E. reflexivity.
  - remember (skipn (length (d :: ds)) s) as r eqn:Er.
    remember (match r with
              | c :: _ => if Ascii.eqb c "." then [c] else []
              | [] => []
              end) as point eqn:Ep.
    assert (Hr : r = point ++ skipn (length point) r).
    { subst point. destruct r as [|c r']; [reflexivity|].
      destruct (Ascii.eqb c "."); reflexivity. }
    pose proof (take_while_prefix Re.isdigit (skipn (length point) r)) as Hfs.
    remember (Re.take_while Re.isdigit (skipn (length point) r)) as fs eqn:Efs.
    remember (skipn (length fs) (skipn (length point) r)) as rest eqn:Erest.
    assert (Hs : s = ((d :: ds) ++ point ++ fs) ++ rest).
    { rewrite <- !app_assoc. rewrite <- Hfs, <- Hr. exact Hds. }
    assert (Hlen : length s = length ((d :: ds) ++ point ++ fs) + length rest)
      by (rewrite Hs at 1; apply length_app).
    replace (length ((d :: ds) ++ point ++ fs)) with (length s - length rest) by lia.
    apply compile_result; [|rewrite <- Hs; lia].
    simpl before. simpl group. rewrite exec_Eps, exec_Cat. unfold digit.
    apply exec_class_greedy; [lia | rewrite E; discriminate |].
    rewrite E, <- Er, <- Hs.
    rewrite exec_point_digits.
    + rewrite <- Ep, <- Efs, <- Erest. reflexivity.
    + rewrite Er, length_skipn. lia.
    + intro s2. eexists. reflexivity.
Qed.

Lemma rflat_agrees (s : str) : compile rflat s = Re.rflat s.
Proof.
  unfold Re.rflat.
  destruct s as [|p [|q [|c t]]];
    try (unfold compile; simpl before; simpl group; rewrite exec_Cat;
         unfold lit; rewrite !exec_Chr;
         repeat match goal with
                | |- context [if ?b then _ else _] => destruct b
                end; reflexivity).
  assert (Hnone : forall k : str -> option (str * str),
             (Ascii.eqb p ":" && Ascii.eqb q " " && Re.dot c) = false ->
             exec (S (length (p :: q :: c :: t))) (before rflat)
                  (p :: q :: c :: t)
                  (fun s1 => exec (S (length (p :: q :: c :: t))) (group rflat) s1
                                  (fun s2 => Some (s1, s2))) = None).
  { intros k H. simpl before. simpl group. rewrite exec_Cat. unfold lit.
    rewrite !exec_Chr. destruct (Ascii.eqb p ":"); [|reflexivity].
    destruct (Ascii.eqb q " "); [|reflexivity]. simpl in H.
    unfold any. apply exec_class_plus_none. simpl. rewrite H. reflexivity. }
  destruct (Ascii.eqb p ":" && Ascii.eqb q " " && Re.dot c) eqn:Hc.
  - apply andb_true_iff in Hc. destruct Hc as [Hc Hdot].
    apply andb_true_iff in Hc. destruct Hc as [Hp Hq].
    pose proof (take_while_prefix Re.dot (c :: t)) as Hpre.
    rewrite (take_while_cons_true _ _ _ Hdot) in Hpre.
    set (g := c :: Re.take_while Re.dot t) in *.
    set (rest := skipn (length g) (c :: t)) in *.
    assert (Hl : length (c :: t) = length g + length rest)
      by (rewrite Hpre at 1; apply length_app).
    replace (2 + length g) with (length (p :: q :: c :: t) - length rest)
      by (simpl length in *; lia).
    apply compile_result; [|rewrite <- Hpre; simpl; lia].
    simpl before. simpl group. rewrite exec_Cat. unfold lit.
    rewrite !exec_Chr, Hp, Hq. unfold any.
    apply exec_class_greedy.
    + simpl. lia.
    + intros _. rewrite (take_while_cons_true _ _ _ Hdot). discriminate.
    + rewrite (take_while_cons_true _ _ _ Hdot). fold g. fold rest.
      rewrite <- Hpre. reflexivity.
  - unfold compile. rewrite (Hnone (fun _ => None) eq_refl). reflexivity.
Qed.

Lemma lazy_to_paren_prefix (t u : str) :
  Re.lazy_to_paren t = Some u -> t = u ++ skipn (length u) t.
Proof.
  revert u. induction t as [|c t IH]; simpl; intros u H; [discriminate|].
  destruct (Ascii.eqb c ")").
  - inversion H. reflexivity.
  - destruct (Re.dot c); [|discriminate].
    destruct (Re.lazy_to_paren t) as [u'|]; [|discriminate].
    inversion H. simpl. f_equal. apply IH. reflexivity.
Qed.

(** A lazy repetition of [.] in front of a closing parenthesis stops at the
    first closing parenthesis of the line. *)
Lemma exec_lazy_to_paren {A : Type} (fuel' : nat) (k : str -> option A) (t : str) :
  (forall s2, exists x, k s2 = Some x) ->
  forall fuel : nat,
    length t < fuel ->
    exec fuel (Rep false false any) t (fun s1 => exec fuel' (lit ")") s1 k)
    = match Re.lazy_to_paren t with
      | Some u => k (skipn (length u) t)
      | None => None
      end.
Proof.
  intro Hk. induction t as [|c t IH]; intros fuel Hfuel;
    (destruct fuel as [|f]; [simpl in Hfuel; lia|]);
    rewrite exec_Rep; unfold lit, any; rewrite !exec_Chr.
  - reflexivity.
  - simpl Re.lazy_to_paren. destruct (Ascii.eqb c ")") eqn:Ec.
    + destruct (Hk t) as [x Hx]. simpl. rewrite Hx. reflexivity.
    + unfold orelse. destruct (Re.dot c); [|reflexivity].
      assert (Hlt : (length t <? length (c :: t)) = true)
        by (apply Nat.ltb_lt; simpl; lia).
      rewrite Hlt. fold any. fold (lit ")").
      rewrite IH by (simpl in Hfuel; lia).
      destruct (Re.lazy_to_paren t) as [u|]; reflexivity.
Qed.

Lemma rscaling_agrees (s : str) : compile rscaling s = Re.rscaling s.
Proof.
  unfold Re.rscaling.
  destruct s as [|p [|q [|c t]]].
  - reflexivity.
  - unfold compile. simpl before. simpl group.
    rewrite exec_Eps, exec_Cat. unfold lit. rewrite exec_Chr.
    destruct (Ascii.eqb p "("); [|reflexivity].
    rewrite exec_Cat, exec_Chr. reflexivity.
  - unfold compile. simpl before. simpl group.
    rewrite exec_Eps, exec_Cat. unfold lit. rewrite exec_Chr.
    destruct (Ascii.eqb p "("); [|reflexivity].
    rewrite exec_Cat, exec_Chr.
    destruct (Ascii.eqb q "+"); [|reflexivity].
    rewrite exec_Cat. unfold any.
    rewrite exec_class_plus_none by reflexivity. reflexivity.
  - set (s := p :: q :: c :: t).
  assert (Hexec :
            exec (S (length s)) (before rscaling) s
                 (fun s1 => exec (S (length s)) (group rscaling) s1
                                 (fun s2 => Some (s1, s2)))
            = if Ascii.eqb p "(" && Ascii.eqb q "+" && Re.dot c
              then match Re.lazy_to_paren t with
                   | Some u => Some (s, skipn (length u) t)
                   | None => None
                   end
              else None).
  { simpl before. simpl group. rewrite exec_Eps. subst s.
    rewrite exec_Cat. unfold lit at 1. rewrite exec_Chr.
    destruct (Ascii.eqb p "("); [|reflexivity].
    rewrite exec_Cat. unfold lit at 1. rewrite exec_Chr.
    destruct (Ascii.eqb q "+"); [|reflexivity]. simpl andb.
    rewrite exec_Cat, exec_Rep. unfold any at 1. rewrite exec_Chr.
    destruct (Re.dot c); [|reflexivity].
    assert (Hlt : (length t <? length (c :: t)) = true)
      by (apply Nat.ltb_lt; simpl; lia).
    rewrite Hlt. rewrite exec_lazy_to_paren;
      [reflexivity | intro s2; eexists; reflexivity | simpl; lia]. }
  destruct (Ascii.eqb p "(" && Ascii.eqb q "+" && Re.dot c).
  + destruct (Re.lazy_to_paren t) as [u|] eqn:Eu.
    * pose proof (lazy_to_paren_prefix _ _ Eu) as Hu.
      set (rest := skipn (length u) t) in *.
      assert (Hs : s = (p :: q :: c :: u) ++ rest)
        by (subst s; simpl; rewrite <- Hu; reflexivity).
      assert (Hl : length s = length (p :: q :: c :: u) + length rest)
        by (rewrite Hs at 1; apply length_app).
      replace (length (p :: q :: c :: u)) with (length s - length rest) by lia.
      apply compile_result; [|rewrite <- Hs; lia].
      rewrite Hexec, <- Hs. reflexivity.
    * unfold compile. rewrite Hexec. reflexivity.
  + unfold compile. rewrite Hexec. reflexivity.
Qed.


Lemma orelse_Some {A : Type} (a b : option A) (x : A) :
  orelse a b = Some x -> a = Some x \/ (a = None /\ b = Some x).
Proof. destruct a; simpl; intro H; [left | right]; auto. Qed.

(** Whatever the engine finds is a match. *)
Lemma exec_sound {A : Type} (fuel : nat) :
  forall (r : regex) (s : str) (k : str -> option A) (x : A),
    exec fuel r s k = Some x ->
    exists s1, Matches r s s1 /\ k s1 = Some x.
Proof.
  induction fuel as [|f IHf];
    induction r as [|p|r1 IH1 r2 IH2|r1 IH1|one greedy r1 IH1];
    intros s k x H.
  - rewrite exec_Eps in H. exists s. split; [constructor | exact H].
  - rewrite exec_Chr in H. destruct s as [|c t]; [discriminate|].
    destruct (p c) eqn:Hp; [|discriminate].
    exists t. split; [constructor; exact Hp | exact H].
  - rewrite exec_Cat in H. apply IH1 in H. destruct H as [s1 [H1 H]].
    apply IH2 in H. destruct H as [s2 [H2 H]].
    exists s2. split; [econstructor; eassumption | exact H].
  - rewrite exec_Opt in H. apply orelse_Some in H. destruct H as [H|[_ H]].
    + apply IH1 in H. destruct H as [s1 [H1 H]].
      exists s1. split; [apply M_Opt_some; exact H1 | exact H].
    + exists s. split; [apply M_Opt_none | exact H].
  - discriminate.
  - rewrite exec_Eps in H. exists s. split; [constructor | exact H].
  - rewrite exec_Chr in H. destruct s as [|c t]; [discriminate|].
    destruct (p c) eqn:Hp; [|discriminate].
    exists t. split; [constructor; exact Hp | exact H].
  - rewrite exec_Cat in H. apply IH1 in H. destruct H as [s1 [H1 H]].
    apply IH2 in H. destruct H as [s2 [H2 H]].
    exists s2. split; [econstructor; eassumption | exact H].
  - rewrite exec_Opt in H. apply orelse_Some in H. destruct H as [H|[_ H]].
    + apply IH1 in H. destruct H as [s1 [H1 H]].
      exists s1. split; [apply M_Opt_some; exact H1 | exact H].
    + exists s. split; [apply M_Opt_none | exact H].
  - rewrite exec_Rep in H. cbv zeta in H.
    assert (Hagain :
              forall y : A,
                exec (S f) r1 s
                     (fun s1 => if length s1 <? length s
                                then exec f (Rep false greedy r1) s1 k
                                else None) = Some y ->
                exists s2, Matches (Rep one greedy r1) s s2 /\ k s2 = Some y).
    { intros y Hy. apply IH1 in Hy. destruct Hy as [s1 [H1 Hy]].
      destruct (length s1 <? length s) eqn:Hlt; [|discriminate].
      apply Nat.ltb_lt in Hlt. apply IHf in Hy. destruct Hy as [s2 [H2 Hy]].
      exists s2. split; [eapply M_Rep_more; eassumption | exact Hy]. }
    destruct one; [apply Hagain; exact H|].
    destruct greedy; apply orelse_Some in H.
    + destruct H as [H|[_ H]]; [apply Hagain; exact H|].
      exists s. split; [apply M_Rep_stop | exact H].
    + destruct H as [H|[_ H]]; [|apply Hagain; exact H].
      exists s. split; [apply M_Rep_stop | exact H].
Qed.

Lemma Matches_length (r : regex) (s s1 : str) :
  Matches r s s1 -> length s1 <= length s.
Proof.
  induction 1; simpl in *; lia.
Qed.

(** When some match lets the rest of the pattern succeed, the engine finds
    a match (not necessarily that one). *)
Lemma exec_complete {A : Type} (r : regex) (s s1 : str) :
  Matches r s s1 ->
  forall (fuel : nat) (k : str -> option A) (x : A),
    length s < fuel -> k s1 = Some x ->
    exists y, exec fuel r s k = Some y.
Proof.
  induction 1 as [s|p c t Hp|r1 r2 s s1 s2 H1 IH1 H2 IH2|r s s1 H1 IH1|r s
                 |greedy r s|one greedy r s s1 s2 H1 IH1 Hlt H2 IH2];
    intros fuel k x Hfuel Hk.
  - rewrite exec_Eps. exists x. exact Hk.
  - rewrite exec_Chr, Hp. exists x. exact Hk.
  - rewrite exec_Cat.
    pose proof (Matches_length _ _ _ H1) as Hl.
    destruct (IH2 fuel k x ltac:(lia) Hk) as [y Hy].
    apply (IH1 fuel _ y Hfuel). exact Hy.
  - rewrite exec_Opt. destruct (IH1 fuel k x Hfuel Hk) as [y Hy].
    rewrite Hy. exists y. reflexivity.
  - rewrite exec_Opt. destruct (exec fuel r s k) as [y|].
    + exists y. reflexivity.
    + exists x. exact Hk.
  - destruct fuel as [|f]; [lia|]. rewrite exec_Rep. cbv zeta.
    destruct greedy; simpl.
    + match goal with |- context [orelse ?a _] => destruct a as [y|] end.
      * exists y. reflexivity.
      * exists x. exact Hk.
    + rewrite Hk. exists x. reflexivity.
  - destruct fuel as [|f]; [lia|]. rewrite exec_Rep. cbv zeta.
    destruct (IH2 f k x ltac:(lia) Hk) as [y Hy].
    assert (Hagain :
              exists z,
                exec (S f) r s
                     (fun s1 => if length s1 <? length s
                                then exec f (Rep false greedy r) s1 k
                                else None) = Some z).
    { apply (IH1 (S f) _ y Hfuel).
      apply Nat.ltb_lt in Hlt. rewrite Hlt. exact Hy. }
    destruct Hagain as [z Hz]. rewrite Hz.
    destruct one; [exists z; reflexivity|].
    destruct greedy; simpl; [exists z; reflexivity|].
    destruct (k s) as [w|]; [exists w | exists z]; reflexivity.
Qed.


Lemma Matches_class (r : regex) (s s1 : str) :
  Matches r s s1 ->
  forall (one greedy : bool) (q : ascii -> bool),
    r = Rep one greedy (Chr q) ->
    exists u, s = u ++ s1 /\ Forall (fun c => q c = true) u
              /\ (one = true -> u <> []).
Proof.
  induction 1 as [| | | | |greedy r s|one greedy r s s1 s2 H1 _ Hlt H2 IH2];
    intros one' greedy' q E; try discriminate.
  - inversion E. subst. exists []. split; [reflexivity|].
    split; [constructor | discriminate].
  - inversion E. subst. inversion H1. subst.
    destruct (IH2 false greedy' q eq_refl) as [u [Hu [Hall _]]].
    exists (c :: u). split; [simpl; f_equal; exact Hu|].
    split; [constructor; assumption | discriminate].
Qed.

Lemma Matches_label_group (s s1 : str) :
  Matches label_group s s1 ->
  exists c u, s = (c :: u) ++ s1 /\ Re.label_char c = true
              /\ Forall (fun c => label_class c = true) (c :: u).
Proof.
  intro H. inversion H as [| |r1 r2 s' s2 s3 H1 H2| | | |]. subst.
  destruct (Matches_class _ _ _ H1 true true _ eq_refl) as [u1 [E1 [A1 N1]]].
  destruct (Matches_class _ _ _ H2 false true _ eq_refl) as [u2 [E2 [A2 _]]].
  destruct u1 as [|c u1]; [exfalso; apply N1; reflexivity|].
  exists c, (u1 ++ u2). split; [|split].
  - rewrite E1, E2. simpl. rewrite <- app_assoc. reflexivity.
  - inversion A1. assumption.
  - change (c :: u1 ++ u2) with ((c :: u1) ++ u2). apply Forall_app. split.
    + eapply Forall_impl; [|exact A1]. intros a Ha. unfold label_class.
      rewrite Ha. reflexivity.
    + eapply Forall_impl; [|exact A2]. intros a Ha. unfold label_class.
      rewrite Ha. apply orb_true_r.
Qed.

Lemma Matches_label_groups (r : regex) (s s1 : str) :
  Matches r s s1 ->
  forall one : bool,
    r = Rep one true label_group ->
    exists u, s = u ++ s1 /\ Forall (fun c => label_class c = true) u
              /\ (one = true ->
                  exists c u', u = c :: u' /\ Re.label_char c = true).
Proof.
  induction 1 as [| | | | |greedy r s|one greedy r s s1 s2 H1 _ Hlt H2 IH2];
    intros one' E; try discriminate.
  - inversion E. subst. exists []. split; [reflexivity|].
    split; [constructor | discriminate].
  - inversion E. subst.
    destruct (Matches_label_group _ _ H1) as [c [u [E1 [Hc A1]]]].
    destruct (IH2 false eq_refl) as [u2 [E2 [A2 _]]].
    exists ((c :: u) ++ u2). split; [|split].
    + rewrite E1, E2, <- app_assoc. reflexivity.
    + apply Forall_app. split; assumption.
    + intros _. exists c, (u ++ u2). split; [reflexivity | exact Hc].
Qed.

Lemma Matches_class_run (p : ascii -> bool) (greedy : bool) (w rest : str) :
  Forall (fun c => p c = true) w ->
  Matches (Rep false greedy (Chr p)) (w ++ rest) rest.
Proof.
  induction 1 as [|c w Hc _ IH]; simpl.
  - apply M_Rep_stop.
  - eapply M_Rep_more; [apply M_Chr; exact Hc | simpl; lia | exact IH].
Qed.

(** A run of label characters that begins with a character of the first
    class is matched by the repeated group. *)
Lemma Matches_label_run (n : nat) :
  forall (u rest : str) (c : ascii) (u' : str) (one : bool),
    length u <= n ->
    u = c :: u' -> Re.label_char c = true ->
    Forall (fun c => label_class c = true) u ->
    Matches (Rep one true label_group) (u ++ rest) rest.
Proof.
  induction n as [|n IH]; intros u rest c u' one Hn -> Hc Hall;
    [simpl in Hn; lia|].
  pose proof (take_while_prefix (fun x => negb (Re.label_char x)) u') as Hw.
  pose proof (take_while_Forall (fun x => negb (Re.label_char x)) u') as Hnc.
  pose proof (take_while_stop (fun x => negb (Re.label_char x)) u') as Hstop.
  remember (Re.take_while (fun x => negb (Re.label_char x)) u') as w eqn:Ew.
  remember (skipn (length w) u') as u'' eqn:Eu.
  assert (Hall' : Forall (fun c => label_class c = true) u')
    by (inversion Hall; assumption).
  rewrite Hw in Hall'. apply Forall_app in Hall'. destruct Hall' as [Hcw Hcu].
  assert (Hww : Forall (fun c => Re.label_gap c = true) w).
  { clear - Hnc Hcw. induction w as [|a w IHw]; constructor.
    - inversion Hnc as [|? ? Ha _]. inversion Hcw as [|? ? Hb _]. subst.
      unfold label_class in Hb. apply negb_true_iff in Ha. rewrite Ha in Hb.
      exact Hb.
    - apply IHw; [inversion Hnc | inversion Hcw]; assumption. }
  assert (Hgroup : Matches label_group ((c :: u') ++ rest) (u'' ++ rest)).
  { unfold label_group. apply M_Cat with (s1 := u' ++ rest).
    - simpl app. apply M_Rep_more with (s1 := u' ++ rest);
        [apply M_Chr; exact Hc | simpl; lia | apply M_Rep_stop].
    - rewrite Hw at 1. rewrite <- app_assoc. apply Matches_class_run. exact Hww. }
  assert (Hlen : length u' = length w + length u'')
    by (rewrite Hw at 1; apply length_app).
  apply M_Rep_more with (s1 := u'' ++ rest);
    [exact Hgroup | rewrite !length_app; simpl; lia |].
  destruct u'' as [|d t].
  - apply M_Rep_stop.
  - apply (IH (d :: t) rest d t false); [simpl in *; lia | reflexivity | | exact Hcu].
    specialize (Hstop d t eq_refl). apply negb_false_iff in Hstop. exact Hstop.
Qed.

Lemma colon_not_label_class : label_class ":" = false.
Proof. reflexivity. Qed.

(** What [rattribute] can match: a run of label characters that begins with
    a character of the first class, and the colon behind it. *)
Lemma Matches_rattribute (s s2 : str) :
  Matches (group rattribute) s s2 ->
  exists c u, s = (c :: u) ++ ":"%char :: s2 /\ Re.label_char c = true
              /\ Forall (fun c => label_class c = true) (c :: u).
Proof.
  simpl group. intro H. inversion H as [| |r1 r2 s' s1 s3 H1 H2| | | |]. subst.
  destruct (Matches_label_groups _ _ _ H1 true eq_refl) as [u [E [A Hhd]]].
  destruct (Hhd eq_refl) as [c [u' [-> Hc]]].
  unfold lit in H2. inversion H2 as [|p d t Hd| | | | |]. subst.
  apply Ascii.eqb_eq in Hd. subst d.
  exists c, u'. split; [reflexivity | split; assumption].
Qed.

Lemma rattribute_of_run (c : ascii) (u rest : str) :
  Re.label_char c = true ->
  Forall (fun c => label_class c = true) (c :: u) ->
  Re.rattribute ((c :: u) ++ ":"%char :: rest)
  = Some ((c :: u) ++ [":"%char], length ((c :: u) ++ [":"%char])).
Proof.
  intros Hc Hall. unfold Re.rattribute. simpl app at 1. cbv iota. rewrite Hc.
  change (c :: u ++ ":"%char :: rest) with ((c :: u) ++ ":"%char :: rest).
  change (fun c0 : ascii => Re.label_char c0 || Re.label_gap c0)
    with label_class.
  assert (Htw : Re.take_while label_class ((c :: u) ++ ":"%char :: rest) = c :: u)
    by (apply take_while_run; [exact Hall | exact colon_not_label_class]).
  rewrite Htw. rewrite skipn_exact. reflexivity.
Qed.

Theorem rattribute_agrees (s : str) : compile rattribute s = Re.rattribute s.
Proof.
  destruct (exec (S (length s)) (before rattribute) s
                 (fun s1 => exec (S (length s)) (group rattribute) s1
                                 (fun s2 => Some (s1, s2)))) as [[s1 s2]|] eqn:E.
  - simpl before in E. rewrite exec_Eps in E.
    apply exec_sound in E. destruct E as [s2' [HM E]]. inversion E. subst s1 s2'.
    destruct (Matches_rattribute _ _ HM) as [c [u [Hs [Hc Hall]]]].
    rewrite Hs at 2. rewrite (rattribute_of_run c u s2 Hc Hall).
    assert (Hs' : s = ((c :: u) ++ [":"%char]) ++ s2)
      by (rewrite <- app_assoc; exact Hs).
    assert (Hl : length s = length ((c :: u) ++ [":"%char]) + length s2)
      by (rewrite Hs' at 1; apply length_app).
    replace (length ((c :: u) ++ [":"%char])) with (length s - length s2) by lia.
    apply compile_result; [|rewrite <- Hs'; lia].
    simpl before. rewrite exec_Eps. rewrite <- Hs'.
    destruct (exec (S (length s)) (group rattribute) s
                   (fun s3 => Some (s, s3))) as [[a b]|] eqn:E2.
    + apply exec_sound in E2. destruct E2 as [b' [HM2 E2]]. inversion E2.
      subst a b'.
      destruct (Matches_rattribute _ _ HM2) as [c2 [u2 [Hs2 [Hc2 Hall2]]]].
      pose proof (rattribute_of_run c u s2 Hc Hall) as R1.
      pose proof (rattribute_of_run c2 u2 b Hc2 Hall2) as R2.
      rewrite <- Hs in R1. rewrite <- Hs2 in R2. rewrite R1 in R2.
      injection R2 as Hc12 Hu12 _. apply app_inj_tail in Hu12.
      destruct Hu12 as [Hu12 _]. subst c2 u2. rewrite Hs in Hs2.
      apply app_inv_head in Hs2. inversion Hs2. reflexivity.
    + exfalso.
      destruct (exec_complete (group rattribute) s s2 HM (S (length s))
                  (fun s3 => Some (s, s3)) (s, s2) ltac:(lia) eq_refl)
        as [y Hy].
      rewrite Hy in E2. discriminate.
  - unfold compile. rewrite E.
    destruct (Re.rattribute s) as [[g n]|] eqn:R; [|reflexivity].
    exfalso. unfold Re.rattribute in R. destruct s as [|c s']; [discriminate|].
    destruct (Re.label_char c) eqn:Hc; [|discriminate].
    pose proof (take_while_prefix label_class (c :: s')) as Hp.
    pose proof (take_while_Forall label_class (c :: s')) as Hall.
    assert (Hcc : label_class c = true) by (unfold label_class; rewrite Hc; reflexivity).
    change (fun c0 : ascii => Re.label_char c0 || Re.label_gap c0)
      with label_class in R.
    rewrite (take_while_cons_true _ _ _ Hcc) in *.
    remember (c :: Re.take_while label_class s') as run eqn:Hrun.
    destruct (skipn (length run) (c :: s')) as [|d rest]; [discriminate|].
    destruct (Ascii.eqb d ":") eqn:Hd; [|discriminate].
    apply Ascii.eqb_eq in Hd. subst d.
    assert (HM : Matches (group rattribute) (c :: s') rest).
    { simpl group. rewrite Hp. apply M_Cat with (s1 := ":"%char :: rest).
      - fold label_group.
        apply (Matches_label_run (length run) run _ c
                 (Re.take_while label_class s') true);
          [lia | exact Hrun | exact Hc | exact Hall].
      - unfold lit. apply M_Chr. reflexivity. }
    change (before rattribute) with Eps in E. rewrite exec_Eps in E.
    destruct (exec_complete (group rattribute) (c :: s') rest HM
                (S (length (c :: s'))) (fun s3 => Some (c :: s', s3))
                (c :: s', rest) ltac:(lia) eq_refl) as [y Hy].
    pose proof (eq_trans (eq_sym Hy) E) as C. discriminate C.
Qed.

Lemma findall_from_ext (re1 re2 : Re.pattern) :
  (forall s, re1 s = re2 s) ->
  forall (s : str) (skip : nat),
    Re.findall_from re1 skip s = Re.findall_from re2 skip s.
Proof.
  intros H s. induction s as [|c s IH]; intro skip; simpl; [reflexivity|].
  destruct skip as [|k]; [|apply IH]. rewrite H.
  destruct (re2 (c :: s)) as [[g n]|]; [f_equal|]; apply IH.
Qed.

(** The scanners that the parser calls find the matches of the four regular
    expressions of the source. *)
Theorem patterns_agree (s : str) :
  Re.findall Re.rnumber s = Re.findall (compile rnumber) s
  /\ Re.findall Re.rscaling s = Re.findall (compile rscaling) s
  /\ Re.findall Re.rflat s = Re.findall (compile rflat) s
  /\ Re.findall Re.rattribute s = Re.findall (compile rattribute) s.
Proof.
  unfold Re.findall. repeat split; apply findall_from_ext; intro t; symmetry.
  - apply rnumber_agrees.
  - apply rscaling_agrees.
  - apply rflat_agrees.
  - apply rattribute_agrees.
Qed.
